(** * EllipticiPy: ellipticity corrections for seismic body waves

    A shallow embedding of the two implementations shipped in the
    repository,

      - [src/ellipticipy/tools.py]  (module [Ellipticipy] below) and
      - [src/ellipticity/tools.py]  (module [Ellipticity] below),

    together with the properties of the natural-language specification
    that were checked against them.

    Numeric model.  A [float64] is modelled by a real number: rounding and
    overflow are not represented.  [np.sqrt] applied to an argument that
    the code does not guard is modelled by [np_sqrt], which yields [NaN]
    on a negative argument as numpy does; values that may carry a [NaN]
    have type [np64].  Division is division of real numbers: where numpy
    divides by zero it warns and yields an infinity or a NaN, which a
    real number cannot carry, so a quotient is exact only where its
    divisor is not zero.  A division of two Python floats raises
    ZeroDivisionError at a zero divisor; this is modelled as such (the
    length of day and the grid step of [model_epsilon], the distances of
    [centre_of_planet_coefficients]).  Python exceptions are values of
    type [exn] and fallible code lives in the error monad [res].

    The ray tracer and the layered velocity model (ObsPy's [TauPyModel],
    [TauModel], [VelocityModel] and [Arrival]) are collaborators of the
    package; they are the fields of the records [TauModel] and [Arrival]. *)

From Stdlib Require Import Reals Lra Lia ZArith List String Ascii Bool Arith.
Import ListNotations.

Local Open Scope R_scope.

(** ** Python exceptions and the error monad *)

Inductive exn : Type :=
| ValueError (msg : string)
| TypeError (msg : string)
| IndexError
| KeyError
| NameError
| ZeroDivisionError
| RecursionError
| PhaseError (message : string).

Inductive res (A : Type) : Type :=
| Ok (a : A)
| Raise (e : exn).
Arguments Ok {A} a.
Arguments Raise {A} e.

Definition bind {A B : Type} (c : res A) (k : A -> res B) : res B :=
  match c with
  | Ok a => k a
  | Raise e => Raise e
  end.

Notation "x <- c ;; k" := (bind c (fun x => k))
  (at level 61, c at next level, right associativity).
Notation "' pat <- c ;; k" := (bind c (fun x => match x with pat => k end))
  (at level 61, pat pattern, c at next level, right associativity).

Fixpoint mapM {A B : Type} (f : A -> res B) (l : list A) : res (list B) :=
  match l with
  | [] => Ok []
  | a :: l' => b <- f a ;; bs <- mapM f l' ;; Ok (b :: bs)
  end.

(** A [for] loop threading its state through a fallible body. *)
Fixpoint foldM {A S : Type} (f : S -> A -> res S) (l : list A) (s : S)
  : res S :=
  match l with
  | [] => Ok s
  | a :: l' => s' <- f s a ;; foldM f l' s'
  end.

(** [enumerate(l)] *)
Definition enumerate {A : Type} (l : list A) : list (nat * A) :=
  combine (seq 0 (List.length l)) l.

(** ** Comparisons on floats, as booleans *)

Definition Req_bool (x y : R) : bool := if Req_dec_T x y then true else false.
Definition Rlt_bool (x y : R) : bool := if Rlt_dec x y then true else false.
Definition Rle_bool (x y : R) : bool := if Rle_dec x y then true else false.

(** [x in xs] for a float and a numpy array. *)
Definition R_in (x : R) (xs : list R) : bool := existsb (Req_bool x) xs.

(** ** Values that may be NaN *)

Inductive np64 : Type :=
| Fin (x : R)
| NaN.

Definition np_lift2 (f : R -> R -> R) (a b : np64) : np64 :=
  match a, b with
  | Fin x, Fin y => Fin (f x y)
  | _, _ => NaN
  end.

Definition np_add : np64 -> np64 -> np64 := np_lift2 Rplus.
Definition np_sub : np64 -> np64 -> np64 := np_lift2 Rminus.
Definition np_mul : np64 -> np64 -> np64 := np_lift2 Rmult.

(** [np.sqrt]: NaN on a negative argument. *)
Definition np_sqrt (x : R) : np64 :=
  if Rlt_bool x 0 then NaN else Fin (sqrt x).

(** [np.sum] over a list of possibly-NaN values. *)
Definition np_sum (l : list np64) : np64 := fold_left np_add l (Fin 0).

(** ** Python and numpy helpers *)

(** [l[i]] with Python's negative indices. *)
Definition py_index {A : Type} (l : list A) (i : Z) : res A :=
  let n := Z.of_nat (List.length l) in
  let j := if (i <? 0)%Z then (i + n)%Z else i in
  if ((j <? 0)%Z || (n <=? j)%Z)%bool then Raise IndexError
  else match nth_error l (Z.to_nat j) with
       | Some a => Ok a
       | None => Raise IndexError
       end.

(** [math.factorial]. *)
Definition factorial (n : Z) : res Z :=
  if (n <? 0)%Z
  then Raise (ValueError "factorial() not defined for negative values")
  else Ok (Z.of_nat (fact (Z.to_nat n))).

(** [np.radians]. *)
Definition radians (deg : R) : R := deg * (PI / 180).

(** [np.sum] and the builtin [sum] over floats. *)
Definition Rsum (l : list R) : R := fold_left Rplus l 0.

(** [np.max] of a non-empty array. *)
Definition Rmax_list (l : list R) : R :=
  match l with
  | [] => 0
  | x :: l' => fold_left Rmax l' x
  end.

(** [np.cumsum]. *)
Fixpoint cumsum_from (acc : R) (l : list R) : list R :=
  match l with
  | [] => []
  | x :: l' => (acc + x) :: cumsum_from (acc + x) l'
  end.
Definition cumsum (l : list R) : list R := cumsum_from 0 l.

(** [a[1:] - a[:-1]], and more generally a binary operation on successive
    elements: [f a[i+1] a[i]]. *)
Fixpoint pairwise {A B : Type} (f : A -> A -> B) (l : list A) : list B :=
  match l with
  | x :: ((y :: _) as l') => f y x :: pairwise f l'
  | _ => []
  end.

(** [l[-1]] of a float array that the caller knows to be non-empty. *)
Definition last_elt (l : list R) : res R := py_index l (-1).

(** The material properties a velocity model is queried for: the strings
    ["p"], ["s"] and ["d"] (or ["r"]). *)
Inductive prop : Type := PVel | SVel | Dens.

(** ** The collaborators: velocity layers, ray paths, arrivals, models *)

(** One row of [v_mod.layers]. *)
Record Layer : Type := {
  top_depth : R;
  bot_depth : R;
  top_p_velocity : R;
  bot_p_velocity : R;
  top_s_velocity : R;
  bot_s_velocity : R;
  top_density : R;
  bot_density : R
}.

(** One row of [arrival.path]: columns 0..3 are [p], [time], [dist]
    and [depth]. *)
Record PathPoint : Type := {
  pt_p : R;
  pt_time : R;
  pt_dist : R;
  pt_depth : R
}.

Record Arrival : Type := {
  name : string;
  distance : R;            (* degrees *)
  purist_distance : R;     (* degrees *)
  ray_param : R;           (* s/rad *)
  source_depth : R;        (* km *)
  path : option (list PathPoint)
}.

(** A [TauPyModel] with its [TauModel] and [VelocityModel] flattened.
    The last four fields are the attributes the package caches on the
    velocity model. *)
Record TauModel : Type := {
  radius_of_planet : R;                       (* km *)
  cmb_depth : R;
  iocb_depth : R;
  layers : list Layer;
  get_discontinuity_depths : list R;
  evaluate_above : R -> prop -> R;
  evaluate_below : R -> prop -> R;
  layer_number_above : R -> nat;
  layer_number_below : R -> nat;
  model_name : string;
  get_ray_paths : R -> R -> string -> list Arrival;
  top_epsilon : option (list R);
  bot_epsilon : option (list R);
  epsilon_r : option (list R);
  epsilon : option (list R)
}.

(** [model.layers[i]]. *)
Definition layer_at (model : TauModel) (i : nat) : res Layer :=
  py_index (layers model) (Z.of_nat i).

(** Constants *)
Definition EARTH_LOD : R := 86164.0905.
Definition G : R := 6.67408e-11.

(** [evaluate_derivative_at], the same in both files.  The property is the
    lower-cased string; [prop in "rd"] accepts ["r"] and ["d"]. *)
Definition prop_of_ascii (c : ascii) : option prop :=
  if Ascii.eqb c "p" then Some PVel
  else if Ascii.eqb c "s" then Some SVel
  else if (Ascii.eqb c "r" || Ascii.eqb c "d")%bool then Some Dens
  else None.

Definition evaluate_derivative_at (layer : Layer) (pr : prop) : R :=
  let thick := bot_depth layer - top_depth layer in
  match pr with
  | PVel => (bot_p_velocity layer - top_p_velocity layer) / thick
  | SVel => (bot_s_velocity layer - top_s_velocity layer) / thick
  | Dens => (bot_density layer - top_density layer) / thick
  end.

Definition evaluate_derivative_below (model : TauModel) (depth : R) (pr : prop)
  : res R :=
  layer <- layer_at model (layer_number_below model depth) ;;
  Ok (evaluate_derivative_at layer pr).

Definition evaluate_derivative_above (model : TauModel) (depth : R) (pr : prop)
  : res R :=
  layer <- layer_at model (layer_number_above model depth) ;;
  Ok (evaluate_derivative_at layer pr).

(** Element-wise binary operations on numpy arrays of equal length. *)
Fixpoint zipWith {A B C : Type} (f : A -> B -> C) (l : list A) (l' : list B)
  : list C :=
  match l, l' with
  | a :: t, b :: t' => f a b :: zipWith f t t'
  | _, _ => []
  end.

(** [scipy.integrate.cumtrapz(y, x=x, initial=0.0)]. *)
Definition cumtrapz_x (y x : list R) : list R :=
  0 :: cumsum (zipWith Rmult (pairwise Rminus x)
                 (pairwise (fun top bot => (top + bot) / 2) y)).

(** [scipy.integrate.cumtrapz(y)], unit spacing, no initial value. *)
Definition cumtrapz (y : list R) : list R :=
  cumsum (pairwise (fun top bot => 1 * (top + bot) / 2) y).

(** [scipy.integrate.cumtrapz(y, initial=0.0)], unit spacing. *)
Definition cumtrapz_initial (y : list R) : list R := 0 :: cumtrapz y.

(** [np.sign]. *)
Definition np_sign (x : R) : R :=
  if Rlt_bool x 0 then -1 else if Rlt_bool 0 x then 1 else 0.

(** Writing the cached attributes on the velocity model. *)
Definition set_layer_epsilon (model : TauModel) (top bot : list R) : TauModel :=
  {| radius_of_planet := radius_of_planet model;
     cmb_depth := cmb_depth model;
     iocb_depth := iocb_depth model;
     layers := layers model;
     get_discontinuity_depths := get_discontinuity_depths model;
     evaluate_above := evaluate_above model;
     evaluate_below := evaluate_below model;
     layer_number_above := layer_number_above model;
     layer_number_below := layer_number_below model;
     model_name := model_name model;
     get_ray_paths := get_ray_paths model;
     top_epsilon := Some top;
     bot_epsilon := Some bot;
     epsilon_r := epsilon_r model;
     epsilon := epsilon model |}.

Definition set_radial_epsilon (model : TauModel) (r eps : list R) : TauModel :=
  {| radius_of_planet := radius_of_planet model;
     cmb_depth := cmb_depth model;
     iocb_depth := iocb_depth model;
     layers := layers model;
     get_discontinuity_depths := get_discontinuity_depths model;
     evaluate_above := evaluate_above model;
     evaluate_below := evaluate_below model;
     layer_number_above := layer_number_above model;
     layer_number_below := layer_number_below model;
     model_name := model_name model;
     get_ray_paths := get_ray_paths model;
     top_epsilon := top_epsilon model;
     bot_epsilon := bot_epsilon model;
     epsilon_r := Some r;
     epsilon := Some eps |}.

(** An attribute that was never written. *)
Definition attr {A : Type} (a : option A) : res A :=
  match a with
  | Some x => Ok x
  | None => Raise (TypeError "attribute missing")
  end.

(** * src/ellipticipy/tools.py *)

Module Ellipticipy.

(** The model argument of the entry point: a [TauPyModel], a [TauModel],
    or anything else. *)
Inductive model_arg : Type :=
| TauPyModelObj (m : TauModel)
| TauModelObj (m : TauModel)
| OtherObj.

(** The strings ["p"], ["s"] and ["diff"] returned by [classify_path]. *)
Inductive label : Type := LP | LS | LDiff.

Definition is_diff (w : label) : bool :=
  match w with LDiff => true | _ => false end.

(** What the velocity model makes of a label used as a material property. *)
Definition prop_of_label (w : label) : res prop :=
  match w with
  | LP => Ok PVel
  | LS => Ok SVel
  | LDiff => Raise (ValueError "Unknown material property, use p, s, or d.")
  end.

(** The arrays [top_radius], [mass] and [radau] of [model_epsilon]. *)
Definition top_radii (model : TauModel) : list R :=
  let a := radius_of_planet model * 1e3 in
  let top_depth := map (fun l => top_depth l * 1e3) (rev (layers model)) in
  map (fun d => a - d) top_depth.

(** [0.5 * (bot_density + top_density)], layer by layer from the centre. *)
Definition shell_density (model : TauModel) : list R :=
  let top_density := map (fun l => top_density l * 1e3) (rev (layers model)) in
  let bot_density := map (fun l => bot_density l * 1e3) (rev (layers model)) in
  zipWith (fun b t => 0.5 * (b + t)) bot_density top_density.

Definition shell_mass (model : TauModel) : list R :=
  let top_radius := top_radii model in
  let top_volume := map (fun r => (4.0 / 3.0) * PI * r ^ 3) top_radius in
  let volume := 0 :: top_volume in
  let d_volume := pairwise Rminus volume in
  let d_mass := zipWith Rmult (shell_density model) d_volume in
  cumsum d_mass.

Definition radau (model : TauModel) : list R :=
  let top_radius := top_radii model in
  let mass := shell_mass model in
  let j_top := map (fun r => (8.0 / 15.0) * PI * r ^ 5) top_radius in
  let j := 0 :: j_top in
  let d_j := pairwise Rminus j in
  let d_inertia := zipWith Rmult (shell_density model) d_j in
  let moment_of_inertia := cumsum d_inertia in
  let y := zipWith Rdiv moment_of_inertia
             (zipWith (fun m r => m * r ^ 2) mass top_radius) in
  map (fun y => 6.25 * (1 - 3 * y / 2) ^ 2 - 1) y.

(** [2 * np.pi / lod] divides two Python floats: a length of day of zero
    raises ZeroDivisionError before anything else is computed. *)
Definition model_epsilon (model : TauModel) (lod : R) : res TauModel :=
  if Req_bool lod 0 then Raise ZeroDivisionError else
  let omega := 2 * PI / lod in
  let a := radius_of_planet model * 1e3 in
  let top_radius := top_radii model in
  let mass := shell_mass model in
  total_mass <- last_elt mass ;;
  let radau := radau model in
  let ha := (a ^ 3 * omega ^ 2) / (G * total_mass) in
  radau_a <- last_elt radau ;;
  let epsilona := (5 * ha) / (2 * radau_a + 4) in
  let epsilon := map exp (cumtrapz_x (zipWith Rdiv radau top_radius) top_radius) in
  epsilon_last <- last_elt epsilon ;;
  let epsilon := map (fun e => epsilona * e / epsilon_last) epsilon in
  epsilon_0 <- py_index epsilon 0 ;;
  let epsilon := epsilon_0 :: epsilon in
  Ok (set_layer_epsilon model (removelast (rev epsilon)) (tl (rev epsilon))).

Definition get_epsilon (model : TauModel) (depth : R) : res R :=
  let top_layer_idx := layer_number_below model 0.0 in
  let layer_idx :=
    if Rlt_bool 0.0 depth then layer_number_above model depth
    else top_layer_idx in
  layer <- layer_at model layer_idx ;;
  let thick := bot_depth layer - top_depth layer in
  bots <- attr (bot_epsilon model) ;;
  bot_eps <- py_index bots (Z.of_nat layer_idx) ;;
  tops <- attr (top_epsilon model) ;;
  top_eps <- py_index tops (Z.of_nat layer_idx) ;;
  let slope := (bot_eps - top_eps) / thick in
  Ok (slope * (depth - top_depth layer) + top_eps).

Definition weighted_alp2 (m : Z) (theta : R) : res R :=
  let kronecker_0m := if (m =? 0)%Z then 1%Z else 0%Z in
  num <- factorial (2 - m) ;;
  den <- factorial (2 + m) ;;
  let norm := sqrt (IZR (2 - kronecker_0m) * (IZR num / IZR den)) in
  if (m =? 0)%Z then Ok (norm * 0.5 * (3.0 * cos theta ^ 2 - 1.0))
  else if (m =? 1)%Z then Ok (norm * 3.0 * cos theta * sin theta)
  else if (m =? 2)%Z then Ok (norm * 3.0 * sin theta ^ 2)
  else Raise (ValueError "Invalid value of m").

(** [[-(2.0 / 3.0) * weighted_alp2(m, distance) for m in [0, 1, 2]]]
    at one distance. *)
Definition lambdas (dist : R) : res (list R) :=
  mapM (fun m => w <- weighted_alp2 m dist ;; Ok (- (2.0 / 3.0) * w))
       [0; 1; 2]%Z.

(** The inner function of [expected_delay_time]; the same two lines are
    written out in [integral_coefficients] and
    [discontinuity_contribution]. *)
Definition vertical_slowness (eta p : R) : R :=
  let y := eta ^ 2 - p ^ 2 in
  sqrt (y * (if Rlt_bool 0 y then 1 else 0)).

Definition expected_delay_time (ray_param depth0 depth1 : R) (wave : prop)
    (model : TauModel) : R :=
  let radius0 := radius_of_planet model - depth0 in
  let radius1 := radius_of_planet model - depth1 in
  let '(v0, v1) :=
    if Rle_bool depth0 depth1
    then (evaluate_below model depth0 wave, evaluate_above model depth1 wave)
    else (evaluate_above model depth0 wave, evaluate_below model depth1 wave) in
  if Rlt_bool 0.0 v0 then
    let eta0 := radius0 / v0 in
    let eta1 := radius1 / v1 in
    let n0 := vertical_slowness eta0 ray_param in
    let n1 := vertical_slowness eta1 ray_param in
    if Req_bool ray_param 0.0
    then 0.5 * ((1.0 / v0) + (1.0 / v1)) * Rabs (radius1 - radius0)
    else 0.5 * (n0 + n1) * Rabs (ln (radius1 / radius0))
  else 0.0.

(** The two points [classify_path] looks at. *)
Definition compared_points (path : list PathPoint)
  : res (PathPoint * PathPoint) :=
  first <- py_index path 0 ;;
  last <- py_index path (-1) ;;
  if Rlt_bool (pt_depth first) (pt_depth last)
  then point0 <- py_index path 0 ;; point1 <- py_index path 1 ;;
       Ok (point0, point1)
  else point0 <- py_index path (-2) ;; point1 <- py_index path (-1) ;;
       Ok (point0, point1).

Definition classify_path (path : list PathPoint) (model : TauModel)
  : res label :=
  ' (point0, point1) <- compared_points path ;;
  let ray_param := pt_p point0 in
  let depth0 := pt_depth point0 in
  let depth1 := pt_depth point1 in
  if Req_bool depth0 depth1 then Ok LDiff
  else
    let travel_time := pt_time point1 - pt_time point0 in
    let distance := Rabs (pt_dist point0 - pt_dist point1) in
    let delay_time := travel_time - ray_param * distance in
    let delay_p := expected_delay_time ray_param depth0 depth1 PVel model in
    let delay_s := expected_delay_time ray_param depth0 depth1 SVel model in
    let error_p := (delay_p / delay_time) - 1.0 in
    let error_s := (delay_s / delay_time) - 1.0 in
    if Rlt_bool (Rabs error_p) (Rabs error_s) then Ok LP else Ok LS.

(** [np.where(is_disc)[0]], counting from [start]. *)
Fixpoint where_true (start : nat) (bs : list bool) : list nat :=
  match bs with
  | [] => []
  | b :: bs' =>
      if b then start :: where_true (S start) bs'
      else where_true (S start) bs'
  end.

(** [np.split(arr, idx)] for increasing indices; [start] is the index in
    the original array of the head of [l]. *)
Fixpoint np_split_from {A : Type} (start : nat) (l : list A) (idx : list nat)
  : list (list A) :=
  match idx with
  | [] => [l]
  | i :: idx' =>
      firstn (i - start) l :: np_split_from i (skipn (i - start) l) idx'
  end.

Definition np_split {A : Type} (l : list A) (idx : list nat) : list (list A) :=
  np_split_from 0 l idx.

(** [[np.append(s, splitted[i + 1][0])
      for i, s in enumerate(splitted[:-1])]] *)
Fixpoint append_next_head {A : Type} (splitted : list (list A))
  : res (list (list A)) :=
  match splitted with
  | s :: ((s' :: _) as rest) =>
      h <- py_index s' 0 ;;
      r <- append_next_head rest ;;
      Ok ((s ++ [h]) :: r)
  | _ => Ok []
  end.

(** Lines 275-289 of [split_ray_path]: the segments before they are
    classified. *)
Definition split_points (full_path : list PathPoint) (model : TauModel)
  : res (list (list PathPoint)) :=
  let discs := removelast (get_discontinuity_depths model) in
  let depths := map pt_depth full_path in
  let is_disc := map (fun d => R_in d discs) depths in
  is_disc <- match is_disc with
             | [] => Raise IndexError
             | _ :: t => Ok (false :: t)
             end ;;
  let idx := where_true 0 is_disc in
  let splitted := np_split full_path idx in
  append_next_head splitted.

Definition split_ray_path (arrival : Arrival) (model : TauModel)
  : res (list (list PathPoint) * list label) :=
  full_path <- attr (path arrival) ;;
  dpaths <- split_points full_path model ;;
  dwaves <- mapM (fun path => classify_path path model) dpaths ;;
  let kept := filter (fun pw => negb (is_diff (snd pw))) (combine dpaths dwaves) in
  let paths := map fst kept in
  let waves := map snd kept in
  (* assert len(paths) == len(waves) *)
  Ok (paths, waves).

(** The body of the loop of [integral_coefficients] for one segment.
    [radius / v] is a quotient of reals: it is exact where the velocity is
    not zero (numpy gives an infinity there, and a NaN for the integrand). *)
Definition segment_integral (arrival : Arrival) (model : TauModel)
    (path : list PathPoint) (wave : label) : res (list R) :=
  let depth := map pt_depth path in
  let max_depth := Rmax_list depth in
  let radius := map (fun d => radius_of_planet model - d) depth in
  pr <- prop_of_label wave ;;
  let cond := fun d => negb (Req_bool d max_depth) in
  let v := map (fun d => if cond d then evaluate_below model d pr
                         else evaluate_above model max_depth pr) depth in
  dvdr <- mapM (fun d =>
                  if cond d
                  then s <- evaluate_derivative_below model d pr ;; Ok (- s)
                  else s <- evaluate_derivative_above model max_depth pr ;;
                       Ok (- s)) depth ;;
  let eta := zipWith Rdiv radius v in
  epsilon <- mapM (get_epsilon model) depth ;;
  let distance := map pt_dist path in
  lam <- mapM (fun m =>
                 ws <- mapM (weighted_alp2 m) distance ;;
                 Ok (map (fun w => - (2.0 / 3.0) * w) ws)) [0; 1; 2]%Z ;;
  let vs := map (fun e => vertical_slowness e (ray_param arrival)) eta in
  let integration := fun m : Z =>
    lam_m <- py_index lam m ;;
    let kernel := zipWith (fun e d => e * d / (1.0 - e * d)) eta dvdr in
    let integrand := zipWith Rmult (zipWith Rmult kernel epsilon) lam_m in
    let mean := pairwise (fun top bot => 0.5 * (top + bot)) integrand in
    let delta := pairwise (fun top bot => Rabs (top - bot)) vs in
    Ok (Rsum (zipWith Rmult mean delta)) in
  mapM integration [0; 1; 2]%Z.

(** [[np.sum([s[m] for s in sigmas]) for m in [0, 1, 2]]] *)
Definition sum_orders (sigmas : list (list R)) : res (list R) :=
  mapM (fun m => col <- mapM (fun s => py_index s m) sigmas ;; Ok (Rsum col))
       [0; 1; 2]%Z.

Definition integral_coefficients (arrival : Arrival) (model : TauModel)
  : res (list R) :=
  ' (paths, waves) <- split_ray_path arrival model ;;
  sigmas <- mapM (fun pw => segment_integral arrival model (fst pw) (snd pw))
                 (combine paths waves) ;;
  sum_orders sigmas.

(** One end of a segment.  [radius / v] is a quotient of reals: it is
    exact where the velocity is not zero. *)
Definition discontinuity_contribution (points : PathPoint * PathPoint)
    (phase : label) (model : TauModel) : res (list R) :=
  let disc_point := fst points in
  let neighbour_point := snd points in
  let ray_param := pt_p disc_point in
  let distance := pt_dist disc_point in
  let depth := pt_depth disc_point in
  let radius := radius_of_planet model - depth in
  let neighbour_depth := pt_depth neighbour_point in
  pr <- prop_of_label phase ;;
  let v := if Rle_bool depth neighbour_depth
           then evaluate_below model depth pr
           else evaluate_above model depth pr in
  let eta := radius / v in
  let vs := vertical_slowness eta ray_param in
  let vs := if Req_bool neighbour_depth depth then 0.0 else vs in
  let sign := np_sign (depth - neighbour_depth) in
  epsilon <- get_epsilon model depth ;;
  lam <- lambdas distance ;;
  mapM (fun m => lam_m <- py_index lam m ;;
                 Ok (- sign * vs * epsilon * lam_m)) [0; 1; 2]%Z.

(** The body of the loop of [discontinuity_coefficients] for one segment. *)
Definition segment_ends (model : TauModel) (path : list PathPoint)
    (wave : label) : res (list R) :=
  p0 <- py_index path 0 ;;
  p1 <- py_index path 1 ;;
  pl <- py_index path (-1) ;;
  pl2 <- py_index path (-2) ;;
  start <- discontinuity_contribution (p0, p1) wave model ;;
  end_ <- discontinuity_contribution (pl, pl2) wave model ;;
  Ok (zipWith Rplus start end_).

Definition discontinuity_coefficients (arrival : Arrival) (model : TauModel)
  : res (list R) :=
  ' (paths, waves) <- split_ray_path arrival model ;;
  sigmas <- mapM (fun pw => segment_ends model (fst pw) (snd pw))
                 (combine paths waves) ;;
  sum_orders sigmas.

Definition individual_ellipticity_coefficients (arrival : Arrival)
    (model : model_arg) (lod : R) : res (list R) :=
  model <- match model with
           | TauPyModelObj m => Ok m
           | TauModelObj m => Ok m
           | OtherObj => Raise (TypeError "Velocity model not correct type")
           end ;;
  model <- match top_epsilon model with
           | None => model_epsilon model lod
           | Some _ => Ok model
           end ;;
  ray_sigma <- integral_coefficients arrival model ;;
  disc_sigma <- discontinuity_coefficients arrival model ;;
  mapM (fun m => r <- py_index ray_sigma m ;;
                 d <- py_index disc_sigma m ;;
                 Ok (r + d)) [0; 1; 2]%Z.

(** [ellipticity_coefficients]: one list of coefficients per arrival;
    [model=None] takes [arrivals.model]. *)
Definition ellipticity_coefficients (arrivals : list Arrival)
    (arrivals_model : model_arg) (model : option model_arg) (lod : R)
  : res (list (list R)) :=
  let model := match model with None => arrivals_model | Some m => m end in
  mapM (fun arr => individual_ellipticity_coefficients arr model lod) arrivals.

Definition correction_from_coefficients (coefficients : list R)
    (azimuth source_latitude : R) : res R :=
  let colatitude := radians (90 - source_latitude) in
  let azimuth := radians azimuth in
  terms <- mapM (fun m =>
                   c <- py_index coefficients m ;;
                   w <- weighted_alp2 m colatitude ;;
                   Ok (c * w * cos (IZR m * azimuth))) [0; 1; 2]%Z ;;
  Ok (Rsum terms).

End Ellipticipy.

(** * src/ellipticity/tools.py *)

(** ** String helpers for the phase name *)

(** [str.lower] on one character. *)
Definition lower (c : ascii) : ascii :=
  let n := nat_of_ascii c in
  if ((65 <=? n)%nat && (n <=? 90)%nat)%bool then ascii_of_nat (n + 32) else c.

(** [sub in s]. *)
Fixpoint contains (sub s : string) : bool :=
  (String.prefix sub s ||
   match s with
   | EmptyString => false
   | String _ s' => contains sub s'
   end)%bool.

(** [s.index(sub)], for a [sub] that occurs in [s]. *)
Fixpoint str_index (sub s : string) : Z :=
  if String.prefix sub s then 0%Z
  else match s with
       | EmptyString => 0%Z
       | String _ s' => (1 + str_index sub s')%Z
       end.

(** [s.replace(old, new)] for a non-empty [old]; [skip] counts the
    characters of a match still to be dropped. *)
Fixpoint replace_from (old new : string) (skip : nat) (s : string) : string :=
  match s with
  | EmptyString => EmptyString
  | String c s' =>
      match skip with
      | S k => replace_from old new k s'
      | O =>
          if String.prefix old s
          then String.append new (replace_from old new (String.length old - 1) s')
          else String c (replace_from old new 0 s')
      end
  end.

Definition replace (old new s : string) : string := replace_from old new 0 s.

(** [s[i]] as a one-character value. *)
Definition str_at (s : string) (i : Z) : res ascii :=
  py_index (list_ascii_of_string s) i.

(** ** Numeric helpers *)

(** [int(x)]: truncation towards zero. *)
Definition py_int (x : R) : Z :=
  if Rlt_bool x 0 then (- Int_part (- x))%Z else Int_part x.

(** Rounding to the nearest integer, ties to even. *)
Definition round_half_even (x : R) : Z :=
  let f := Int_part x in
  let d := x - IZR f in
  if Rlt_bool d (1 / 2) then f
  else if Rlt_bool (1 / 2) d then (f + 1)%Z
  else if Z.even f then f else (f + 1)%Z.

(** [round(x, 5)]. *)
Definition round5 (x : R) : R := IZR (round_half_even (x * 1e5)) / 1e5.

(** [np.linspace(0, stop, num)]. *)
Definition linspace0 (stop : R) (num : Z) : res (list R) :=
  if (num <? 0)%Z then Raise (ValueError "Number of samples must be non-negative")
  else if (num =? 1)%Z then Ok [0]
  else Ok (map (fun i => INR i * (stop / IZR (num - 1)))
               (seq 0 (Z.to_nat num))).

(** [np.searchsorted(radii, x, side="left")] on an increasing array. *)
Definition searchsorted_left (radii : list R) (x : R) : nat :=
  List.length (filter (fun r => Rlt_bool r x) radii).

(** [np.array(xs).argmin()]: the first index of the least element. *)
Fixpoint argmin_from (best : nat) (bestv : R) (i : nat) (xs : list R) : nat :=
  match xs with
  | [] => best
  | x :: xs' =>
      if Rlt_bool x bestv then argmin_from i x (S i) xs'
      else argmin_from best bestv (S i) xs'
  end.

Definition argmin (xs : list R) : res nat :=
  match xs with
  | [] => Raise (ValueError "attempt to get argmin of an empty sequence")
  | x :: xs' => Ok (argmin_from 0 x 1 xs')
  end.

(** [np.trapz(y, x=x)]. *)
Definition trapz_x (y x : list R) : R :=
  Rsum (zipWith Rmult (pairwise Rminus x)
          (pairwise (fun top bot => (top + bot) / 2.0) y)).

Module Ellipticity.

(** The model argument of the entry point. *)
Inductive model_arg : Type :=
| ModelName (s : string)
| TauPyModelObj (m : TauModel)
| OtherObj.

(** The arrival argument of the entry point: a TauP arrival or the list
    [[phase, distance, source_depth, index]]. *)
Inductive arrival_arg : Type :=
| ArrivalList (phase : string) (distance : R) (source_depth : R) (index : Z)
| ArrivalObj (a : Arrival).

(** [PhaseError(phase, vel_model).message] *)
Definition phase_error_message (phase vel_model : string) : string :=
  String.append "Phase "
    (String.append phase
       (String.append " does not arrive at specified distance in model "
          vel_model)).

Definition weighted_alp2 (m : Z) (theta : R) : res R :=
  let kronecker_0m := if (m =? 0)%Z then 1%Z else 0%Z in
  num <- factorial (2 - m) ;;
  den <- factorial (2 + m) ;;
  let norm := sqrt (IZR (2 - kronecker_0m) * (IZR num / IZR den)) in
  if (m =? 0)%Z then Ok (norm * 0.5 * (3.0 * cos theta ^ 2 - 1.0))
  else if (m =? 1)%Z then Ok (norm * 3.0 * cos theta * sin theta)
  else if (m =? 2)%Z then Ok (norm * 3.0 * sin theta ^ 2)
  else Raise (ValueError "Invalid value of m").

(** The arrays [r], [rho], [Mr] and [eta] of [model_epsilon]. *)
Definition sample_radii (model : TauModel) (dr : R) : res (list R) :=
  let a := radius_of_planet model * 1e3 in
  if Req_bool dr 0 then Raise ZeroDivisionError
  else linspace0 a (1 + py_int (a / dr)).

Definition densities (model : TauModel) (r : list R) : list R :=
  let a := radius_of_planet model * 1e3 in
  map (fun ri => evaluate_above model ((a - ri) / 1000.0) Dens * 1000.0)
      (removelast r)
  ++ [evaluate_below model 0.0 Dens * 1000.0].

Definition shell_mass (model : TauModel) (dr : R) (r : list R) : list R :=
  let rho := densities model r in
  map (fun c => 4 * PI * c)
      (cumtrapz (zipWith (fun rho_i r_i => rho_i * (r_i ^ 2) * dr) rho r)).

Definition radau (model : TauModel) (taper : bool) (dr : R) (r : list R)
  : list R :=
  let rho := densities model r in
  let Mr := shell_mass model dr r in
  let Ir := map (fun c => (8.0 / 3.0) * PI * c)
                (cumtrapz (zipWith (fun rho_i r_i => rho_i * (r_i ^ 4) * dr) rho r)) in
  let y := zipWith Rdiv Ir (zipWith (fun m ri => m * ri ^ 2) Mr (tl r)) in
  let y := if taper
           then map (fun yi => if Rlt_bool 0.4 yi then 0.4 else yi) y
           else y in
  map (fun yi => 6.25 * (1 - 3 * yi / 2) ^ 2 - 1) y.

(** [2 * np.pi / lod] and, in [sample_radii], [a / dr] divide two Python
    floats: a length of day or a grid step of zero raises
    ZeroDivisionError. *)
Definition model_epsilon (model : TauModel) (lod : R) (taper : bool) (dr : R)
  : res TauModel :=
  if Req_bool lod 0 then Raise ZeroDivisionError else
  let Omega := 2 * PI / lod in
  let a := radius_of_planet model * 1e3 in
  r <- sample_radii model dr ;;
  let Mr := shell_mass model dr r in
  M <- last_elt Mr ;;
  let eta := radau model taper dr r in
  let ha := (a ^ 3 * Omega ^ 2) / (G * M) in
  eta_a <- last_elt eta ;;
  let epsilona := (5 * ha) / (2 * eta_a + 4) in
  let epsilon :=
    map exp (cumtrapz_initial (zipWith (fun e ri => dr * e / ri) eta (tl r))) in
  epsilon_last <- last_elt epsilon ;;
  let epsilon := map (fun e => epsilona * e / epsilon_last) epsilon in
  epsilon_0 <- py_index epsilon 0 ;;
  let epsilon := epsilon_0 :: epsilon in
  Ok (set_radial_epsilon model r epsilon).

Definition get_epsilon (model : TauModel) (radius : R) : res R :=
  epsilon <- attr (epsilon model) ;;
  radii <- attr (epsilon_r model) ;;
  let idx := searchsorted_left radii radius in
  if (0 <? idx)%nat then
    if (idx =? List.length radii)%nat
    then py_index epsilon (Z.of_nat idx - 1)
    else
      lo <- py_index radii (Z.of_nat idx - 1) ;;
      hi <- py_index radii (Z.of_nat idx) ;;
      if Rlt_bool (Rabs (radius - lo)) (Rabs (radius - hi))
      then py_index epsilon (Z.of_nat idx - 1)
      else py_index epsilon (Z.of_nat idx)
  else py_index epsilon (Z.of_nat idx).

(** [vel_model_name.split("'")[1]] when the name has a quote in it, the
    name itself otherwise. *)
Definition vel_model_of_name (vel_model_name : string) : string :=
  if contains "'" vel_model_name then
    let after := String.substring
                   (Z.to_nat (str_index "'" vel_model_name) + 1)
                   (String.length vel_model_name) vel_model_name in
    if contains "'" after
    then String.substring 0 (Z.to_nat (str_index "'" after)) after
    else after
  else vel_model_name.

Definition get_taup_arrival (phase : string) (distance source_depth : R)
    (arrival_index : Z) (model : TauModel) : res Arrival :=
  let arrivals := get_ray_paths model source_depth distance phase in
  let arrivals :=
    filter (fun x => Rlt_bool (Rabs (purist_distance x - distance)) 0.0001)
           arrivals in
  if (List.length arrivals =? 0)%nat then
    let vel_model := vel_model_of_name (model_name model) in
    Raise (PhaseError (phase_error_message phase vel_model))
  else py_index arrivals arrival_index.

Definition get_correct_taup_arrival (arrival : Arrival) (model : TauModel)
    (extra_distance : R) : res Arrival :=
  let new_arrivals :=
    get_ray_paths model (source_depth arrival)
                  (distance arrival + extra_distance) (name arrival) in
  index <- argmin (map (fun x => Rabs (ray_param x - ray_param arrival))
                       new_arrivals) ;;
  py_index new_arrivals (Z.of_nat index).

(** [centre_of_planet_coefficients]; [coefficients] stands for the call
    back into [ellipticity_coefficients(arrival, model)]. *)
Definition centre_of_planet_coefficients
    (coefficients : Arrival -> TauModel -> res (list np64))
    (arrival : Arrival) (model : TauModel) : res (list np64) :=
  arrival1 <- get_correct_taup_arrival arrival model (-0.05) ;;
  arrival2 <- get_correct_taup_arrival arrival model (-0.10) ;;
  coeffs1 <- coefficients arrival1 model ;;
  coeffs2 <- coefficients arrival2 model ;;
  mapM (fun i =>
          c1 <- py_index coeffs1 (Z.of_nat i) ;;
          let num := distance arrival - distance arrival1 in
          let den := distance arrival2 - distance arrival1 in
          if Req_bool den 0 then Raise ZeroDivisionError
          else
            c2 <- py_index coeffs2 (Z.of_nat i) ;;
            c1' <- py_index coeffs1 (Z.of_nat i) ;;
            Ok (np_add c1 (np_mul (Fin (num / den)) (np_sub c2 c1'))))
       (seq 0 (List.length coeffs1)).

(** The velocity model asked for a wave letter. *)
Definition wave_prop (wave : ascii) : res prop :=
  match prop_of_ascii (lower wave) with
  | Some pr => Ok pr
  | None => Raise (ValueError "Unknown material property, use p, s, or d.")
  end.

Definition eval_below (model : TauModel) (depth : R) (wave : ascii) : res R :=
  pr <- wave_prop wave ;; Ok (evaluate_below model depth pr).

Definition eval_above (model : TauModel) (depth : R) (wave : ascii) : res R :=
  pr <- wave_prop wave ;; Ok (evaluate_above model depth pr).

Definition get_dvdr_below (model : TauModel) (radius : R) (wave : ascii)
  : res R :=
  let Re := radius_of_planet model in
  pr <- wave_prop wave ;;
  s <- evaluate_derivative_below model (Re - radius / 1e3) pr ;;
  Ok (- s).

Definition get_dvdr_above (model : TauModel) (radius : R) (wave : ascii)
  : res R :=
  let Re := radius_of_planet model in
  pr <- wave_prop wave ;;
  s <- evaluate_derivative_above model (Re - radius / 1e3) pr ;;
  Ok (- s).

(** [max([x[3] for x in arrival.path])] *)
Definition bottoming_depth (pts : list PathPoint) : res R :=
  match pts with
  | [] => Raise (ValueError "max() arg is an empty sequence")
  | _ => Ok (Rmax_list (map pt_depth pts))
  end.

(** The phase name turned into one wave letter per leg. *)
Definition phase_segments (phase_name : string) : res string :=
  segments <-
    (if contains "diff" phase_name
     then c <- str_at phase_name (str_index "diff" phase_name - 1) ;;
          Ok (replace "diff" (String c EmptyString) phase_name)
     else Ok phase_name) ;;
  Ok (replace "J" "S"
        (replace "I" "P"
           (replace "K" "P"
              (replace "i" "" (replace "c" "" segments))))).

(** Body of the first loop of [ray_path]: the wave letter of point [i]. *)
Definition wave_step (segments : string) (pts : list PathPoint)
    (model : TauModel) (st : Z * list ascii) (ip : nat * PathPoint)
  : res (Z * list ascii) :=
  let n := Z.of_nat (List.length pts) in
  let '(letter, waves) := st in
  let '(i, pathi) := ip in
  turn <-
    (if (negb (i =? 0)%nat && negb (Z.of_nat i =? n - 1)%Z
         && R_in (pt_depth pathi) [0.0; cmb_depth model; iocb_depth model])%bool
     then prev <- py_index pts (Z.of_nat i - 1) ;;
          Ok (negb (Req_bool (pt_depth pathi) (pt_depth prev)))
     else Ok false) ;;
  let letter := if turn then (letter + 1)%Z else letter in
  c <- str_at segments letter ;;
  Ok (letter, waves ++ [lower c]).

(** First loop of [ray_path]: the wave letter of every path point. *)
Definition path_waves (phase_name : string) (pts : list PathPoint)
    (model : TauModel) : res (list ascii) :=
  segments <- phase_segments phase_name ;;
  ' (_, waves) <- foldM (wave_step segments pts model) (enumerate pts)
                        (0%Z, []) ;;
  Ok waves.

(** The dicts [paths] and [wave] of [ray_path] are keyed by [count],
    which runs through 0, 1, 2, ...: a dict is the list of its values in
    key order. *)
Definition dict_append {A : Type} (d : list (list A)) (k : Z) (x : A)
  : res (list (list A)) :=
  if ((k <? 0)%Z || (Z.of_nat (List.length d) <=? k)%Z)%bool then Raise KeyError
  else Ok (firstn (Z.to_nat k) d
           ++ match skipn (Z.to_nat k) d with
              | [] => []
              | v :: rest => (v ++ [x]) :: rest
              end).

(** The condition under which [ray_path] opens a new segment at point
    [i] of [n]. *)
Definition opens_segment (discs : list R) (bot_dep : R) (n : Z) (i : nat)
    (pathi : PathPoint) : bool :=
  (((i =? 0)%nat || R_in (pt_depth pathi) discs
    || Req_bool (pt_depth pathi) bot_dep)
   && negb (Z.of_nat i =? n - 1)%Z)%bool.

(** Body of the second loop of [ray_path]. *)
Definition segment_step (discs : list R) (bot_dep : R) (n : Z)
    (waves : list ascii)
    (st : Z * list (list PathPoint) * list (list ascii))
    (ip : nat * PathPoint)
  : res (Z * list (list PathPoint) * list (list ascii)) :=
  let '(count, paths, wave) := st in
  let '(i, pathi) := ip in
  ' (count, paths, wave) <-
    (if opens_segment discs bot_dep n i pathi then
       let count := (count + 1)%Z in
       let paths := paths ++ [[]] in
       let wave := wave ++ [[]] in
       if negb (count =? 0)%Z then
         paths <- dict_append paths (count - 1) pathi ;;
         wprev <- py_index waves (Z.of_nat i - 1) ;;
         wave <- dict_append wave (count - 1) wprev ;;
         Ok (count, paths, wave)
       else Ok (count, paths, wave)
     else Ok (count, paths, wave)) ;;
  paths <- dict_append paths count pathi ;;
  wi <- py_index waves (Z.of_nat i) ;;
  wave <- dict_append wave count wi ;;
  Ok (count, paths, wave).

Definition ray_path (arrival : Arrival) (model : TauModel)
  : res (list (list PathPoint) * list (list ascii)) :=
  pts <- attr (path arrival) ;;
  bot_dep <- bottoming_depth pts ;;
  let discs := removelast (get_discontinuity_depths model) in
  waves <- path_waves (name arrival) pts model ;;
  let n := Z.of_nat (List.length pts) in
  ' (_, paths, wave) <-
    foldM (segment_step discs bot_dep n waves) (enumerate pts)
          ((-1)%Z, [], []) ;;
  Ok (paths, wave).

(** The body of the loop of [integral_coefficients] for one segment.
    [r / v] and the division by the ray parameter are quotients of reals:
    they are exact where the velocity and the ray parameter are not
    zero. *)
Definition segment_integral (arrival : Arrival) (model : TauModel)
    (path : list PathPoint) (wave_path : list ascii) : res (list R) :=
  let Re := radius_of_planet model in
  let p := ray_param arrival in
  let dep := map (fun x => pt_depth x * 1e3) path in
  let dep := map (fun d => if Req_bool d (Re * 1e3) then Re * 1e3 - 1 else d)
                 dep in
  let r := map (fun d => Re * 1e3 - d) dep in
  let max_dep := Rmax_list dep in
  v <- mapM (fun id : nat * R =>
               let '(i, d) := id in
               w <- py_index wave_path (Z.of_nat i) ;;
               if negb (Req_bool d max_dep)
               then x <- eval_below model (d / 1e3) w ;; Ok (x * 1e3)
               else x <- eval_above model (d / 1e3) w ;; Ok (x * 1e3))
            (enumerate dep) ;;
  dvdr <- mapM (fun dr : R * R =>
                  let '(d, ri) := dr in
                  w0 <- py_index wave_path 0 ;;
                  if negb (Req_bool d max_dep)
                  then get_dvdr_below model ri w0
                  else get_dvdr_above model ri w0)
               (combine dep r) ;;
  let eta := zipWith Rdiv r v in
  epsilon <- mapM (get_epsilon model) r ;;
  let dist := map pt_dist path in
  lamda <- mapM (fun m =>
                   ws <- mapM (weighted_alp2 m) dist ;;
                   Ok (map (fun w => (-1.0) * (2.0 / 3.0) * w) ws))
                [0; 1; 2]%Z ;;
  mapM (fun m =>
          lam_m <- py_index lamda m ;;
          let f := zipWith Rmult
                     (zipWith Rmult
                        (zipWith Rmult (map (fun e => e ^ 3) eta) dvdr)
                        epsilon)
                     lam_m in
          Ok (trapz_x f dist / p))
       [0; 1; 2]%Z.

(** [[np.sum([seg_ray_sigma[x][m] ...]) for m in [0, 1, 2]]] *)
Definition sum_orders (sigmas : list (list R)) : res (list R) :=
  mapM (fun m => col <- mapM (fun s => py_index s m) sigmas ;; Ok (Rsum col))
       [0; 1; 2]%Z.

Definition integral_coefficients (arrival : Arrival) (model : TauModel)
    (paths : list (list PathPoint)) (wave_paths : list (list ascii))
  : res (list R) :=
  seg_ray_sigma <-
    mapM (fun pw => segment_integral arrival model (fst pw) (snd pw))
         (combine paths wave_paths) ;;
  sum_orders seg_ray_sigma.

(** One entry of [idiscs]. *)
Record idisc : Type := {
  ind : Z;
  order : nat;
  dep : R;
  r : R;
  dist : R;
  p : R
}.

Inductive direction : Type := Down | DiffDir | Up.

Definition direction_eqb (a b : direction) : bool :=
  match a, b with
  | Down, Down | DiffDir, DiffDir | Up, Up => true
  | _, _ => false
  end.

Inductive interaction : Type := Trans | DiffType | Refl.

Definition direction_of (before after : R) : direction :=
  if Rlt_bool before after then Down
  else if Req_bool before after then DiffDir
  else Up.

Definition interaction_of (pre post : direction) : interaction :=
  if direction_eqb pre post then Trans
  else if (direction_eqb pre DiffDir || direction_eqb post DiffDir)%bool
       then DiffType
       else Refl.

(** [idisc["yn"]]: whether entry [d] of [idiscs] enters the sum. *)
Definition summed (arrival : Arrival) (model : TauModel) (discs : list R)
    (d : nat) (i : idisc) : bool :=
  if (contains "diff" (name arrival)
      && Req_bool (dep i) (cmb_depth model * 1e3))%bool
  then false
  else if (R_in (round5 (dep i * 1e-3)) discs || (d =? 0)%nat)%bool
       then true
       else false.

(** [np.sqrt(idisc["eta"] ** 2 - idisc["p"] ** 2)] *)
Definition root (eta p : R) : np64 := np_sqrt (eta ^ 2 - p ^ 2).

(** The branches of the loop body that assign [eva]; [None] when none of
    them runs, so that [eva] keeps whatever an earlier iteration left. *)
Definition assigned_eva (arrival : Arrival) (model : TauModel)
    (pts : list PathPoint) (wave_paths : list (list ascii))
    (d : nat) (i : idisc) : res (option np64) :=
  let n := Z.of_nat (List.length pts) in
  if (negb (Req_bool (dep i) 0.0) && negb (ind i =? 0)%Z)%bool then
    pt0 <- py_index pts (ind i - 1) ;;
    pt1 <- py_index pts (ind i) ;;
    pt2 <- py_index pts (ind i + 1) ;;
    let pre := direction_of (pt_depth pt0) (pt_depth pt1) in
    let post := direction_of (pt_depth pt1) (pt_depth pt2) in
    let type := interaction_of pre post in
    w_pre <- py_index wave_paths (Z.of_nat d - 1) ;;
    ph_pre <- py_index w_pre (-1) ;;
    w_post <- py_index wave_paths (Z.of_nat d) ;;
    ph_post <- py_index w_post 0 ;;
    match type with
    | Trans =>
        ' (ph_above, ph_below) <-
          match pre with
          | Down => Ok (ph_pre, ph_post)
          | Up => Ok (ph_post, ph_pre)
          | DiffDir => Raise KeyError
          end ;;
        v0 <- eval_above model (dep i / 1e3) ph_above ;;
        v1 <- eval_below model (dep i / 1e3) ph_below ;;
        let eta0 := r i / (v0 * 1e3) in
        let eta1 := r i / (v1 * 1e3) in
        Ok (Some (np_mul (Fin (-1.0)) (np_sub (root eta0 (p i)) (root eta1 (p i)))))
    | Refl =>
        match pre with
        | Up =>
            v0 <- eval_below model (dep i / 1e3) ph_pre ;;
            v1 <- eval_below model (dep i / 1e3) ph_post ;;
            let eta0 := r i / (v0 * 1e3) in
            let eta1 := r i / (v1 * 1e3) in
            Ok (Some (np_add (root eta0 (p i)) (root eta1 (p i))))
        | Down =>
            v0 <- eval_above model (dep i / 1e3) ph_pre ;;
            v1 <- eval_above model (dep i / 1e3) ph_post ;;
            let eta0 := r i / (v0 * 1e3) in
            let eta1 := r i / (v1 * 1e3) in
            Ok (Some (np_mul (Fin (-1))
                        (np_add (root eta0 (p i)) (root eta1 (p i)))))
        | DiffDir => Ok None
        end
    | DiffType => Ok None
    end
  else if ((ind i =? 0)%Z || (ind i =? n - 1)%Z)%bool then
    wave <- (if (ind i =? 0)%Z
             then w <- py_index wave_paths 0 ;; py_index w 0
             else w <- py_index wave_paths (-1) ;; py_index w (-1)) ;;
    c0 <- str_at (name arrival) 0 ;;
    if ((Ascii.eqb c0 "p" || Ascii.eqb c0 "s") && (ind i =? 0)%Z)%bool then
      v1 <- eval_above model (dep i / 1e3) wave ;;
      let eta1 := r i / (v1 * 1e3) in
      Ok (Some (np_mul (Fin (-1.0)) (root eta1 (p i))))
    else
      v1 <- eval_below model (dep i / 1e3) wave ;;
      let eta1 := r i / (v1 * 1e3) in
      Ok (Some (np_mul (Fin (-1.0)) (np_sub (Fin 0) (root eta1 (p i)))))
  else if Req_bool (dep i) 0.0 then
    w_pre <- py_index wave_paths (Z.of_nat d - 1) ;;
    ph_pre <- py_index w_pre (-1) ;;
    w_post <- py_index wave_paths (Z.of_nat d) ;;
    ph_post <- py_index w_post 0 ;;
    v0 <- eval_below model (dep i / 1e3) ph_pre ;;
    v1 <- eval_below model (dep i / 1e3) ph_post ;;
    let eta0 := r i / (v0 * 1e3) in
    let eta1 := r i / (v1 * 1e3) in
    Ok (Some (np_add (root eta0 (p i)) (root eta1 (p i))))
  else Ok None.

(** [idisc["sigma"]] of a summed entry, and the value of [eva] it leaves
    behind.  [eva] is read inside the list comprehension of line 815, in
    a scope of its own: when no branch has assigned it, Python 3.11 raises
    NameError there, not its subclass UnboundLocalError. *)
Definition idisc_sigma (arrival : Arrival) (model : TauModel)
    (pts : list PathPoint) (wave_paths : list (list ascii))
    (eva : option np64) (d : nat) (i : idisc)
  : res (option np64 * list np64) :=
  epsilon <- get_epsilon model (r i) ;;
  lambda <- mapM (fun m => w <- weighted_alp2 m (dist i) ;;
                           Ok ((-1.0) * (2.0 / 3.0) * w)) [0; 1; 2]%Z ;;
  let extra := map (fun l => epsilon * l) lambda in
  new <- assigned_eva arrival model pts wave_paths d i ;;
  let eva := match new with Some e => Some e | None => eva end in
  match eva with
  | None => Raise NameError
  | Some e => Ok (Some e, map (fun x => np_mul (Fin x) e) extra)
  end.

(** The list [ids] and the records [idiscs] built from it. *)
Definition interacting_points (arrival : Arrival) (model : TauModel)
    (pts : list PathPoint) : res (list idisc) :=
  let Re := radius_of_planet model in
  bot_dep <- bottoming_depth pts ;;
  let discs := removelast (get_discontinuity_depths model) in
  first <- py_index pts 0 ;;
  let assess_discs :=
    if Req_bool bot_dep (pt_depth first) then discs else discs ++ [bot_dep] in
  let ids :=
    map (fun ip : nat * PathPoint =>
           (Z.of_nat (fst ip), pt_depth (snd ip), pt_dist (snd ip)))
        (filter (fun ip : nat * PathPoint => R_in (pt_depth (snd ip)) assess_discs)
                (enumerate pts)) in
  id0 <- py_index ids 0 ;;
  let ids :=
    if negb (Req_bool (source_depth arrival) 0
             || Req_bool (source_depth arrival) (snd (fst id0)))%bool
    then (0%Z, source_depth arrival, 0) :: ids
    else ids in
  Ok (map (fun oi : nat * (Z * R * R) =>
             let '(o, (i, depth, dist)) := oi in
             {| ind := i; order := o; dep := depth * 1e3;
                r := (Re - depth) * 1e3; dist := dist;
                p := pt_p first |})
          (enumerate ids)).

(** One summed entry: its [sigma] joins those gathered so far. *)
Definition boundary_step (arrival : Arrival) (model : TauModel)
    (pts : list PathPoint) (wave_paths : list (list ascii))
    (st : option np64 * list (list np64)) (di : nat * idisc)
  : res (option np64 * list (list np64)) :=
  ' (eva, sigma) <-
    idisc_sigma arrival model pts wave_paths (fst st) (fst di) (snd di) ;;
  Ok (eva, snd st ++ [sigma]).

(** [[np.sum([idisc["sigma"][x] for idisc in idiscs if idisc["yn"]])
      for x in [0, 1, 2]]] *)
Definition sum_sigmas (sigmas : list (list np64)) : res (list np64) :=
  mapM (fun x => col <- mapM (fun s => py_index s x) sigmas ;;
                 Ok (np_sum col)) [0; 1; 2]%Z.

Definition discontinuity_coefficients (arrival : Arrival) (model : TauModel)
    (paths : list (list PathPoint)) (wave_paths : list (list ascii))
  : res (list np64) :=
  pts <- attr (path arrival) ;;
  let discs := removelast (get_discontinuity_depths model) in
  idiscs <- interacting_points arrival model pts ;;
  ' (_, sigmas) <-
    foldM (fun (st : option np64 * list (list np64)) (di : nat * idisc) =>
             if summed arrival model discs (fst di) (snd di)
             then boundary_step arrival model pts wave_paths st di
             else Ok st)
          (enumerate idiscs) (None, []) ;;
  sum_sigmas sigmas.

Section Entry.

(** [TauPyModel(model=name)]: ObsPy building a model from its name. *)
Variable TauPyModel : string -> res TauModel.

(** The part of [ellipticity_coefficients] that follows the choice of
    the arrival: the ray away from the centre of the planet. *)
Definition direct_coefficients (arrival : Arrival) (model : TauModel)
  : res (list np64) :=
  ' (paths, wave_paths) <- ray_path arrival model ;;
  ray_sigma <- integral_coefficients arrival model paths wave_paths ;;
  disc_sigma <- discontinuity_coefficients arrival model paths wave_paths ;;
  mapM (fun x => rs <- py_index ray_sigma x ;;
                 ds <- py_index disc_sigma x ;;
                 Ok (np_add (Fin rs) ds)) [0; 1; 2]%Z.

(** [ellipticity_coefficients]; [fuel] bounds the depth of the recursion
    through [centre_of_planet_coefficients], as Python's recursion limit
    does. *)
Fixpoint ellipticity_coefficients (fuel : nat) (arrival : arrival_arg)
    (model : model_arg) (lod : R) : res (list np64) :=
  match fuel with
  | O => Raise RecursionError
  | S fuel' =>
      model <- match model with
               | ModelName s => TauPyModel s
               | TauPyModelObj m => Ok m
               | OtherObj => Raise (TypeError "Velocity model not correct type")
               end ;;
      model <- match epsilon model with
               | None => model_epsilon model lod true 100
               | Some _ => Ok model
               end ;;
      arrival <-
        match arrival with
        | ArrivalList phase distance source_depth index =>
            get_taup_arrival phase distance source_depth index model
        | ArrivalObj a =>
            match path a with
            | None => get_correct_taup_arrival a model 0.0
            | Some _ => Ok a
            end
        end ;;
      arrival <- (if Req_bool (distance arrival) 0.0
                  then get_correct_taup_arrival arrival model 1e-10
                  else Ok arrival) ;;
      pts <- attr (path arrival) ;;
      bot_dep <- bottoming_depth pts ;;
      if Rlt_bool ((radius_of_planet model - bot_dep) * 1e3) 50
      then centre_of_planet_coefficients
             (fun a m =>
                ellipticity_coefficients fuel' (ArrivalObj a)
                                         (TauPyModelObj m) EARTH_LOD)
             arrival model
      else direct_coefficients arrival model
  end.

(** The velocity model as [ellipticity_coefficients] leaves it: with the
    epsilon profile cached on it. *)
Definition model_after (model : TauModel) (lod : R) : res TauModel :=
  match epsilon model with
  | None => model_epsilon model lod true 100
  | Some _ => Ok model
  end.

End Entry.

End Ellipticity.

(** * A one-layer test planet

    A planet of radius 1 km with unit velocities and densities, whose
    surface is its only discontinuity, and a ray tracer that answers
    every request with one upgoing two-point ray from 100 m depth.  The
    statements below are evaluated on it. *)

Module Toy.

Definition layer0 : Layer :=
  {| top_depth := 0; bot_depth := 1;
     top_p_velocity := 1; bot_p_velocity := 1;
     top_s_velocity := 1; bot_s_velocity := 1;
     top_density := 1; bot_density := 1 |}.

Definition point (p time depth : R) : PathPoint :=
  {| pt_p := p; pt_time := time; pt_dist := 0; pt_depth := depth |}.

(** An upgoing ray from [depth] km to the surface. *)
Definition upgoing (depth dist p : R) : Arrival :=
  {| name := "p"; distance := dist; purist_distance := dist;
     ray_param := p; source_depth := depth;
     path := Some [point p 0 depth; point p 1 0] |}.

Definition tracer (source_depth dist : R) (phase : string) : list Arrival :=
  [upgoing 0.1 dist (if Rlt_bool dist 179.93 then 0.8 else 0.6)].

Definition no_arrival (source_depth dist : R) (phase : string)
  : list Arrival := [].

Definition planet_of (discontinuities : list R)
    (trace : R -> R -> string -> list Arrival) : TauModel :=
  {| radius_of_planet := 1;
     cmb_depth := 0.5;
     iocb_depth := 0.8;
     layers := [layer0];
     get_discontinuity_depths := discontinuities;
     evaluate_above := fun _ _ => 1;
     evaluate_below := fun _ _ => 1;
     layer_number_above := fun _ => 0%nat;
     layer_number_below := fun _ => 0%nat;
     model_name := "toy";
     get_ray_paths := trace;
     top_epsilon := Some [1];
     bot_epsilon := Some [1];
     epsilon_r := Some [0; 950; 1000];
     epsilon := Some [0; 0; 1] |}.

(** The surface is the only discontinuity. *)
Definition planet_with (trace : R -> R -> string -> list Arrival) : TauModel :=
  planet_of [0; 1] trace.

Definition planet : TauModel := planet_with tracer.

(** The same planet with a core-mantle boundary at 500 m depth. *)
Definition cored_planet : TauModel := planet_of [0; 0.5; 1] tracer.

(** A ray that goes down to 300 m depth and comes back up. *)
Definition down_and_up (p : R) : Arrival :=
  {| name := "P"; distance := 10; purist_distance := 10;
     ray_param := p; source_depth := 0;
     path := Some [point p 0 0; point p 1 0.3; point p 2 0] |}.

(** A ray that runs along the core-mantle boundary of [cored_planet]. *)
Definition diffracted (p : R) : Arrival :=
  {| name := "Pdiff"; distance := 100; purist_distance := 100;
     ray_param := p; source_depth := 0;
     path := Some [point p 0 0; point p 1 0.5; point p 2 0.5;
                   point p 3 0] |}.

(** A ray that starts at the centre of the planet. *)
Definition through_centre : Arrival := upgoing 1 180 0.6.

(** No model can be loaded by name. *)
Definition no_loader (s : string) : res TauModel :=
  Raise (ValueError "unknown model").

End Toy.

(** The last element of a list, if any. *)
Definition last_error {A : Type} (l : list A) : option A :=
  match l with
  | [] => None
  | x :: l' => Some (last l' x)
  end.

(** * The words of the specification

    Definitions that follow the specification's sentences, to be compared
    with the code above. *)

Module Spec.

(** "vertical slowness eta = sqrt(max(0, (r/v)^2 - p^2))" *)
Definition vertical_slowness (r v p : R) : R :=
  sqrt (Rmax 0 ((r / v) ^ 2 - p ^ 2)).


(** A path cut at its boundary points, every boundary point closing one
    segment and opening the next; the last point closes the last
    segment.  [cur] is the segment being filled. *)
Fixpoint cut_shared {A : Type} (boundary : A -> bool) (cur rest : list A)
  : list (list A) :=
  match rest with
  | [] => [cur]
  | x :: rest' =>
      match rest' with
      | [] => [cur ++ [x]]
      | _ :: _ =>
          if boundary x
          then (cur ++ [x]) :: cut_shared boundary [x] rest'
          else cut_shared boundary (cur ++ [x]) rest'
      end
  end.

Definition segments {A : Type} (boundary : A -> bool) (pts : list A)
  : list (list A) :=
  match pts with
  | [] => []
  | x :: rest => cut_shared boundary [x] rest
  end.

(** The same cut, but what follows the last boundary point is dropped. *)
Fixpoint cut_closed {A : Type} (boundary : A -> bool) (cur rest : list A)
  : list (list A) :=
  match rest with
  | [] => []
  | x :: rest' =>
      if boundary x
      then (cur ++ [x]) :: cut_closed boundary [x] rest'
      else cut_closed boundary (cur ++ [x]) rest'
  end.

Definition closed_segments {A : Type} (boundary : A -> bool) (pts : list A)
  : list (list A) :=
  match pts with
  | [] => []
  | x :: rest => cut_closed boundary [x] rest
  end.

(** Neighbouring segments share their boundary point. *)
Fixpoint joined {A : Type} (segs : list (list A)) : Prop :=
  match segs with
  | s :: ((s' :: _) as rest) =>
      (exists x, last_error s = Some x /\ hd_error s' = Some x) /\ joined rest
  | _ => True
  end.

(** The points of a segment other than its first and last. *)
Definition interior {A : Type} (s : list A) : list A := removelast (tl s).

(** Segments glued back together, each shared point taken once. *)
Definition glue {A : Type} (segs : list (list A)) : list A :=
  match segs with
  | [] => []
  | s :: rest => s ++ flat_map (@tl A) rest
  end.

End Spec.

(** * The material property by name *)

(** [prop.lower()] on a whole string. *)
Fixpoint str_lower (s : string) : string :=
  match s with
  | EmptyString => EmptyString
  | String c s' => String (lower c) (str_lower s')
  end.

(** [evaluate_derivative_at] on the name of the property, as both files
    have it: the name is lower-cased, compared with ["p"] and ["s"], and
    then looked for inside ["rd"]. *)
Definition evaluate_derivative_at_name (layer : Layer) (prop : string) : res R :=
  let thick := bot_depth layer - top_depth layer in
  let prop := str_lower prop in
  if String.eqb prop "p"
  then Ok ((bot_p_velocity layer - top_p_velocity layer) / thick)
  else if String.eqb prop "s"
  then Ok ((bot_s_velocity layer - top_s_velocity layer) / thick)
  else if contains prop "rd"
  then Ok ((bot_density layer - top_density layer) / thick)
  else Raise (ValueError "Unknown material property, use p, s, or d.").

(** * A two-layer test planet

    The planet of [Toy] cut into a mantle and a core at 500 m depth, with
    no ellipticity profile stored on it yet. *)

Module Sample.

Definition mantle : Layer :=
  {| top_depth := 0; bot_depth := 0.5;
     top_p_velocity := 1; bot_p_velocity := 1;
     top_s_velocity := 1; bot_s_velocity := 1;
     top_density := 1; bot_density := 1 |}.

Definition core : Layer :=
  {| top_depth := 0.5; bot_depth := 1;
     top_p_velocity := 1; bot_p_velocity := 1;
     top_s_velocity := 1; bot_s_velocity := 1;
     top_density := 1; bot_density := 1 |}.

Definition layered_planet : TauModel :=
  {| radius_of_planet := 1;
     cmb_depth := 0.5;
     iocb_depth := 0.8;
     layers := [mantle; core];
     get_discontinuity_depths := [0; 0.5; 1];
     evaluate_above := fun _ _ => 1;
     evaluate_below := fun _ _ => 1;
     layer_number_above := fun d => if Rle_bool d 0.5 then 0%nat else 1%nat;
     layer_number_below := fun d => if Rlt_bool d 0.5 then 0%nat else 1%nat;
     model_name := "layered";
     get_ray_paths := Toy.tracer;
     top_epsilon := None;
     bot_epsilon := None;
     epsilon_r := None;
     epsilon := None |}.

(** The planet of [Toy] as a fluid: no shear velocity anywhere. *)
Definition fluid_planet : TauModel :=
  {| radius_of_planet := 1;
     cmb_depth := 0.5;
     iocb_depth := 0.8;
     layers := [Toy.layer0];
     get_discontinuity_depths := [0; 1];
     evaluate_above := fun _ pr => match pr with SVel => 0 | _ => 1 end;
     evaluate_below := fun _ pr => match pr with SVel => 0 | _ => 1 end;
     layer_number_above := fun _ => 0%nat;
     layer_number_below := fun _ => 0%nat;
     model_name := "fluid";
     get_ray_paths := Toy.tracer;
     top_epsilon := Some [1];
     bot_epsilon := Some [1];
     epsilon_r := Some [0; 950; 1000];
     epsilon := Some [0; 0; 1] |}.

(** An arrival of the phase [phase] at 10 degrees with the given ray
    path. *)
Definition arrival_with (phase : string) (pts : option (list PathPoint))
  : Arrival :=
  {| name := phase; distance := 10; purist_distance := 10;
     ray_param := 0.6; source_depth := 0; path := pts |}.

(** A ray tracer whose every ray starts at the centre of the planet. *)
Definition centre_tracer (source_depth dist : R) (phase : string)
  : list Arrival :=
  [Toy.upgoing 1 dist 0.6].

End Sample.

(** * Segments that [split_ray_path] removes

    A candidate segment runs level when the two points [classify_path]
    compares have the same depth; such a segment is tagged "diff". *)
Definition level_segment (s : list PathPoint) : bool :=
  match Ellipticipy.compared_points s with
  | Ok (point0, point1) => Req_bool (pt_depth point0) (pt_depth point1)
  | Raise _ => false
  end.

(** * Properties *)

(** ** Deciding comparisons between float constants *)

Lemma Req_bool_true x y : x = y -> Req_bool x y = true.
Proof. intros; unfold Req_bool; destruct (Req_dec_T x y); congruence. Qed.

Lemma Req_bool_false x y : x <> y -> Req_bool x y = false.
Proof. intros; unfold Req_bool; destruct (Req_dec_T x y); congruence. Qed.

Lemma Rlt_bool_true x y : x < y -> Rlt_bool x y = true.
Proof. intros; unfold Rlt_bool; destruct (Rlt_dec x y); tauto. Qed.

Lemma Rlt_bool_false x y : y <= x -> Rlt_bool x y = false.
Proof. intros; unfold Rlt_bool; destruct (Rlt_dec x y); auto; lra. Qed.

Lemma Rle_bool_true x y : x <= y -> Rle_bool x y = true.
Proof. intros; unfold Rle_bool; destruct (Rle_dec x y); tauto. Qed.

Lemma Rle_bool_false x y : y < x -> Rle_bool x y = false.
Proof. intros; unfold Rle_bool; destruct (Rle_dec x y); auto; lra. Qed.

Lemma Req_bool_spec x y : reflect (x = y) (Req_bool x y).
Proof. unfold Req_bool; destruct (Req_dec_T x y); constructor; assumption. Qed.

Lemma Rlt_bool_spec x y : reflect (x < y) (Rlt_bool x y).
Proof. unfold Rlt_bool; destruct (Rlt_dec x y); constructor; assumption. Qed.

Lemma Rle_bool_spec x y : reflect (x <= y) (Rle_bool x y).
Proof. unfold Rle_bool; destruct (Rle_dec x y); constructor; assumption. Qed.

Ltac decide_R :=
  repeat match goal with
  | |- context [Req_bool ?a ?b] =>
      first [ rewrite (Req_bool_true a b) by lra
            | rewrite (Req_bool_false a b) by lra ]
  | |- context [Rlt_bool ?a ?b] =>
      first [ rewrite (Rlt_bool_true a b) by lra
            | rewrite (Rlt_bool_false a b) by lra ]
  | |- context [Rle_bool ?a ?b] =>
      first [ rewrite (Rle_bool_true a b) by lra
            | rewrite (Rle_bool_false a b) by lra ]
  | |- context [Rmax ?a ?b] =>
      first [ rewrite (Rmax_left a b) by lra
            | rewrite (Rmax_right a b) by lra ]
  end.

(** ** Indexing *)

Lemma py_index_nat {A} (l : list A) (i : nat) x :
  nth_error l i = Some x -> py_index l (Z.of_nat i) = Ok x.
Proof.
  intros H. unfold py_index. cbv zeta.
  assert (Hlt : (i < List.length l)%nat) by (apply nth_error_Some; congruence).
  assert (E1 : (Z.of_nat i <? 0)%Z = false) by (apply Z.ltb_ge; lia).
  assert (E2 : (Z.of_nat (List.length l) <=? Z.of_nat i)%Z = false)
    by (apply Z.leb_gt; lia).
  rewrite !E1, E2. cbn [orb]. rewrite Nat2Z.id, H. reflexivity.
Qed.

Lemma py_index_0 {A} (a : A) l : py_index (a :: l) 0 = Ok a.
Proof. apply (py_index_nat (a :: l) 0). reflexivity. Qed.

Lemma py_index_1 {A} (a b : A) l : py_index (a :: b :: l) 1 = Ok b.
Proof. apply (py_index_nat (a :: b :: l) 1). reflexivity. Qed.

Lemma py_index_2 {A} (a b c : A) l : py_index (a :: b :: c :: l) 2 = Ok c.
Proof. apply (py_index_nat (a :: b :: c :: l) 2). reflexivity. Qed.

Lemma py_index_last {A} (l : list A) (x : A) : py_index (l ++ [x]) (-1) = Ok x.
Proof.
  unfold py_index. cbv zeta. rewrite length_app. cbn [List.length].
  replace ((-1 <? 0)%Z) with true by reflexivity.
  replace ((-1 + Z.of_nat (List.length l + 1))%Z)
    with (Z.of_nat (List.length l)) by lia.
  assert (E1 : (Z.of_nat (List.length l) <? 0)%Z = false)
    by (apply Z.ltb_ge; lia).
  assert (E2 : (Z.of_nat (List.length l + 1) <=? Z.of_nat (List.length l))%Z
               = false) by (apply Z.leb_gt; lia).
  rewrite E1, E2. cbn [orb].
  rewrite Nat2Z.id, nth_error_app2, Nat.sub_diag by lia. reflexivity.
Qed.

Lemma py_index_last2 {A} (a b : A) : py_index [a; b] (-1) = Ok b.
Proof. apply (py_index_last [a] b). Qed.

Lemma py_index_penult2 {A} (a b : A) : py_index [a; b] (-2) = Ok a.
Proof. reflexivity. Qed.

Lemma py_index_last1 {A} (a : A) : py_index [a] (-1) = Ok a.
Proof. apply (py_index_last [] a). Qed.

Lemma py_index_last3 {A} (a b c : A) : py_index [a; b; c] (-1) = Ok c.
Proof. reflexivity. Qed.

Lemma py_index_penult3 {A} (a b c : A) : py_index [a; b; c] (-2) = Ok b.
Proof. reflexivity. Qed.

#[global] Arguments py_index : simpl never.
#[global] Arguments Ellipticity.weighted_alp2 : simpl never.
#[global] Arguments Ellipticipy.weighted_alp2 : simpl never.
#[global] Arguments Ellipticity.get_epsilon : simpl never.
#[global] Arguments Ellipticipy.get_epsilon : simpl never.
#[global] Arguments trapz_x : simpl never.
#[global] Arguments round5 : simpl never.
#[global] Arguments np_sqrt : simpl never.
#[global] Arguments lower : simpl never.

Create Rewrite HintDb pyidx.
#[global] Hint Rewrite @py_index_0 @py_index_1 @py_index_2 @py_index_last2
  @py_index_penult2 @py_index_last1 @py_index_last3 @py_index_penult3 : pyidx.

Lemma lower_p : lower "p" = "p"%char.
Proof. reflexivity. Qed.

Ltac eval_R :=
  repeat (progress (decide_R; cbn; unfold str_at; autorewrite with pyidx;
                    rewrite ?lower_p, ?andb_false_r, ?orb_true_r)).

(** ** The weighted Legendre polynomials *)

Lemma alp2_same m theta :
  Ellipticity.weighted_alp2 m theta = Ellipticipy.weighted_alp2 m theta.
Proof. reflexivity. Qed.

Lemma alp2_order0 theta :
  Ellipticipy.weighted_alp2 0 theta
  = Ok (1 * 0.5 * (3.0 * cos theta ^ 2 - 1.0)).
Proof.
  unfold Ellipticipy.weighted_alp2, factorial. cbn -[pow cos].
  change (Z.of_nat (fact (Pos.to_nat 2))) with 2%Z.
  replace (1 * (2 / 2)) with 1 by lra. rewrite sqrt_1. reflexivity.
Qed.

Lemma alp2_order1 theta :
  Ellipticipy.weighted_alp2 1 theta
  = Ok (sqrt (2 * (INR (fact 1) / INR (fact 3))) * 3.0 * cos theta * sin theta).
Proof.
  unfold Ellipticipy.weighted_alp2, factorial. cbn -[pow cos sin INR].
  change (Z.of_nat (fact (Pos.to_nat 1))) with 1%Z.
  change (Z.of_nat (fact (Pos.to_nat 3))) with 6%Z.
  change (INR (fact 1)) with (INR 1). change (INR (fact 3)) with (INR 6).
  rewrite !INR_IZR_INZ. reflexivity.
Qed.

Lemma alp2_order2 theta :
  Ellipticipy.weighted_alp2 2 theta
  = Ok (sqrt (2 * (INR (fact 0) / INR (fact 4))) * 3.0 * sin theta ^ 2).
Proof.
  unfold Ellipticipy.weighted_alp2, factorial. cbn -[pow cos sin INR].
  change (Z.of_nat (fact (Pos.to_nat 4))) with 24%Z.
  change (INR (fact 0)) with (INR 1). change (INR (fact 4)) with (INR 24).
  rewrite !INR_IZR_INZ. reflexivity.
Qed.

Lemma alp2_invalid m theta :
  (m < 0 \/ 2 < m)%Z ->
  exists msg, Ellipticipy.weighted_alp2 m theta = Raise (ValueError msg).
Proof.
  intros Hm. unfold Ellipticipy.weighted_alp2, factorial.
  destruct (2 - m <? 0)%Z eqn:E1; cbn [bind]; [eauto|].
  destruct (2 + m <? 0)%Z eqn:E2; cbn [bind]; [eauto|].
  apply Z.ltb_ge in E1, E2.
  assert (H0 : (m =? 0)%Z = false) by (apply Z.eqb_neq; lia).
  assert (H1 : (m =? 1)%Z = false) by (apply Z.eqb_neq; lia).
  assert (H2 : (m =? 2)%Z = false) by (apply Z.eqb_neq; lia).
  rewrite H0, H1, H2. eauto.
Qed.

Lemma alp2_at_0 :
  Ellipticipy.weighted_alp2 0 0 = Ok 1 /\
  Ellipticipy.weighted_alp2 1 0 = Ok 0 /\
  Ellipticipy.weighted_alp2 2 0 = Ok 0.
Proof.
  rewrite alp2_order0, alp2_order1, alp2_order2, cos_0, sin_0.
  repeat split; f_equal.
  - lra.
  - apply Rmult_0_r.
  - replace (0 ^ 2) with 0 by lra. apply Rmult_0_r.
Qed.

(** C3, as amended.  For every angle [theta], [weighted_alp2] returns
    [norm0 * 0.5 * (3 cos^2 theta - 1)] with [norm0 = 1] for [m = 0],
    [norm1 * 3 * cos theta * sin theta] with [norm1 = sqrt (2 * 1! / 3!)]
    for [m = 1], and [norm2 * 3 * sin^2 theta] with
    [norm2 = sqrt (2 * 0! / 4!)] for [m = 2]; at [theta = 0] the three
    values are 1, 0 and 0; for every integer [m] outside {0, 1, 2} it
    raises a [ValueError]; and the two files agree. *)
Theorem weighted_alp2_values (m : Z) (theta : R) :
  Ellipticipy.weighted_alp2 0 theta
    = Ok (1 * 0.5 * (3.0 * cos theta ^ 2 - 1.0))
  /\ Ellipticipy.weighted_alp2 1 theta
    = Ok (sqrt (2 * (INR (fact 1) / INR (fact 3))) * 3.0 * cos theta * sin theta)
  /\ Ellipticipy.weighted_alp2 2 theta
    = Ok (sqrt (2 * (INR (fact 0) / INR (fact 4))) * 3.0 * sin theta ^ 2)
  /\ (Ellipticipy.weighted_alp2 0 0 = Ok 1
      /\ Ellipticipy.weighted_alp2 1 0 = Ok 0
      /\ Ellipticipy.weighted_alp2 2 0 = Ok 0)
  /\ ((m < 0 \/ 2 < m)%Z ->
      exists msg, Ellipticipy.weighted_alp2 m theta = Raise (ValueError msg))
  /\ Ellipticity.weighted_alp2 m theta = Ellipticipy.weighted_alp2 m theta.
Proof.
  split; [apply alp2_order0|].
  split; [apply alp2_order1|].
  split; [apply alp2_order2|].
  split; [apply alp2_at_0|].
  split; [apply alp2_invalid|apply alp2_same].
Qed.

Lemma weighted_alp2_values_witness :
  exists msg, Ellipticipy.weighted_alp2 3 0 = Raise (ValueError msg).
Proof.
  apply (proj1 (proj2 (proj2 (proj2 (proj2 (weighted_alp2_values 3 0)))))).
  right. lia.
Defined.

(** C3 as stated fails for [m = 2]: at [theta = PI / 2] the value is not
    [sqrt (2 * 2! / 4!) * 3 * sin^2 theta]. *)
Lemma weighted_alp2_order2_norm :
  Ellipticipy.weighted_alp2 2 (PI / 2)
  <> Ok (sqrt (2 * (INR (fact 2) / INR (fact 4))) * 3.0 * sin (PI / 2) ^ 2).
Proof.
  rewrite alp2_order2, sin_PI2.
  change (INR (fact 0)) with (INR 1).
  change (INR (fact 2)) with (INR 2).
  change (INR (fact 4)) with (INR 24).
  rewrite !INR_IZR_INZ. cbn [Z.of_nat Pos.of_succ_nat Pos.succ].
  intros H. injection H as H.
  assert (Hs : sqrt (2 * (1 / 24)) = sqrt (2 * (2 / 24))) by lra.
  apply sqrt_inj in Hs; lra.
Qed.

(** C2.  For every coefficient triple, azimuth and source latitude in
    degrees, [correction_from_coefficients] returns the sum over [m] in
    {0, 1, 2} of [coefficient m * weighted_alp2 m colatitude *
    cos (m * azimuth in radians)], with the colatitude [PI / 2] minus the
    latitude in radians. *)
Theorem correction_formula (c0 c1 c2 azimuth source_latitude : R) :
  let colatitude := PI / 2 - radians source_latitude in
  exists w0 w1 w2,
    Ellipticipy.weighted_alp2 0 colatitude = Ok w0
    /\ Ellipticipy.weighted_alp2 1 colatitude = Ok w1
    /\ Ellipticipy.weighted_alp2 2 colatitude = Ok w2
    /\ Ellipticipy.correction_from_coefficients [c0; c1; c2] azimuth
         source_latitude
       = Ok (c0 * w0 * cos (0 * radians azimuth)
             + c1 * w1 * cos (1 * radians azimuth)
             + c2 * w2 * cos (2 * radians azimuth)).
Proof.
  intros colatitude.
  unfold Ellipticipy.correction_from_coefficients.
  replace (radians (90 - source_latitude)) with colatitude
    by (unfold colatitude, radians; field).
  do 3 eexists.
  split; [apply alp2_order0|].
  split; [apply alp2_order1|].
  split; [apply alp2_order2|].
  cbn [mapM bind]. autorewrite with pyidx. cbn [bind].
  rewrite alp2_order0, alp2_order1, alp2_order2. cbn [bind].
  f_equal. unfold Rsum. cbn [fold_left]. ring.
Qed.

(** ** The profile cache leaves the collaborators alone *)

Lemma bind_Ok {A B} (c : res A) (k : A -> res B) (b : B) :
  bind c k = Ok b -> exists a, c = Ok a /\ k a = Ok b.
Proof. destruct c; cbn; intros H; [eauto | discriminate]. Qed.

Lemma model_epsilon_writes model lod taper dr model' :
  Ellipticity.model_epsilon model lod taper dr = Ok model' ->
  exists r eps, model' = set_radial_epsilon model r eps.
Proof.
  unfold Ellipticity.model_epsilon. intros H.
  destruct (Req_bool lod 0); [discriminate|].
  repeat (apply bind_Ok in H; destruct H as (? & _ & H)).
  injection H as <-. eauto.
Qed.

Lemma model_after_collaborators model lod model' :
  Ellipticity.model_after model lod = Ok model' ->
  get_ray_paths model' = get_ray_paths model
  /\ model_name model' = model_name model.
Proof.
  unfold Ellipticity.model_after. destruct (epsilon model).
  - intros H; injection H as <-. auto.
  - intros H. apply model_epsilon_writes in H as (r & eps & ->). auto.
Qed.

Lemma filter_none {A} (f : A -> bool) (l : list A) :
  (forall x, In x l -> f x = false) -> filter f l = [].
Proof.
  induction l as [|a l IH]; cbn; intros H; [reflexivity|].
  rewrite (H a) by auto. apply IH. auto.
Qed.

(** C10.  When the ray tracer reports no arrival within 1e-4 degrees of
    the requested distance for the requested phase and source depth, the
    coefficients computation raises [PhaseError]; it does not return
    coefficients. *)
Theorem no_arrival_raises (TauPyModel : string -> res TauModel)
    (fuel : nat) (phase : string) (dist sdepth : R) (index : Z)
    (model : Ellipticity.model_arg) (m0 m : TauModel) (lod : R) :
  (model = Ellipticity.TauPyModelObj m0
   \/ exists s, model = Ellipticity.ModelName s /\ TauPyModel s = Ok m0) ->
  Ellipticity.model_after m0 lod = Ok m ->
  (forall x, In x (get_ray_paths m0 sdepth dist phase) ->
             ~ Rabs (purist_distance x - dist) < 0.0001) ->
  Ellipticity.ellipticity_coefficients TauPyModel (S fuel)
    (Ellipticity.ArrivalList phase dist sdepth index) model lod
  = Raise (PhaseError
             (Ellipticity.phase_error_message phase
                (Ellipticity.vel_model_of_name (model_name m0)))).
Proof.
  intros Hmodel Hafter Hnone.
  destruct (model_after_collaborators _ _ _ Hafter) as [Hrays Hname].
  cbn [Ellipticity.ellipticity_coefficients].
  assert (Hres : match model with
                 | Ellipticity.ModelName s => TauPyModel s
                 | Ellipticity.TauPyModelObj m1 => Ok m1
                 | Ellipticity.OtherObj =>
                     Raise (TypeError "Velocity model not correct type")
                 end = Ok m0).
  { destruct Hmodel as [-> | (s & -> & Hs)]; [reflexivity | exact Hs]. }
  rewrite Hres. cbn [bind].
  unfold Ellipticity.model_after in Hafter. rewrite Hafter. cbn [bind].
  unfold Ellipticity.get_taup_arrival. rewrite Hrays, Hname.
  rewrite filter_none.
  - reflexivity.
  - intros x Hx. apply Rlt_bool_false.
    specialize (Hnone x Hx). lra.
Qed.

Lemma no_arrival_raises_witness :
  Ellipticity.ellipticity_coefficients Toy.no_loader 1
    (Ellipticity.ArrivalList "PKiKP" 1 0 0)
    (Ellipticity.TauPyModelObj (Toy.planet_with Toy.no_arrival)) EARTH_LOD
  = Raise (PhaseError
             (Ellipticity.phase_error_message "PKiKP"
                (Ellipticity.vel_model_of_name "toy"))).
Proof.
  apply (no_arrival_raises Toy.no_loader 0 "PKiKP" 1 0 0
           (Ellipticity.TauPyModelObj (Toy.planet_with Toy.no_arrival))
           (Toy.planet_with Toy.no_arrival) (Toy.planet_with Toy.no_arrival)
           EARTH_LOD).
  - left. reflexivity.
  - reflexivity.
  - intros x Hx. destruct Hx.
Defined.

(** ** The test planet, evaluated *)

#[global] Arguments Ellipticity.root : simpl never.
#[global] Arguments np_add : simpl never.
#[global] Arguments np_sub : simpl never.
#[global] Arguments np_mul : simpl never.
#[global] Arguments np_sum : simpl never.
#[global] Arguments Ellipticity.assigned_eva : simpl never.
#[global] Arguments Ellipticity.eval_below : simpl never.
#[global] Arguments Ellipticity.eval_above : simpl never.
#[global] Arguments Ellipticity.get_dvdr_below : simpl never.
#[global] Arguments Ellipticity.get_dvdr_above : simpl never.
#[global] Arguments Ellipticity.summed : simpl never.

Lemma toy_ray_path depth d p t :
  0 < depth ->
  Ellipticity.ray_path (Toy.upgoing depth d p) (Toy.planet_with t)
  = Ok ([[Toy.point p 0 depth; Toy.point p 1 0]], [["p"%char; "p"%char]]).
Proof.
  intros Hd. unfold Ellipticity.ray_path, Ellipticity.path_waves. cbn.
  repeat (progress (unfold Ellipticity.wave_step, Ellipticity.segment_step,
                      Ellipticity.opens_segment; eval_R)).
  reflexivity.
Qed.

Lemma toy_eval_below t x : Ellipticity.eval_below (Toy.planet_with t) x "p" = Ok 1.
Proof. reflexivity. Qed.
Lemma toy_eval_above t x : Ellipticity.eval_above (Toy.planet_with t) x "p" = Ok 1.
Proof. reflexivity. Qed.
Lemma toy_dvdr_below t x : Ellipticity.get_dvdr_below (Toy.planet_with t) x "p" = Ok (- ((1 - 1) / (1 - 0))).
Proof. reflexivity. Qed.
Lemma toy_dvdr_above t x : Ellipticity.get_dvdr_above (Toy.planet_with t) x "p" = Ok (- ((1 - 1) / (1 - 0))).
Proof. reflexivity. Qed.

Lemma toy_epsilon_surface t r :
  r = 1000 -> Ellipticity.get_epsilon (Toy.planet_with t) r = Ok 1.
Proof.
  intros ->. unfold Ellipticity.get_epsilon, searchsorted_left. cbn.
  decide_R. cbn. autorewrite with pyidx. cbn.
  rewrite Rlt_bool_false. 2:{ unfold Rabs. repeat destruct Rcase_abs; lra. }
  reflexivity.
Qed.

Lemma toy_epsilon_source t r :
  r = 900 -> Ellipticity.get_epsilon (Toy.planet_with t) r = Ok 0.
Proof.
  intros ->. unfold Ellipticity.get_epsilon, searchsorted_left. cbn.
  decide_R. cbn. autorewrite with pyidx. cbn.
  rewrite Rlt_bool_false. 2:{ unfold Rabs. repeat destruct Rcase_abs; lra. }
  reflexivity.
Qed.

Lemma trapz_flat a b x : trapz_x [a; b] [x; x] = 0.
Proof. unfold trapz_x, Rsum. cbn. lra. Qed.

Lemma toy_integral d p t :
  Ellipticity.integral_coefficients (Toy.upgoing 0.1 d p) (Toy.planet_with t)
    [[Toy.point p 0 0.1; Toy.point p 1 0]] [["p"%char; "p"%char]]
  = Ok [0; 0; 0].
Proof.
  unfold Ellipticity.integral_coefficients. cbn.
  unfold Ellipticity.segment_integral. cbn.
  eval_R.
  rewrite !toy_eval_below, !toy_eval_above. cbn.
  rewrite ?toy_dvdr_below, ?toy_dvdr_above. cbn.
  rewrite (toy_epsilon_source t) by lra. cbn.
  rewrite (toy_epsilon_surface t) by lra. cbn.
  destruct alp2_at_0 as (E0 & E1 & E2).
  repeat (progress (rewrite ?alp2_same, ?E0, ?E1, ?E2; cbn; autorewrite with pyidx)).
  rewrite !trapz_flat. unfold Rsum. cbn.
  unfold Rdiv. rewrite !Rmult_0_l, !Rplus_0_l. reflexivity.
Qed.

Lemma Int_part_IZR z : Int_part (IZR z) = z.
Proof. symmetry. apply Int_part_spec. lra. Qed.

Lemma round5_exact x z : x * 1e5 = IZR z -> round5 x = x.
Proof.
  intros H. unfold round5, round_half_even. rewrite H, Int_part_IZR.
  rewrite Rlt_bool_true by lra. rewrite <- H. field.
Qed.

Lemma toy_summed_source depth d p t i :
  Ellipticity.summed (Toy.upgoing depth d p) (Toy.planet_with t) [0] 0 i = true.
Proof.
  unfold Ellipticity.summed. cbn. rewrite orb_true_r. reflexivity.
Qed.

Lemma toy_summed_surface depth d p t n i :
  Ellipticity.dep i = 0 ->
  Ellipticity.summed (Toy.upgoing depth d p) (Toy.planet_with t) [0] n i = true.
Proof.
  intros H. unfold Ellipticity.summed. cbn. rewrite H.
  rewrite (round5_exact _ 0) by lra. unfold R_in. cbn.
  rewrite Req_bool_true by lra. reflexivity.
Qed.


Lemma toy_eva_source d p t i :
  Ellipticity.ind i = 0%Z -> Ellipticity.dep i <> 0 ->
  Ellipticity.r i = 900 ->
  Ellipticity.assigned_eva (Toy.upgoing 0.1 d p) (Toy.planet_with t)
    [Toy.point p 0 0.1; Toy.point p 1 0] [["p"%char; "p"%char]] 0 i
  = Ok (Some (np_mul (Fin (-1.0))
                (Ellipticity.root 0.9 (Ellipticity.p i)))).
Proof.
  intros Hind Hdep Hr. unfold Ellipticity.assigned_eva. rewrite Hind, Hr.
  eval_R.
  rewrite toy_eval_above. cbn.
  replace (900 / (1 * (1 * 1000))) with 0.9 by lra.
  reflexivity.
Qed.

Lemma toy_eva_surface d p t i :
  Ellipticity.ind i = 1%Z -> Ellipticity.dep i = 0 ->
  Ellipticity.r i = 1000 ->
  Ellipticity.assigned_eva (Toy.upgoing 0.1 d p) (Toy.planet_with t)
    [Toy.point p 0 0.1; Toy.point p 1 0] [["p"%char; "p"%char]] 1 i
  = Ok (Some (np_mul (Fin (-1.0))
                (np_sub (Fin 0) (Ellipticity.root 1 (Ellipticity.p i))))).
Proof.
  intros Hind Hdep Hr. unfold Ellipticity.assigned_eva. rewrite Hind, Hr, Hdep.
  cbn. eval_R.
  rewrite toy_eval_below. cbn.
  replace (1000 / (1 * (1 * 1000))) with 1 by lra.
  reflexivity.
Qed.

Lemma toy_discontinuity d p t :
  Ellipticity.discontinuity_coefficients (Toy.upgoing 0.1 d p)
    (Toy.planet_with t)
    [[Toy.point p 0 0.1; Toy.point p 1 0]] [["p"%char; "p"%char]]
  = Ok (map (fun l =>
          np_sum [np_mul (Fin (0 * l))
                    (np_mul (Fin (-1.0)) (Ellipticity.root 0.9 p));
                  np_mul (Fin (1 * l))
                    (np_mul (Fin (-1.0))
                       (np_sub (Fin 0) (Ellipticity.root 1 p)))])
          [-1.0 * (2.0 / 3.0) * 1; -1.0 * (2.0 / 3.0) * 0;
           -1.0 * (2.0 / 3.0) * 0]).
Proof.
  unfold Ellipticity.discontinuity_coefficients. cbn.
  unfold Ellipticity.interacting_points. cbn. autorewrite with pyidx. cbn.
  unfold R_in. cbn. eval_R.
  rewrite toy_summed_source. cbn.
  rewrite toy_summed_surface by (cbn; lra). cbn.
  unfold Ellipticity.boundary_step, Ellipticity.idisc_sigma,
    Ellipticity.sum_sigmas. cbn.
  rewrite (toy_epsilon_source t) by lra. cbn.
  rewrite (toy_epsilon_surface t) by lra. cbn.
  destruct alp2_at_0 as (E0 & E1 & E2).
  repeat (progress (rewrite ?alp2_same, ?E0, ?E1, ?E2; cbn; autorewrite with pyidx)).
  rewrite (toy_eva_source d p t) by (cbn; first [reflexivity | lra]). cbn.
  rewrite (toy_eva_surface d p t) by (cbn; first [reflexivity | lra]). cbn.
  autorewrite with pyidx. cbn. reflexivity.
Qed.

#[global] Arguments Ellipticity.ray_path : simpl never.
#[global] Arguments Ellipticity.integral_coefficients : simpl never.
#[global] Arguments Ellipticity.discontinuity_coefficients : simpl never.
#[global] Arguments Ellipticity.direct_coefficients : simpl never.

Lemma np_sqrt_nonneg x : 0 <= x -> np_sqrt x = Fin (sqrt x).
Proof. intros H. unfold np_sqrt. rewrite Rlt_bool_false by lra. reflexivity. Qed.

Lemma np_sqrt_neg x : x < 0 -> np_sqrt x = NaN.
Proof. intros H. unfold np_sqrt. rewrite Rlt_bool_true by lra. reflexivity. Qed.

Lemma toy_direct d p s t :
  p <> 0 -> p ^ 2 <= 0.81 -> 1 - p ^ 2 = s * s -> 0 <= s ->
  Ellipticity.direct_coefficients (Toy.upgoing 0.1 d p) (Toy.planet_with t)
  = Ok [Fin (- (2 / 3) * s); Fin 0; Fin 0].
Proof.
  intros Hp Hsrc Hs Hs0. unfold Ellipticity.direct_coefficients.
  rewrite toy_ray_path by lra. cbn.
  rewrite toy_integral. cbn.
  rewrite toy_discontinuity. cbn. autorewrite with pyidx. cbn.
  autorewrite with pyidx. cbn. autorewrite with pyidx. cbn.
  unfold Ellipticity.root.
  rewrite (np_sqrt_nonneg (0.9 ^ 2 - p ^ 2)) by lra.
  replace (1 ^ 2 - p ^ 2) with (s * s) by lra.
  rewrite (np_sqrt_nonneg (s * s)) by nra.
  rewrite sqrt_square by assumption.
  unfold np_sum, np_add, np_mul, np_sub. cbn.
  f_equal.
  f_equal; [f_equal; lra|].
  f_equal; [f_equal; lra|].
  f_equal. f_equal. lra.
Qed.

(** With a ray parameter above the surface value of [r / v] the
    unguarded square root is taken of a negative number. *)
Lemma toy_direct_nan d p t :
  p <> 0 -> 1 < p ^ 2 ->
  Ellipticity.direct_coefficients (Toy.upgoing 0.1 d p) (Toy.planet_with t)
  = Ok [NaN; NaN; NaN].
Proof.
  intros Hp Hbig. unfold Ellipticity.direct_coefficients.
  rewrite toy_ray_path by lra. cbn.
  rewrite toy_integral. cbn.
  rewrite toy_discontinuity. cbn. autorewrite with pyidx. cbn.
  autorewrite with pyidx. cbn. autorewrite with pyidx. cbn.
  unfold Ellipticity.root.
  rewrite (np_sqrt_neg (1 ^ 2 - p ^ 2)) by lra.
  destruct (np_sqrt (0.9 ^ 2 - p ^ 2)); reflexivity.
Qed.

Lemma toy_entry_direct TauPyModel fuel d p t lod :
  d <> 0 ->
  Ellipticity.ellipticity_coefficients TauPyModel (S fuel)
    (Ellipticity.ArrivalObj (Toy.upgoing 0.1 d p))
    (Ellipticity.TauPyModelObj (Toy.planet_with t)) lod
  = Ellipticity.direct_coefficients (Toy.upgoing 0.1 d p) (Toy.planet_with t).
Proof.
  intros Hd. cbn. eval_R. reflexivity.
Qed.

(** ** Loops over lists *)

Lemma mapM_map {A B} (f : A -> res B) (g : A -> B) (l : list A) :
  (forall a, In a l -> f a = Ok (g a)) -> mapM f l = Ok (map g l).
Proof.
  induction l as [|a l IH]; cbn; intros H; [reflexivity|].
  rewrite (H a) by auto. cbn. rewrite IH by auto. reflexivity.
Qed.

Lemma mapM_length {A B} (f : A -> res B) (l : list A) (bs : list B) :
  mapM f l = Ok bs -> List.length bs = List.length l.
Proof.
  revert bs. induction l as [|a l IH]; cbn; intros bs H.
  - injection H as <-. reflexivity.
  - apply bind_Ok in H as (b & _ & H).
    apply bind_Ok in H as (bs' & Hbs & H). injection H as <-.
    cbn. f_equal. apply IH. exact Hbs.
Qed.

Lemma mapM_In {A B} (f : A -> res B) (l : list A) (bs : list B) (b : B) :
  mapM f l = Ok bs -> In b bs -> exists a, In a l /\ f a = Ok b.
Proof.
  revert bs. induction l as [|a l IH]; cbn; intros bs H Hb.
  - injection H as <-. destruct Hb.
  - apply bind_Ok in H as (b0 & Hb0 & H).
    apply bind_Ok in H as (bs' & Hbs & H). injection H as <-.
    destruct Hb as [<- | Hb]; [eauto|].
    destruct (IH _ Hbs Hb) as (a' & Ha' & Hf). eauto.
Qed.

Lemma zipWith_nth {A B C} (g : A -> B -> C) (l1 : list A) (l2 : list B) da db :
  List.length l1 = List.length l2 ->
  map (fun i => g (nth i l1 da) (nth i l2 db)) (seq 0 (List.length l1))
  = zipWith g l1 l2.
Proof.
  revert l2. induction l1 as [|a l1 IH]; intros [|b l2] Hlen;
    try discriminate; [reflexivity|].
  cbn [List.length seq map zipWith nth]. f_equal.
  rewrite <- seq_shift, map_map. cbn [nth]. apply IH.
  injection Hlen as Hlen. exact Hlen.
Qed.

Lemma py_index_nth {A} (l : list A) (i : nat) (d : A) :
  (i < List.length l)%nat -> py_index l (Z.of_nat i) = Ok (nth i l d).
Proof.
  intros Hi. apply py_index_nat.
  rewrite (nth_error_nth' l d Hi). reflexivity.
Qed.

(** ** The near-centre fallback *)

(** The list comprehension of [centre_of_planet_coefficients] draws, for
    every coefficient, the straight line through the two auxiliary
    values and reads it off at the distance of the original arrival. *)
Lemma centre_line coefficients arrival model a1 a2 xs1 xs2 :
  Ellipticity.get_correct_taup_arrival arrival model (-0.05) = Ok a1 ->
  Ellipticity.get_correct_taup_arrival arrival model (-0.10) = Ok a2 ->
  coefficients a1 model = Ok (map Fin xs1) ->
  coefficients a2 model = Ok (map Fin xs2) ->
  List.length xs1 = List.length xs2 ->
  distance a2 <> distance a1 ->
  Ellipticity.centre_of_planet_coefficients coefficients arrival model
  = Ok (map Fin
          (zipWith (fun x1 x2 =>
                      x1 + (distance arrival - distance a1)
                           / (distance a2 - distance a1) * (x2 - x1))
                   xs1 xs2)).
Proof.
  intros H1 H2 Hc1 Hc2 Hlen Hd.
  unfold Ellipticity.centre_of_planet_coefficients.
  rewrite H1, H2. cbn [bind]. rewrite Hc1, Hc2. cbn [bind].
  rewrite Req_bool_false by lra.
  rewrite length_map.
  erewrite mapM_map.
  - rewrite <- (zipWith_nth _ xs1 xs2 0 0 Hlen), map_map. reflexivity.
  - intros i Hi. apply in_seq in Hi. cbn beta.
    rewrite (py_index_nth (map Fin xs1) i (Fin 0)) by (rewrite length_map; lia).
    rewrite (py_index_nth (map Fin xs2) i (Fin 0)) by (rewrite length_map; lia).
    cbn [bind].
    rewrite !(map_nth Fin). reflexivity.
Qed.

Lemma entry_near_centre TauPyModel fuel arrival model lod pts eps bot :
  path arrival = Some pts ->
  distance arrival <> 0 ->
  epsilon model = Some eps ->
  Ellipticity.bottoming_depth pts = Ok bot ->
  (radius_of_planet model - bot) * 1e3 < 50 ->
  Ellipticity.ellipticity_coefficients TauPyModel (S fuel)
    (Ellipticity.ArrivalObj arrival) (Ellipticity.TauPyModelObj model) lod
  = Ellipticity.centre_of_planet_coefficients
      (fun a m =>
         Ellipticity.ellipticity_coefficients TauPyModel fuel
           (Ellipticity.ArrivalObj a) (Ellipticity.TauPyModelObj m) EARTH_LOD)
      arrival model.
Proof.
  intros Hpath Hd Heps Hbot Hnear.
  cbn [Ellipticity.ellipticity_coefficients bind].
  rewrite Heps, Hpath. cbn [bind].
  rewrite Req_bool_false by lra. cbn [bind].
  rewrite Hpath. cbn [bind attr]. rewrite Hbot. cbn [bind].
  rewrite Rlt_bool_true by lra. reflexivity.
Qed.

Lemma toy_aux_near :
  Ellipticity.get_correct_taup_arrival Toy.through_centre Toy.planet (-0.05)
  = Ok (Toy.upgoing 0.1 (180 + -0.05) 0.6).
Proof.
  unfold Ellipticity.get_correct_taup_arrival. cbn. unfold Toy.tracer.
  rewrite Rlt_bool_false by lra. cbn. autorewrite with pyidx. reflexivity.
Qed.

Lemma toy_aux_far :
  Ellipticity.get_correct_taup_arrival Toy.through_centre Toy.planet (-0.10)
  = Ok (Toy.upgoing 0.1 (180 + -0.10) 0.8).
Proof.
  unfold Ellipticity.get_correct_taup_arrival. cbn. unfold Toy.tracer.
  rewrite Rlt_bool_true by lra. cbn. autorewrite with pyidx. reflexivity.
Qed.

Lemma zipWith_ext {A B C} (f g : A -> B -> C) l1 l2 :
  (forall a b, f a b = g a b) -> zipWith f l1 l2 = zipWith g l1 l2.
Proof.
  intros H. revert l2. induction l1 as [|a l1 IH]; intros [|b l2]; cbn;
    try reflexivity.
  rewrite H, IH. reflexivity.
Qed.

Lemma between_iff_equal x1 x2 :
  Rmin x1 x2 <= 2 * x1 - x2 <= Rmax x1 x2 <-> x1 = x2.
Proof.
  unfold Rmin, Rmax. destruct (Rle_dec x1 x2); split; intros; lra.
Qed.

Lemma toy_near_coefficients fuel :
  Ellipticity.ellipticity_coefficients Toy.no_loader (S fuel)
    (Ellipticity.ArrivalObj (Toy.upgoing 0.1 (180 + -0.05) 0.6))
    (Ellipticity.TauPyModelObj Toy.planet) EARTH_LOD
  = Ok (map Fin [- (2 / 3) * 0.8; 0; 0]).
Proof.
  unfold Toy.planet. rewrite toy_entry_direct by lra.
  apply toy_direct; lra.
Qed.

Lemma toy_far_coefficients fuel :
  Ellipticity.ellipticity_coefficients Toy.no_loader (S fuel)
    (Ellipticity.ArrivalObj (Toy.upgoing 0.1 (180 + -0.10) 0.8))
    (Ellipticity.TauPyModelObj Toy.planet) EARTH_LOD
  = Ok (map Fin [- (2 / 3) * 0.6; 0; 0]).
Proof.
  unfold Toy.planet. rewrite toy_entry_direct by lra.
  apply toy_direct; lra.
Qed.

(** C9, as amended.  For a ray that bottoms within 50 m of the centre of
    the planet, each coefficient returned by the fallback is the value,
    at the ray's own distance, of the straight line through the
    coefficients [x1] and [x2] of the auxiliary arrivals; with these at
    distances reduced by 0.05 and 0.10 degrees that value is
    [2 * x1 - x2], which lies between [x1] and [x2] only when the two are
    equal. *)
Theorem centre_fallback_extrapolates (TauPyModel : string -> res TauModel)
    (fuel : nat) (arrival : Arrival) (model : TauModel) (lod : R)
    (pts : list PathPoint) (eps : list R) (bot : R) (a1 a2 : Arrival)
    (xs1 xs2 : list R) :
  path arrival = Some pts ->
  distance arrival <> 0 ->
  epsilon model = Some eps ->
  Ellipticity.bottoming_depth pts = Ok bot ->
  (radius_of_planet model - bot) * 1e3 < 50 ->
  Ellipticity.get_correct_taup_arrival arrival model (-0.05) = Ok a1 ->
  Ellipticity.get_correct_taup_arrival arrival model (-0.10) = Ok a2 ->
  distance a1 = distance arrival - 0.05 ->
  distance a2 = distance arrival - 0.10 ->
  Ellipticity.ellipticity_coefficients TauPyModel fuel
    (Ellipticity.ArrivalObj a1) (Ellipticity.TauPyModelObj model) EARTH_LOD
  = Ok (map Fin xs1) ->
  Ellipticity.ellipticity_coefficients TauPyModel fuel
    (Ellipticity.ArrivalObj a2) (Ellipticity.TauPyModelObj model) EARTH_LOD
  = Ok (map Fin xs2) ->
  List.length xs1 = List.length xs2 ->
  Ellipticity.ellipticity_coefficients TauPyModel (S fuel)
    (Ellipticity.ArrivalObj arrival) (Ellipticity.TauPyModelObj model) lod
  = Ok (map Fin (zipWith (fun x1 x2 => 2 * x1 - x2) xs1 xs2))
  /\ (forall x1 x2, In (x1, x2) (combine xs1 xs2) ->
        (Rmin x1 x2 <= 2 * x1 - x2 <= Rmax x1 x2 <-> x1 = x2)).
Proof.
  intros Hpath Hd Heps Hbot Hnear H1 H2 Hd1 Hd2 Hc1 Hc2 Hlen. split.
  - rewrite (entry_near_centre _ _ _ _ _ pts eps bot) by assumption.
    rewrite (centre_line _ _ _ a1 a2 xs1 xs2) by (try assumption; lra).
    do 2 f_equal. apply zipWith_ext. intros x1 x2.
    replace (distance arrival - distance a1) with 0.05 by lra.
    replace (distance a2 - distance a1) with (-0.05) by lra.
    lra.
  - intros x1 x2 _. apply between_iff_equal.
Qed.

Lemma centre_fallback_extrapolates_witness :
  Ellipticity.ellipticity_coefficients Toy.no_loader 2
    (Ellipticity.ArrivalObj Toy.through_centre)
    (Ellipticity.TauPyModelObj Toy.planet) EARTH_LOD
  = Ok (map Fin (zipWith (fun x1 x2 => 2 * x1 - x2)
                   [- (2 / 3) * 0.8; 0; 0] [- (2 / 3) * 0.6; 0; 0])).
Proof.
  apply (centre_fallback_extrapolates Toy.no_loader 1 Toy.through_centre
           Toy.planet EARTH_LOD
           [Toy.point 0.6 0 1; Toy.point 0.6 1 0] [0; 0; 1] 1
           (Toy.upgoing 0.1 (180 + -0.05) 0.6)
           (Toy.upgoing 0.1 (180 + -0.10) 0.8)).
  - reflexivity.
  - cbn. lra.
  - reflexivity.
  - cbn. rewrite Rmax_left by lra. reflexivity.
  - cbn. lra.
  - apply toy_aux_near.
  - apply toy_aux_far.
  - cbn. lra.
  - cbn. lra.
  - apply toy_near_coefficients.
  - apply toy_far_coefficients.
  - reflexivity.
Defined.

(** C9 as stated fails.  On the test planet the ray from the centre gets
    the first coefficient -2/3, while the two auxiliary arrivals, at
    distances reduced by 0.05 and 0.10 degrees, have -8/15 and -2/5: the
    fallback value lies below both. *)
Lemma centre_fallback_overshoots :
  Ellipticity.bottoming_depth [Toy.point 0.6 0 1; Toy.point 0.6 1 0] = Ok 1
  /\ (radius_of_planet Toy.planet - 1) * 1e3 < 50
  /\ Ellipticity.get_correct_taup_arrival Toy.through_centre Toy.planet (-0.05)
     = Ok (Toy.upgoing 0.1 (180 + -0.05) 0.6)
  /\ Ellipticity.get_correct_taup_arrival Toy.through_centre Toy.planet (-0.10)
     = Ok (Toy.upgoing 0.1 (180 + -0.10) 0.8)
  /\ Ellipticity.ellipticity_coefficients Toy.no_loader 1
       (Ellipticity.ArrivalObj (Toy.upgoing 0.1 (180 + -0.05) 0.6))
       (Ellipticity.TauPyModelObj Toy.planet) EARTH_LOD
     = Ok [Fin (- (8 / 15)); Fin 0; Fin 0]
  /\ Ellipticity.ellipticity_coefficients Toy.no_loader 1
       (Ellipticity.ArrivalObj (Toy.upgoing 0.1 (180 + -0.10) 0.8))
       (Ellipticity.TauPyModelObj Toy.planet) EARTH_LOD
     = Ok [Fin (- (2 / 5)); Fin 0; Fin 0]
  /\ Ellipticity.ellipticity_coefficients Toy.no_loader 2
       (Ellipticity.ArrivalObj Toy.through_centre)
       (Ellipticity.TauPyModelObj Toy.planet) EARTH_LOD
     = Ok [Fin (- (2 / 3)); Fin 0; Fin 0]
  /\ ~ (Rmin (- (8 / 15)) (- (2 / 5)) <= - (2 / 3)
        <= Rmax (- (8 / 15)) (- (2 / 5))).
Proof.
  split; [cbn; rewrite Rmax_left by lra; reflexivity|].
  split; [cbn; lra|].
  split; [apply toy_aux_near|].
  split; [apply toy_aux_far|].
  split.
  { rewrite toy_near_coefficients. cbn.
    f_equal. f_equal. f_equal. lra. }
  split.
  { rewrite toy_far_coefficients. cbn.
    f_equal. f_equal. f_equal. lra. }
  split.
  { rewrite (entry_near_centre _ _ _ _ _
               [Toy.point 0.6 0 1; Toy.point 0.6 1 0] [0; 0; 1] 1);
      try reflexivity; try (cbn; lra).
    2:{ cbn. rewrite Rmax_left by lra. reflexivity. }
    rewrite (centre_line _ _ _ _ _ [- (2 / 3) * 0.8; 0; 0]
               [- (2 / 3) * 0.6; 0; 0] toy_aux_near toy_aux_far
               (toy_near_coefficients 0) (toy_far_coefficients 0));
      try reflexivity; try (cbn; lra).
    cbn. f_equal.
    f_equal; [f_equal; lra|].
    f_equal; [f_equal; lra|].
    f_equal. f_equal. lra. }
  unfold Rmin, Rmax. destruct (Rle_dec (- (8 / 15)) (- (2 / 5))); lra.
Qed.

(** ** Vertical slowness *)

Lemma vertical_slowness_clamped eta p :
  Ellipticipy.vertical_slowness eta p = sqrt (Rmax 0 (eta ^ 2 - p ^ 2)).
Proof.
  unfold Ellipticipy.vertical_slowness. cbv zeta.
  destruct (Rlt_bool_spec 0 (eta ^ 2 - p ^ 2)) as [H | H].
  - rewrite Rmax_right by lra. f_equal. lra.
  - rewrite Rmax_left by lra. f_equal. lra.
Qed.

Lemma vertical_slowness_negative eta p :
  eta ^ 2 - p ^ 2 < 0 -> Ellipticipy.vertical_slowness eta p = 0.
Proof.
  intros H. rewrite vertical_slowness_clamped, Rmax_left by lra.
  apply sqrt_0.
Qed.

Lemma vertical_slowness_nonneg eta p :
  0 <= Ellipticipy.vertical_slowness eta p.
Proof. rewrite vertical_slowness_clamped. apply sqrt_pos. Qed.

(** C5 fails in [src/ellipticity/tools.py].  An upgoing ray on the test
    planet with ray parameter 2 s/rad has [r / v = 1] at the surface:
    [discontinuity_coefficients] takes [np.sqrt] of [1 - 4] and all three
    coefficients are NaN, where the clamp of [src/ellipticipy/tools.py]
    gives the vertical slowness 0 for the same [r / v] and [p]. *)
Theorem unclamped_slowness_is_nan :
  Ellipticity.root 1 2 = NaN
  /\ Ellipticity.ellipticity_coefficients Toy.no_loader 1
       (Ellipticity.ArrivalObj (Toy.upgoing 0.1 10 2))
       (Ellipticity.TauPyModelObj Toy.planet) EARTH_LOD
     = Ok [NaN; NaN; NaN]
  /\ Ellipticipy.vertical_slowness 1 2 = 0.
Proof.
  split; [apply np_sqrt_neg; lra|].
  split.
  - unfold Toy.planet. rewrite toy_entry_direct by lra.
    apply toy_direct_nan; lra.
  - apply vertical_slowness_negative. lra.
Qed.

(** ** The test planet under [src/ellipticipy/tools.py] *)

#[global] Arguments Ellipticipy.classify_path : simpl never.
#[global] Arguments Ellipticipy.expected_delay_time : simpl never.
#[global] Arguments Ellipticipy.vertical_slowness : simpl never.
#[global] Arguments Ellipticipy.split_ray_path : simpl never.
#[global] Arguments Ellipticipy.split_points : simpl never.
#[global] Arguments Ellipticipy.discontinuity_contribution : simpl never.
#[global] Arguments Ellipticipy.integral_coefficients : simpl never.
#[global] Arguments Ellipticipy.discontinuity_coefficients : simpl never.
#[global] Arguments Ellipticipy.segment_integral : simpl never.
#[global] Arguments Ellipticipy.segment_ends : simpl never.

Lemma toy_py_epsilon ds t depth :
  Ellipticipy.get_epsilon (Toy.planet_of ds t) depth
  = Ok ((1 - 1) / (1 - 0) * (depth - 0) + 1).
Proof.
  unfold Ellipticipy.get_epsilon. cbn.
  destruct (Rlt_bool 0.0 depth); cbn; autorewrite with pyidx; reflexivity.
Qed.

Lemma toy_delay_same ds t p d0 d1 :
  Ellipticipy.expected_delay_time p d0 d1 PVel (Toy.planet_of ds t)
  = Ellipticipy.expected_delay_time p d0 d1 SVel (Toy.planet_of ds t).
Proof. reflexivity. Qed.

Lemma toy_classify ds t path a b :
  Ellipticipy.compared_points path = Ok (a, b) ->
  pt_depth a <> pt_depth b ->
  Ellipticipy.classify_path path (Toy.planet_of ds t) = Ok Ellipticipy.LS.
Proof.
  intros H Hd. unfold Ellipticipy.classify_path. rewrite H. cbn [bind].
  rewrite Req_bool_false by assumption.
  rewrite toy_delay_same. rewrite Rlt_bool_false by lra. reflexivity.
Qed.

Lemma toy_py_split d p t :
  Ellipticipy.split_ray_path (Toy.upgoing 0.1 d p) (Toy.planet_with t)
  = Ok ([[Toy.point p 0 0.1; Toy.point p 1 0]], [Ellipticipy.LS]).
Proof.
  unfold Ellipticipy.split_ray_path. cbn.
  unfold Ellipticipy.split_points. cbn. unfold R_in. cbn. eval_R.
  unfold Toy.planet_with.
  rewrite (toy_classify _ _ _ (Toy.point p 0 0.1) (Toy.point p 1 0)).
  - reflexivity.
  - unfold Ellipticipy.compared_points. eval_R. reflexivity.
  - cbn. lra.
Qed.

Lemma toy_py_integral d p t :
  exists r0 r1 r2,
  Ellipticipy.integral_coefficients (Toy.upgoing 0.1 d p) (Toy.planet_with t)
  = Ok [r0; r1; r2].
Proof.
  unfold Ellipticipy.integral_coefficients. rewrite toy_py_split. cbn.
  unfold Ellipticipy.segment_integral. cbn. eval_R.
  unfold Toy.planet_with. rewrite !toy_py_epsilon. cbn.
  destruct alp2_at_0 as (E0 & E1 & E2).
  repeat (progress (rewrite ?E0, ?E1, ?E2; cbn; autorewrite with pyidx)).
  do 3 eexists. reflexivity.
Qed.

Lemma toy_py_discontinuity d p t :
  exists r0 r1 r2,
  Ellipticipy.discontinuity_coefficients (Toy.upgoing 0.1 d p) (Toy.planet_with t)
  = Ok [r0; r1; r2].
Proof.
  unfold Ellipticipy.discontinuity_coefficients. rewrite toy_py_split. cbn.
  unfold Ellipticipy.segment_ends. eval_R.
  unfold Ellipticipy.discontinuity_contribution. cbn. eval_R.
  unfold Toy.planet_with. rewrite !toy_py_epsilon. cbn.
  unfold Ellipticipy.lambdas. cbn.
  destruct alp2_at_0 as (E0 & E1 & E2).
  repeat (progress (rewrite ?E0, ?E1, ?E2; cbn; autorewrite with pyidx)).
  do 3 eexists. reflexivity.
Qed.

(** ** Summing the contributions *)

Lemma py_sum_orders (sigmas : list (list R)) :
  (forall s, In s sigmas -> List.length s = 3%nat) ->
  Ellipticipy.sum_orders sigmas
  = Ok (map (fun k => Rsum (map (fun s => nth k s 0) sigmas)) [0; 1; 2]%nat).
Proof.
  intros Hlen. unfold Ellipticipy.sum_orders. cbn [mapM map].
  rewrite (mapM_map _ (fun s => nth 0 s 0)).
  2:{ intros s Hs. apply (py_index_nth s 0). rewrite (Hlen s Hs). lia. }
  cbn [bind].
  rewrite (mapM_map _ (fun s => nth 1 s 0)).
  2:{ intros s Hs. apply (py_index_nth s 1). rewrite (Hlen s Hs). lia. }
  cbn [bind].
  rewrite (mapM_map _ (fun s => nth 2 s 0)).
  2:{ intros s Hs. apply (py_index_nth s 2). rewrite (Hlen s Hs). lia. }
  reflexivity.
Qed.

Lemma sum_orders_same sigmas :
  Ellipticity.sum_orders sigmas = Ellipticipy.sum_orders sigmas.
Proof. reflexivity. Qed.


Ltac peel H :=
  repeat (cbv beta in H;
          lazymatch type of H with
          | mapM _ _ = Ok _ => fail
          | bind _ _ = Ok _ =>
              apply bind_Ok in H; destruct H as (? & _ & H)
          end).

Lemma py_segment_integral_length arrival model path wave s :
  Ellipticipy.segment_integral arrival model path wave = Ok s ->
  List.length s = 3%nat.
Proof.
  unfold Ellipticipy.segment_integral. intros H. peel H.
  apply mapM_length in H. exact H.
Qed.

Lemma discontinuity_contribution_length points phase model s :
  Ellipticipy.discontinuity_contribution points phase model = Ok s ->
  List.length s = 3%nat.
Proof.
  unfold Ellipticipy.discontinuity_contribution. intros H. peel H.
  apply mapM_length in H. exact H.
Qed.


Lemma segment_integral_length arrival model path wave s :
  Ellipticity.segment_integral arrival model path wave = Ok s ->
  List.length s = 3%nat.
Proof.
  unfold Ellipticity.segment_integral. intros H. peel H.
  apply mapM_length in H. exact H.
Qed.








(** ** The kinematic classifier *)


Lemma classify_diff path model point0 point1 :
  Ellipticipy.compared_points path = Ok (point0, point1) ->
  (Ellipticipy.classify_path path model = Ok Ellipticipy.LDiff
   <-> pt_depth point0 = pt_depth point1).
Proof.
  intros H. unfold Ellipticipy.classify_path. rewrite H. cbn [bind].
  destruct (Req_bool_spec (pt_depth point0) (pt_depth point1)) as [E | E].
  - tauto.
  - split; [|tauto]. destruct (Rlt_bool _ _); discriminate.
Qed.

Lemma classify_wave path model point0 point1 :
  Ellipticipy.compared_points path = Ok (point0, point1) ->
  pt_depth point0 <> pt_depth point1 ->
  let observed := pt_time point1 - pt_time point0
                  - pt_p point0 * Rabs (pt_dist point0 - pt_dist point1) in
  let delay w := Ellipticipy.expected_delay_time (pt_p point0)
                   (pt_depth point0) (pt_depth point1) w model in
  let rel w := Rabs (delay w / observed - 1) in
  (Ellipticipy.classify_path path model = Ok Ellipticipy.LP
   <-> rel PVel < rel SVel)
  /\ (Ellipticipy.classify_path path model = Ok Ellipticipy.LS
      <-> ~ rel PVel < rel SVel).
Proof.
  intros H Hd observed delay rel.
  unfold Ellipticipy.classify_path. rewrite H. cbn [bind].
  rewrite Req_bool_false by assumption.
  replace 1.0 with 1 by lra.
  fold observed. fold (delay PVel). fold (delay SVel).
  fold (rel PVel). fold (rel SVel).
  destruct (Rlt_bool_spec (rel PVel) (rel SVel)) as [E | E].
  - split; split; intros; try tauto; try discriminate.
  - split; split; intros; try tauto; try discriminate.
Qed.

Lemma classify_total path model point0 point1 :
  Ellipticipy.compared_points path = Ok (point0, point1) ->
  exists w, Ellipticipy.classify_path path model = Ok w.
Proof.
  intros H. unfold Ellipticipy.classify_path. rewrite H. cbn [bind].
  destruct (Req_bool _ _); [eauto|]. destruct (Rlt_bool _ _); eauto.
Qed.

Lemma mapM_combine {A B} (f : A -> res B) l bs a b :
  mapM f l = Ok bs -> In (a, b) (combine l bs) -> f a = Ok b.
Proof.
  revert bs. induction l as [|a0 l IH]; cbn; intros bs H Hin.
  - injection H as <-. destruct Hin.
  - apply bind_Ok in H as (b0 & Hb0 & H).
    apply bind_Ok in H as (bs' & Hbs & H). injection H as <-.
    cbn in Hin. destruct Hin as [E | Hin].
    + injection E as <- <-. exact Hb0.
    + eapply IH; eassumption.
Qed.

Lemma combine_fst_snd {A B} (k : list (A * B)) :
  combine (map fst k) (map snd k) = k.
Proof.
  induction k as [|[a b] k IH]; cbn; [reflexivity|]. rewrite IH. reflexivity.
Qed.

(** [split_ray_path] keeps the classified segments that are not
    diffracted, each with its label. *)
Lemma split_ray_path_kept arrival model paths waves :
  Ellipticipy.split_ray_path arrival model = Ok (paths, waves) ->
  List.length paths = List.length waves
  /\ forall seg w, In (seg, w) (combine paths waves) ->
       w <> Ellipticipy.LDiff
       /\ Ellipticipy.classify_path seg model = Ok w.
Proof.
  unfold Ellipticipy.split_ray_path. intros H.
  apply bind_Ok in H as (full_path & _ & H).
  apply bind_Ok in H as (dpaths & _ & H).
  apply bind_Ok in H as (dwaves & Hw & H).
  injection H as <- <-. split.
  - rewrite !length_map. reflexivity.
  - intros seg w Hin. rewrite combine_fst_snd in Hin.
    apply filter_In in Hin as [Hin Hkeep]. split.
    + intros ->. discriminate.
    + apply (mapM_combine _ _ _ _ _ Hw Hin).
Qed.




(** ** Boundary points left out of the sum *)

Lemma foldM_filter {A S} (g : A -> bool) (f : S -> A -> res S) l s :
  foldM (fun st a => if g a then f st a else Ok st) l s
  = foldM f (filter g l) s.
Proof.
  revert s. induction l as [|a l IH]; intros s; cbn; [reflexivity|].
  destruct (g a); cbn.
  - destruct (f s a); cbn; [apply IH | reflexivity].
  - apply IH.
Qed.

Lemma summed_diffracted arrival model discs d i :
  contains "diff" (name arrival) = true ->
  Ellipticity.dep i = cmb_depth model * 1e3 ->
  Ellipticity.summed arrival model discs d i = false.
Proof.
  intros Hname Hdep. unfold Ellipticity.summed.
  rewrite Hname, Req_bool_true by assumption. reflexivity.
Qed.

Lemma summed_bottoming arrival model discs d i :
  d <> 0%nat ->
  R_in (round5 (Ellipticity.dep i * 1e-3)) discs = false ->
  Ellipticity.summed arrival model discs d i = false.
Proof.
  intros Hd Hdisc. unfold Ellipticity.summed. rewrite Hdisc.
  replace (d =? 0)%nat with false by (symmetry; apply Nat.eqb_neq; exact Hd).
  destruct (_ && _)%bool; reflexivity.
Qed.

Lemma discontinuity_coefficients_skips arrival model paths wave_paths pts :
  path arrival = Some pts ->
  Ellipticity.discontinuity_coefficients arrival model paths wave_paths
  = (idiscs <- Ellipticity.interacting_points arrival model pts ;;
     ' (_, sigmas) <-
       foldM (Ellipticity.boundary_step arrival model pts wave_paths)
             (filter (fun di =>
                        Ellipticity.summed arrival model
                          (removelast (get_discontinuity_depths model))
                          (fst di) (snd di))
                     (enumerate idiscs))
             (None, []) ;;
     Ellipticity.sum_sigmas sigmas).
Proof.
  intros Hpath. unfold Ellipticity.discontinuity_coefficients.
  rewrite Hpath. cbn [attr bind].
  destruct (Ellipticity.interacting_points arrival model pts); cbn [bind];
    [|reflexivity].
  rewrite (foldM_filter
             (fun di => Ellipticity.summed arrival model
                          (removelast (get_discontinuity_depths model))
                          (fst di) (snd di))).
  reflexivity.
Qed.

Lemma list3_zero (sigma : list R) :
  List.length sigma = 3%nat -> (forall x, In x sigma -> x = 0) ->
  sigma = [0; 0; 0].
Proof.
  destruct sigma as [|a [|b [|c [|]]]]; try discriminate. intros _ H.
  rewrite (H a), (H b), (H c); cbn; auto.
Qed.

(** In [src/ellipticipy/tools.py] an end point whose neighbour has the
    same depth gets the vertical slowness 0, and with it the product
    [-sign * 0.0 * epsilon * lam]. *)
Lemma level_end_contributes_zero points phase model sigma :
  pt_depth (snd points) = pt_depth (fst points) ->
  Ellipticipy.discontinuity_contribution points phase model = Ok sigma ->
  sigma = [0; 0; 0].
Proof.
  intros Hlevel H.
  pose proof (discontinuity_contribution_length _ _ _ _ H) as Hlen.
  apply list3_zero; [exact Hlen|]. intros x Hx.
  unfold Ellipticipy.discontinuity_contribution in H. peel H.
  destruct (mapM_In _ _ _ _ H Hx) as (m & _ & Hm).
  apply bind_Ok in Hm as (lam_m & _ & Hm). injection Hm as <-.
  rewrite Req_bool_true by assumption. lra.
Qed.

Lemma vertical_slowness_value eta p s :
  0 <= s -> eta ^ 2 - p ^ 2 = s * s -> Ellipticipy.vertical_slowness eta p = s.
Proof.
  intros Hs H. rewrite vertical_slowness_clamped, H.
  rewrite Rmax_right by nra. apply sqrt_square. exact Hs.
Qed.

Lemma classify_level path model a b :
  Ellipticipy.compared_points path = Ok (a, b) ->
  pt_depth a = pt_depth b ->
  Ellipticipy.classify_path path model = Ok Ellipticipy.LDiff.
Proof. intros H E. apply (classify_diff _ _ _ _ H). exact E. Qed.

Lemma toy_diffracted_split p :
  Ellipticipy.split_ray_path (Toy.diffracted p) Toy.cored_planet
  = Ok ([[Toy.point p 0 0; Toy.point p 1 0.5];
         [Toy.point p 2 0.5; Toy.point p 3 0]],
        [Ellipticipy.LS; Ellipticipy.LS]).
Proof.
  unfold Ellipticipy.split_ray_path. cbn.
  unfold Ellipticipy.split_points. cbn. unfold R_in. cbn. eval_R.
  unfold Toy.cored_planet.
  rewrite (toy_classify _ _ _ (Toy.point p 0 0) (Toy.point p 1 0.5)).
  2:{ unfold Ellipticipy.compared_points. eval_R. reflexivity. }
  2:{ cbn. lra. }
  cbn.
  rewrite (classify_level _ _ (Toy.point p 1 0.5) (Toy.point p 2 0.5)).
  2:{ unfold Ellipticipy.compared_points. eval_R. reflexivity. }
  2:{ reflexivity. }
  cbn.
  rewrite (toy_classify _ _ _ (Toy.point p 2 0.5) (Toy.point p 3 0)).
  2:{ unfold Ellipticipy.compared_points. eval_R. reflexivity. }
  2:{ cbn. lra. }
  reflexivity.
Qed.

Lemma toy_cmb_contribution t ds time time' :
  Ellipticipy.discontinuity_contribution
    (Toy.point 0.3 time 0.5, Toy.point 0.3 time' 0) Ellipticipy.LS
    (Toy.planet_of ds t)
  = Ok [4 / 15; 0; 0].
Proof.
  unfold Ellipticipy.discontinuity_contribution. cbn. eval_R.
  rewrite toy_py_epsilon. cbn.
  unfold Ellipticipy.lambdas. cbn.
  destruct alp2_at_0 as (E0 & E1 & E2).
  repeat (progress (rewrite ?E0, ?E1, ?E2; cbn; autorewrite with pyidx)).
  rewrite (vertical_slowness_value _ _ 0.4) by lra.
  unfold np_sign. eval_R.
  f_equal.
  f_equal; [lra|].
  f_equal; [lra|].
  f_equal. lra.
Qed.

Lemma toy_surface_contribution t ds time time' :
  Ellipticipy.discontinuity_contribution
    (Toy.point 0.3 time 0, Toy.point 0.3 time' 0.5) Ellipticipy.LS
    (Toy.planet_of ds t)
  = Ok [- (2 / 3) * Ellipticipy.vertical_slowness 1 0.3; 0; 0].
Proof.
  unfold Ellipticipy.discontinuity_contribution. cbn. eval_R.
  rewrite toy_py_epsilon. cbn.
  unfold Ellipticipy.lambdas. cbn.
  destruct alp2_at_0 as (E0 & E1 & E2).
  repeat (progress (rewrite ?E0, ?E1, ?E2; cbn; autorewrite with pyidx)).
  unfold np_sign. eval_R.
  replace ((1 - 0) / 1) with 1 by lra.
  f_equal.
  f_equal; [lra|].
  f_equal; [lra|].
  f_equal. lra.
Qed.

Lemma toy_diffracted_discontinuity :
  Ellipticipy.discontinuity_coefficients (Toy.diffracted 0.3) Toy.cored_planet
  = Ok [8 / 15 - 4 / 3 * Ellipticipy.vertical_slowness 1 0.3; 0; 0].
Proof.
  unfold Ellipticipy.discontinuity_coefficients.
  rewrite toy_diffracted_split. cbn.
  unfold Ellipticipy.segment_ends. eval_R.
  unfold Toy.cored_planet.
  rewrite !toy_cmb_contribution, !toy_surface_contribution. cbn.
  unfold Ellipticipy.sum_orders. cbn. autorewrite with pyidx. cbn.
  unfold Rsum. cbn.
  f_equal.
  f_equal; [lra|].
  f_equal; [lra|].
  f_equal. lra.
Qed.

Lemma toy_level_contribution t ds p time time' :
  exists sigma,
    Ellipticipy.discontinuity_contribution
      (Toy.point p time 0.5, Toy.point p time' 0.5) Ellipticipy.LS
      (Toy.planet_of ds t) = Ok sigma.
Proof.
  unfold Ellipticipy.discontinuity_contribution. cbn. eval_R.
  rewrite toy_py_epsilon. cbn.
  unfold Ellipticipy.lambdas. cbn.
  destruct alp2_at_0 as (E0 & E1 & E2).
  repeat (progress (rewrite ?E0, ?E1, ?E2; cbn; autorewrite with pyidx)).
  eexists. reflexivity.
Qed.

Lemma In_combine_fst {A B} (l : list A) (l' : list B) (a : A) :
  List.length l = List.length l' -> In a l ->
  exists b, In (a, b) (combine l l').
Proof.
  revert l'. induction l as [|x l IH]; intros [|y l'] Hlen Hin;
    try discriminate; [destruct Hin|].
  destruct Hin as [<- | Hin].
  - exists y. left. reflexivity.
  - destruct (IH l' ltac:(cbn in Hlen; lia) Hin) as (b & Hb).
    exists b. right. exact Hb.
Qed.

(** The segments [split_ray_path] returns all change depth between the
    two points the classifier compares: the others were removed. *)
Lemma kept_segments_change_depth arrival model paths waves seg :
  Ellipticipy.split_ray_path arrival model = Ok (paths, waves) ->
  In seg paths ->
  exists point0 point1,
    Ellipticipy.compared_points seg = Ok (point0, point1)
    /\ pt_depth point0 <> pt_depth point1.
Proof.
  intros H Hin.
  destruct (split_ray_path_kept _ _ _ _ H) as [Hlen Hall].
  destruct (In_combine_fst paths waves seg Hlen Hin) as (w & Hw).
  destruct (Hall seg w Hw) as [Hnd Hc].
  pose proof Hc as Hc'. unfold Ellipticipy.classify_path in Hc'.
  apply bind_Ok in Hc' as ([a b] & Hcp & _).
  exists a, b. split; [exact Hcp|]. intros E. apply Hnd.
  apply (classify_diff seg model a b Hcp) in E. congruence.
Qed.

(** Where the ray grazes, [(r / v)^2 <= p^2], the clamp gives the
    vertical slowness 0 and the three terms are 0. *)
Lemma grazing_end_contributes_zero points phase pr model sigma :
  Ellipticipy.prop_of_label phase = Ok pr ->
  ((radius_of_planet model - pt_depth (fst points))
   / (if Rle_bool (pt_depth (fst points)) (pt_depth (snd points))
      then evaluate_below model (pt_depth (fst points)) pr
      else evaluate_above model (pt_depth (fst points)) pr)) ^ 2
  <= pt_p (fst points) ^ 2 ->
  Ellipticipy.discontinuity_contribution points phase model = Ok sigma ->
  sigma = [0; 0; 0].
Proof.
  intros Hpr Hgraze H.
  pose proof (discontinuity_contribution_length _ _ _ _ H) as Hlen.
  apply list3_zero; [exact Hlen|]. intros x Hx.
  unfold Ellipticipy.discontinuity_contribution in H. cbv zeta in H.
  rewrite Hpr in H. cbn [bind] in H.
  apply bind_Ok in H as (eps & _ & H).
  apply bind_Ok in H as (lam & _ & H).
  destruct (mapM_In _ _ _ _ H Hx) as (m & _ & Hm).
  apply bind_Ok in Hm as (lam_m & _ & Hm). injection Hm as <-.
  rewrite vertical_slowness_clamped.
  rewrite Rmax_left by lra.
  rewrite sqrt_0. destruct (Req_bool _ _); lra.
Qed.

(** The boundary sum of [src/ellipticipy/tools.py] reads the arrival
    through its path only: the phase name plays no part. *)
Lemma boundary_sum_reads_path arrival arrival' model :
  path arrival' = path arrival ->
  Ellipticipy.discontinuity_coefficients arrival' model
  = Ellipticipy.discontinuity_coefficients arrival model.
Proof.
  intros H. unfold Ellipticipy.discontinuity_coefficients,
    Ellipticipy.split_ray_path. rewrite H. reflexivity.
Qed.

Lemma toy_end_contribution t ds p time depth nb :
  exists sigma,
    Ellipticipy.discontinuity_contribution
      (Toy.point p time depth, nb) Ellipticipy.LS (Toy.planet_of ds t)
    = Ok sigma.
Proof.
  unfold Ellipticipy.discontinuity_contribution. cbn.
  rewrite toy_py_epsilon. cbn.
  unfold Ellipticipy.lambdas. cbn.
  destruct alp2_at_0 as (E0 & E1 & E2).
  repeat (progress (rewrite ?E0, ?E1, ?E2; cbn; autorewrite with pyidx)).
  eexists. reflexivity.
Qed.

(** C7, as amended.  In [src/ellipticity/tools.py] every entry of the
    boundary list at the core-mantle boundary of a phase whose name
    contains "diff", and every entry but the first whose depth is not a
    model discontinuity (it is there as the bottoming point only), is
    left out: the loop and the final sum run over the remaining entries
    alone.  [src/ellipticipy/tools.py] leaves nothing out by phase name or
    by bottoming depth: its boundary sum reads the arrival through its
    path only.  There the segments whose two compared points have the
    same depth are removed by [split_ray_path] before the sum, which runs
    over the two ends of the segments that are left; an end point whose
    neighbour in its segment has the same depth enters as a product with
    a vertical slowness of 0, which makes its three terms 0, and so does,
    for a velocity that is not zero there, an end point where the ray
    grazes ([(r / v)^2 <= p^2], the slowness being clamped to 0). *)
Theorem excluded_boundary_points (arrival : Arrival) (model : TauModel)
    (paths : list (list PathPoint)) (wave_paths : list (list ascii))
    (pts : list PathPoint) :
  path arrival = Some pts ->
  let discs := removelast (get_discontinuity_depths model) in
  (forall d i,
     contains "diff" (name arrival) = true ->
     Ellipticity.dep i = cmb_depth model * 1e3 ->
     Ellipticity.summed arrival model discs d i = false)
  /\ (forall d i,
        d <> 0%nat ->
        R_in (round5 (Ellipticity.dep i * 1e-3)) discs = false ->
        Ellipticity.summed arrival model discs d i = false)
  /\ Ellipticity.discontinuity_coefficients arrival model paths wave_paths
     = (idiscs <- Ellipticity.interacting_points arrival model pts ;;
        ' (_, sigmas) <-
          foldM (Ellipticity.boundary_step arrival model pts wave_paths)
                (filter (fun di =>
                           Ellipticity.summed arrival model discs
                             (fst di) (snd di))
                        (enumerate idiscs))
                (None, []) ;;
        Ellipticity.sum_sigmas sigmas)
  /\ (forall points phase sigma,
        pt_depth (snd points) = pt_depth (fst points) ->
        Ellipticipy.discontinuity_contribution points phase model
        = Ok sigma ->
        sigma = [0; 0; 0])
  /\ (forall arrival',
        path arrival' = path arrival ->
        Ellipticipy.discontinuity_coefficients arrival' model
        = Ellipticipy.discontinuity_coefficients arrival model)
  /\ (forall kept waves,
        Ellipticipy.split_ray_path arrival model = Ok (kept, waves) ->
        (forall seg, In seg kept ->
           exists point0 point1,
             Ellipticipy.compared_points seg = Ok (point0, point1)
             /\ pt_depth point0 <> pt_depth point1)
        /\ Ellipticipy.discontinuity_coefficients arrival model
           = (sigmas <- mapM (fun pw => Ellipticipy.segment_ends model
                                          (fst pw) (snd pw))
                             (combine kept waves) ;;
              Ellipticipy.sum_orders sigmas))
  /\ (forall points phase pr sigma,
        Ellipticipy.prop_of_label phase = Ok pr ->
        let depth := pt_depth (fst points) in
        let v := if Rle_bool depth (pt_depth (snd points))
                 then evaluate_below model depth pr
                 else evaluate_above model depth pr in
        v <> 0 ->
        (forall l, In l (layers model) -> top_depth l <> bot_depth l) ->
        ((radius_of_planet model - depth) / v) ^ 2
        <= pt_p (fst points) ^ 2 ->
        Ellipticipy.discontinuity_contribution points phase model
        = Ok sigma ->
        sigma = [0; 0; 0]).
Proof.
  intros Hpath discs.
  split; [intros d i; apply summed_diffracted|].
  split; [intros d i; apply summed_bottoming|].
  split; [apply discontinuity_coefficients_skips; exact Hpath|].
  split; [intros points phase sigma; apply level_end_contributes_zero|].
  split; [intros arrival'; apply boundary_sum_reads_path|].
  split.
  - intros kept waves Hsplit. split.
    + intros seg Hseg.
      apply (kept_segments_change_depth _ _ _ _ _ Hsplit Hseg).
    + unfold Ellipticipy.discontinuity_coefficients. rewrite Hsplit.
      reflexivity.
  - intros points phase pr sigma Hpr depth v _ _ Hgraze.
    apply (grazing_end_contributes_zero points phase pr model sigma Hpr).
    exact Hgraze.
Qed.

Lemma excluded_boundary_points_witness :
  Ellipticity.summed (Toy.diffracted 0.3) Toy.cored_planet [0; 0.5] 1
    {| Ellipticity.ind := 1; Ellipticity.order := 1;
       Ellipticity.dep := 0.5 * 1e3; Ellipticity.r := 0.5 * 1e3;
       Ellipticity.dist := 0; Ellipticity.p := 0.3 |} = false
  /\ Ellipticity.summed (Toy.diffracted 0.3) Toy.cored_planet [0; 0.5] 1
       {| Ellipticity.ind := 1; Ellipticity.order := 1;
          Ellipticity.dep := 0.3 * 1e3; Ellipticity.r := 0.7 * 1e3;
          Ellipticity.dist := 0; Ellipticity.p := 0.3 |} = false
  /\ (exists sigma,
        Ellipticipy.discontinuity_contribution
          (Toy.point 0.3 1 0.5, Toy.point 0.3 2 0.5) Ellipticipy.LS
          Toy.cored_planet = Ok sigma
        /\ sigma = [0; 0; 0])
  /\ (forall seg,
        In seg [[Toy.point 0.3 0 0; Toy.point 0.3 1 0.5];
                [Toy.point 0.3 2 0.5; Toy.point 0.3 3 0]] ->
        exists point0 point1,
          Ellipticipy.compared_points seg = Ok (point0, point1)
          /\ pt_depth point0 <> pt_depth point1)
  /\ (exists sigma,
        Ellipticipy.discontinuity_contribution
          (Toy.point 0.5 1 0.5, Toy.point 0.5 0 0) Ellipticipy.LS
          Toy.cored_planet = Ok sigma
        /\ sigma = [0; 0; 0]).
Proof.
  pose proof (excluded_boundary_points (Toy.diffracted 0.3) Toy.cored_planet
                [] []
                [Toy.point 0.3 0 0; Toy.point 0.3 1 0.5; Toy.point 0.3 2 0.5;
                 Toy.point 0.3 3 0] eq_refl)
    as (H1 & H2 & _ & H4 & _ & H6 & H7).
  split; [apply H1; [reflexivity | cbn; lra]|].
  split.
  - apply H2; [discriminate|]. cbn [Ellipticity.dep].
    rewrite (round5_exact _ 30000) by lra.
    unfold R_in. cbn. decide_R. reflexivity.
  - split; [|split].
    + destruct (toy_level_contribution Toy.tracer [0; 0.5; 1] 0.3 1 2)
        as (sigma & Hs).
      exists sigma. split; [exact Hs|].
      apply (H4 (Toy.point 0.3 1 0.5, Toy.point 0.3 2 0.5) Ellipticipy.LS
                sigma eq_refl Hs).
    + apply (proj1 (H6 _ _ (toy_diffracted_split 0.3))).
    + destruct (toy_end_contribution Toy.tracer [0; 0.5; 1] 0.5 1 0.5
                  (Toy.point 0.5 0 0)) as (sigma & Hs).
      exists sigma. split; [exact Hs|].
      apply (H7 (Toy.point 0.5 1 0.5, Toy.point 0.5 0 0) Ellipticipy.LS SVel
                sigma eq_refl).
      * cbn. destruct (Rle_bool 0.5 0); lra.
      * intros l [<- | []]. cbn. lra.
      * cbn. destruct (Rle_bool 0.5 0); lra.
      * exact Hs.
Defined.

(** C7 as stated fails in [src/ellipticipy/tools.py].  On the planet
    with a core-mantle boundary, the ray named "Pdiff" that runs along
    that boundary keeps its two legs; the end of the downgoing leg on the
    boundary contributes 4/15 to the first coefficient, and this term is
    part of the sum. *)
Lemma diffracted_boundary_contributes :
  contains "diff" (name (Toy.diffracted 0.3)) = true
  /\ pt_depth (Toy.point 0.3 1 0.5) = cmb_depth Toy.cored_planet
  /\ Ellipticipy.split_ray_path (Toy.diffracted 0.3) Toy.cored_planet
     = Ok ([[Toy.point 0.3 0 0; Toy.point 0.3 1 0.5];
            [Toy.point 0.3 2 0.5; Toy.point 0.3 3 0]],
           [Ellipticipy.LS; Ellipticipy.LS])
  /\ Ellipticipy.discontinuity_contribution
       (Toy.point 0.3 1 0.5, Toy.point 0.3 0 0) Ellipticipy.LS
       Toy.cored_planet = Ok [4 / 15; 0; 0]
  /\ Ellipticipy.discontinuity_coefficients (Toy.diffracted 0.3)
       Toy.cored_planet
     = Ok [8 / 15 - 4 / 3 * Ellipticipy.vertical_slowness 1 0.3; 0; 0]
  /\ 4 / 15 <> 0.
Proof.
  split; [reflexivity|].
  split; [reflexivity|].
  split; [apply toy_diffracted_split|].
  split; [apply toy_cmb_contribution|].
  split; [apply toy_diffracted_discontinuity|lra].
Qed.

(** ** Segmentation *)

Lemma where_true_lower s bs i : In i (Ellipticipy.where_true s bs) -> (s <= i)%nat.
Proof.
  revert s. induction bs as [|b bs IH]; intros s H; [destruct H|].
  cbn in H. destruct b.
  - destruct H as [<- | H]; [lia|]. apply IH in H. lia.
  - apply IH in H. lia.
Qed.

Lemma np_split_head {A} k (x : A) l idx :
  (forall i, In i idx -> (k < i)%nat) ->
  exists t others,
    Ellipticipy.np_split_from k (x :: l) idx = (x :: t) :: others.
Proof.
  intros H. destruct idx as [|i idx]; cbn.
  - eauto.
  - assert (Hi : (k < i)%nat) by (apply H; left; reflexivity).
    destruct (i - k)%nat as [|n] eqn:E; [lia|]. cbn. eauto.
Qed.

Lemma append_next_head_cons {A} (s : list A) x t others :
  Ellipticipy.append_next_head (s :: (x :: t) :: others)
  = (r <- Ellipticipy.append_next_head ((x :: t) :: others) ;;
     Ok ((s ++ [x]) :: r)).
Proof.
  cbn [Ellipticipy.append_next_head]. rewrite py_index_0. reflexivity.
Qed.

Lemma split_closed {A} (b : A -> bool) (rest cur : list A) (start : nat) :
  cur <> [] ->
  Ellipticipy.append_next_head
    (Ellipticipy.np_split_from start (cur ++ rest)
       (Ellipticipy.where_true (start + List.length cur) (map b rest)))
  = Ok (Spec.cut_closed b cur rest).
Proof.
  revert cur start. induction rest as [|x rest IH]; intros cur start Hcur.
  - cbn. reflexivity.
  - cbn [map Ellipticipy.where_true Spec.cut_closed]. destruct (b x) eqn:Hb.
    + cbn [Ellipticipy.np_split_from].
      replace (start + List.length cur - start)%nat with (List.length cur)
        by lia.
      rewrite firstn_app, Nat.sub_diag, firstn_all, firstn_O, app_nil_r.
      rewrite skipn_app, Nat.sub_diag, skipn_all. cbn [skipn app].
      specialize (IH [x] (start + List.length cur)%nat).
      cbn [List.length app] in IH.
      replace (S (start + List.length cur)) with (start + List.length cur + 1)%nat
        by lia.
      destruct (np_split_head (start + List.length cur) x rest
                  (Ellipticipy.where_true (start + List.length cur + 1) (map b rest)))
        as (t & others & Hsplit).
      { intros i Hi. apply where_true_lower in Hi. lia. }
      rewrite Hsplit in *. rewrite append_next_head_cons.
      rewrite IH by discriminate. reflexivity.
    + specialize (IH (cur ++ [x]) start).
      rewrite length_app in IH. cbn [List.length] in IH.
      rewrite <- app_assoc in IH. cbn [app] in IH.
      replace (S (start + List.length cur)) with (start + (List.length cur + 1))%nat
        by lia.
      apply IH. destruct cur; discriminate.
Qed.

Lemma split_points_closed pts model :
  pts <> [] ->
  Ellipticipy.split_points pts model
  = Ok (Spec.closed_segments
          (fun pt => R_in (pt_depth pt)
                       (removelast (get_discontinuity_depths model)))
          pts).
Proof.
  intros Hne. destruct pts as [|x rest]; [congruence|].
  unfold Ellipticipy.split_points, Ellipticipy.np_split. cbn [map bind].
  cbn [Ellipticipy.where_true Spec.closed_segments].
  rewrite map_map.
  apply (split_closed
           (fun pt => R_in (pt_depth pt)
                        (removelast (get_discontinuity_depths model)))
           rest [x] 0).
  discriminate.
Qed.

(** *** What the two cuts guarantee *)

Lemma last_error_app {A} (l : list A) x : last_error (l ++ [x]) = Some x.
Proof.
  destruct l as [|a l]; cbn; [reflexivity|]. f_equal. apply last_last.
Qed.

Lemma cut_shared_head {A} (b : A -> bool) c0 cur rest :
  exists t others, Spec.cut_shared b (c0 :: cur) rest = (c0 :: t) :: others.
Proof.
  revert cur. induction rest as [|x rest IH]; intros cur; cbn.
  - eauto.
  - destruct rest as [|y rest']; [cbn; eauto|].
    destruct (b x); [cbn; eauto|].
    apply (IH (cur ++ [x])).
Qed.

Lemma cut_closed_head {A} (b : A -> bool) c0 cur rest :
  Spec.cut_closed b (c0 :: cur) rest = []
  \/ exists t others, Spec.cut_closed b (c0 :: cur) rest = (c0 :: t) :: others.
Proof.
  revert cur. induction rest as [|x rest IH]; intros cur; cbn.
  - left. reflexivity.
  - destruct (b x); [right; cbn; eauto|].
    apply (IH (cur ++ [x])).
Qed.

Lemma joined_cons {A} (s s' : list A) rest x :
  last_error s = Some x -> hd_error s' = Some x ->
  Spec.joined (s' :: rest) -> Spec.joined (s :: s' :: rest).
Proof. intros H1 H2 H3. cbn. split; [eauto | exact H3]. Qed.

Lemma cut_shared_joined {A} (b : A -> bool) cur rest :
  cur <> [] -> Spec.joined (Spec.cut_shared b cur rest).
Proof.
  revert cur. induction rest as [|x rest IH]; intros cur Hcur; cbn.
  - exact I.
  - destruct rest as [|y rest']; [exact I|].
    destruct (b x).
    + destruct (cut_shared_head b x [] (y :: rest')) as (t & others & E).
      cbn [app] in E. rewrite E. apply (joined_cons _ _ _ x).
      * apply last_error_app.
      * reflexivity.
      * rewrite <- E. apply IH. discriminate.
    + apply IH. destruct cur; discriminate.
Qed.

Lemma cut_closed_joined {A} (b : A -> bool) cur rest :
  cur <> [] -> Spec.joined (Spec.cut_closed b cur rest).
Proof.
  revert cur. induction rest as [|x rest IH]; intros cur Hcur; cbn.
  - exact I.
  - destruct (b x).
    + destruct (cut_closed_head b x [] rest) as [E | (t & others & E)];
        cbn [app] in E; rewrite E.
      * exact I.
      * apply (joined_cons _ _ _ x).
        -- apply last_error_app.
        -- reflexivity.
        -- rewrite <- E. apply IH. discriminate.
    + apply IH. destruct cur; discriminate.
Qed.

Lemma tl_app {A} (l l' : list A) : l <> [] -> tl (l ++ l') = tl l ++ l'.
Proof. destruct l; [congruence | reflexivity]. Qed.

Lemma cut_shared_tails {A} (b : A -> bool) cur rest :
  cur <> [] ->
  flat_map (@tl A) (Spec.cut_shared b cur rest) = tl cur ++ rest.
Proof.
  revert cur. induction rest as [|x rest IH]; intros cur Hcur.
  - cbn. rewrite !app_nil_r. reflexivity.
  - cbn [Spec.cut_shared]. destruct rest as [|y rest'].
    + cbn. rewrite app_nil_r. apply tl_app. exact Hcur.
    + destruct (b x).
      * cbn [flat_map]. rewrite IH by discriminate. cbn [tl app].
        rewrite tl_app by exact Hcur. rewrite <- app_assoc. reflexivity.
      * rewrite IH by (destruct cur; discriminate).
        rewrite tl_app by exact Hcur. rewrite <- app_assoc. reflexivity.
Qed.

Lemma cut_shared_glue {A} (b : A -> bool) c0 cur rest :
  Spec.glue (Spec.cut_shared b (c0 :: cur) rest) = (c0 :: cur) ++ rest.
Proof.
  destruct (cut_shared_head b c0 cur rest) as (t & others & E).
  pose proof (cut_shared_tails b (c0 :: cur) rest) as H.
  rewrite E in *. cbn [Spec.glue]. cbn [flat_map tl] in H.
  specialize (H ltac:(discriminate)). cbn [tl] in H.
  cbn [app]. f_equal. exact H.
Qed.

Lemma Forall_removelast {A} (P : A -> Prop) l :
  Forall P l -> Forall P (removelast l).
Proof.
  induction 1 as [|a l Ha Hl IH]; cbn; [constructor|].
  destruct l; [constructor|]. constructor; assumption.
Qed.

Lemma interior_app_last {A} (cur : list A) x :
  cur <> [] -> Spec.interior (cur ++ [x]) = tl cur.
Proof.
  intros H. unfold Spec.interior. rewrite tl_app by exact H.
  apply removelast_last.
Qed.

Lemma cut_shared_interior {A} (b : A -> bool) cur rest :
  cur <> [] ->
  Forall (fun x => b x = false) (tl cur) ->
  Forall (fun s => Forall (fun x => b x = false) (Spec.interior s))
         (Spec.cut_shared b cur rest).
Proof.
  revert cur. induction rest as [|x rest IH]; intros cur Hcur Hin.
  - cbn. constructor; [|constructor]. apply Forall_removelast. exact Hin.
  - cbn [Spec.cut_shared]. destruct rest as [|y rest'].
    + constructor; [|constructor]. rewrite interior_app_last; assumption.
    + destruct (b x) eqn:Hb.
      * constructor; [rewrite interior_app_last; assumption|].
        apply IH; [discriminate | constructor].
      * apply IH; [destruct cur; discriminate|].
        rewrite tl_app by exact Hcur. apply Forall_app. split; [exact Hin|].
        constructor; [exact Hb | constructor].
Qed.

Lemma cut_closed_interior {A} (b : A -> bool) cur rest :
  cur <> [] ->
  Forall (fun x => b x = false) (tl cur) ->
  Forall (fun s => Forall (fun x => b x = false) (Spec.interior s))
         (Spec.cut_closed b cur rest).
Proof.
  revert cur. induction rest as [|x rest IH]; intros cur Hcur Hin.
  - constructor.
  - cbn [Spec.cut_closed]. destruct (b x) eqn:Hb.
    + constructor; [rewrite interior_app_last; assumption|].
      apply IH; [discriminate | constructor].
    + apply IH; [destruct cur; discriminate|].
      rewrite tl_app by exact Hcur. apply Forall_app. split; [exact Hin|].
      constructor; [exact Hb | constructor].
Qed.

Lemma cut_shared_ends {A} (b : A -> bool) cur rest :
  cur <> [] ->
  Forall (fun s => exists x, last_error s = Some x /\ b x = true)
         (removelast (Spec.cut_shared b cur rest)).
Proof.
  revert cur. induction rest as [|x rest IH]; intros cur Hcur.
  - constructor.
  - cbn [Spec.cut_shared]. destruct rest as [|y rest'].
    + constructor.
    + destruct (b x) eqn:Hb.
      * destruct (cut_shared_head b x [] (y :: rest')) as (t & others & E).
        cbn [app] in E.
        specialize (IH [x] ltac:(discriminate)). rewrite E in *.
        cbn [removelast]. cbn [removelast] in IH.
        constructor; [|exact IH].
        exists x. split; [apply last_error_app | exact Hb].
      * apply IH. destruct cur; discriminate.
Qed.

Lemma cut_closed_ends {A} (b : A -> bool) cur rest :
  Forall (fun s => exists x, last_error s = Some x /\ b x = true)
         (Spec.cut_closed b cur rest).
Proof.
  revert cur. induction rest as [|x rest IH]; intros cur.
  - constructor.
  - cbn [Spec.cut_closed]. destruct (b x) eqn:Hb.
    + constructor; [|apply IH].
      exists x. split; [apply last_error_app | exact Hb].
    + apply IH.
Qed.

Lemma cut_closed_prefix {A} (b : A -> bool) cur rest :
  cur <> [] ->
  exists tail,
    Forall (fun x => b x = false) tail
    /\ match Spec.cut_closed b cur rest with
       | [] => rest = tail
       | segs => cur ++ rest = Spec.glue segs ++ tail
       end.
Proof.
  revert cur. induction rest as [|x rest IH]; intros cur Hcur.
  - exists []. split; [constructor | reflexivity].
  - cbn [Spec.cut_closed]. destruct (b x) eqn:Hb.
    + destruct (IH [x] ltac:(discriminate)) as (tail & Htail & H).
      exists tail. split; [exact Htail|].
      destruct (cut_closed_head b x [] rest) as [E | (t & others & E)];
        cbn [app] in E; rewrite E in *.
      * subst tail. cbn [Spec.glue flat_map]. rewrite app_nil_r.
        rewrite <- app_assoc. reflexivity.
      * cbn [Spec.glue flat_map tl app] in *. injection H as H.
        rewrite <- !app_assoc. cbn [app]. rewrite H.
        rewrite <- !app_assoc. reflexivity.
    + destruct (IH (cur ++ [x]) ltac:(destruct cur; discriminate))
        as (tail & Htail & H).
      destruct (Spec.cut_closed b (cur ++ [x]) rest) eqn:E.
      * exists (x :: tail). split; [constructor; assumption|].
        subst tail. reflexivity.
      * exists tail. split; [exact Htail|].
        rewrite <- H, <- app_assoc. reflexivity.
Qed.

(** *** The loops of [ray_path] *)

Lemma py_index_ok {A} (l : list A) (z : Z) :
  (0 <= z < Z.of_nat (List.length l))%Z -> exists a, py_index l z = Ok a.
Proof.
  intros Hz. destruct (nth_error l (Z.to_nat z)) as [a|] eqn:E.
  - exists a. rewrite <- (Z2Nat.id z) by lia. apply py_index_nat. exact E.
  - apply nth_error_None in E. lia.
Qed.

Lemma dict_append_at {A} (done : list (list A)) cur tail x :
  Ellipticity.dict_append (done ++ cur :: tail) (Z.of_nat (List.length done)) x
  = Ok (done ++ (cur ++ [x]) :: tail).
Proof.
  unfold Ellipticity.dict_append.
  assert (E1 : (Z.of_nat (List.length done) <? 0)%Z = false)
    by (apply Z.ltb_ge; lia).
  assert (E2 : (Z.of_nat (List.length (done ++ cur :: tail))
                <=? Z.of_nat (List.length done))%Z = false).
  { apply Z.leb_gt. rewrite length_app. cbn [List.length]. lia. }
  rewrite E1, E2. cbn [orb]. rewrite Nat2Z.id.
  rewrite firstn_app, Nat.sub_diag, firstn_all, firstn_O, app_nil_r.
  rewrite skipn_app, Nat.sub_diag, skipn_all. cbn [skipn app]. reflexivity.
Qed.

Lemma dict_append_key {A} (done : list (list A)) cur tail x k :
  k = Z.of_nat (List.length done) ->
  Ellipticity.dict_append (done ++ cur :: tail) k x
  = Ok (done ++ (cur ++ [x]) :: tail).
Proof. intros ->. apply dict_append_at. Qed.

Lemma segment_loop discs bot waves n rest :
  forall i done cur wdone wcur,
    (1 <= i)%nat ->
    n = Z.of_nat (i + List.length rest) ->
    List.length waves = (i + List.length rest)%nat ->
    List.length wdone = List.length done ->
    exists c' w',
      foldM (Ellipticity.segment_step discs bot n waves)
            (combine (seq i (List.length rest)) rest)
            (Z.of_nat (List.length done), done ++ [cur], wdone ++ [wcur])
      = Ok (c', done ++ Spec.cut_shared
                          (fun pt => (R_in (pt_depth pt) discs
                                      || Req_bool (pt_depth pt) bot)%bool)
                          cur rest, w').
Proof.
  induction rest as [|x rest IH]; intros i done cur wdone wcur Hi Hn Hw Hlen.
  - cbn. eauto.
  - cbn [List.length seq combine foldM].
    cbn [List.length] in Hn, Hw.
    destruct (py_index_ok waves (Z.of_nat i)) as (wi & Hwi); [lia|].
    destruct (py_index_ok waves (Z.of_nat i - 1)) as (wp & Hwp); [lia|].
    unfold Ellipticity.segment_step at 1.
    unfold Ellipticity.opens_segment.
    replace (i =? 0)%nat with false by (symmetry; apply Nat.eqb_neq; lia).
    cbn [orb].
    destruct rest as [|y rest'].
    + replace (Z.of_nat i =? n - 1)%Z with true
        by (symmetry; apply Z.eqb_eq; cbn [List.length] in Hn; lia).
      cbn [negb]. rewrite andb_false_r. cbn [bind].
      rewrite (dict_append_key done cur [] x) by lia. cbn [bind].
      rewrite Hwi. cbn [bind].
      rewrite (dict_append_key wdone wcur [] wi) by lia. cbn [bind].
      cbn. eauto.
    + replace (Z.of_nat i =? n - 1)%Z with false
        by (symmetry; apply Z.eqb_neq; cbn [List.length] in Hn; lia).
      cbn [negb]. rewrite andb_true_r.
      cbn [Spec.cut_shared].
      destruct (R_in (pt_depth x) discs || Req_bool (pt_depth x) bot)%bool.
      * replace (Z.of_nat (List.length done) + 1 =? 0)%Z with false
          by (symmetry; apply Z.eqb_neq; lia).
        cbn [negb].
        rewrite <- !app_assoc. cbn [app].
        rewrite (dict_append_key done cur [[]] x) by lia. cbn [bind].
        rewrite Hwp. cbn [bind].
        rewrite (dict_append_key wdone wcur [[]] wp) by lia. cbn [bind].
        replace (done ++ [cur ++ [x]; []]) with ((done ++ [cur ++ [x]]) ++ [[]])
          by (rewrite <- app_assoc; reflexivity).
        replace (wdone ++ [wcur ++ [wp]; []])
          with ((wdone ++ [wcur ++ [wp]]) ++ [[]])
          by (rewrite <- app_assoc; reflexivity).
        rewrite (dict_append_key (done ++ [cur ++ [x]]) [] [] x)
          by (rewrite length_app; cbn [List.length]; lia).
        cbn [bind]. rewrite Hwi. cbn [bind].
        rewrite (dict_append_key (wdone ++ [wcur ++ [wp]]) [] [] wi)
          by (rewrite length_app; cbn [List.length]; lia).
        cbn [bind app].
        replace (Z.of_nat (List.length done) + 1)%Z
          with (Z.of_nat (List.length (done ++ [cur ++ [x]])))
          by (rewrite length_app; cbn [List.length]; lia).
        destruct (IH (S i) (done ++ [cur ++ [x]]) [x]
                     (wdone ++ [wcur ++ [wp]]) [wi])
          as (c' & w' & Hfold);
          [lia | lia | lia | rewrite !length_app; cbn [List.length]; lia |].
        rewrite Hfold. rewrite <- app_assoc. cbn [app]. eauto.
      * cbn [bind].
        rewrite (dict_append_key done cur [] x) by lia. cbn [bind].
        rewrite Hwi. cbn [bind].
        rewrite (dict_append_key wdone wcur [] wi) by lia. cbn [bind].
        destruct (IH (S i) done (cur ++ [x]) wdone (wcur ++ [wi]))
          as (c' & w' & Hfold); [lia | lia | lia | lia |].
        rewrite Hfold. eauto.
Qed.

Lemma wave_loop_length segments pts model l :
  forall st st',
    foldM (Ellipticity.wave_step segments pts model) l st = Ok st' ->
    List.length (snd st') = (List.length (snd st) + List.length l)%nat.
Proof.
  induction l as [|[i pathi] l IH]; intros [letter waves] st' H.
  - cbn in H. injection H as <-. cbn. lia.
  - cbn [foldM] in H. apply bind_Ok in H as (s1 & Hs1 & H).
    apply IH in H. rewrite H. cbn [List.length].
    unfold Ellipticity.wave_step in Hs1.
    apply bind_Ok in Hs1 as (turn & _ & Hs1).
    apply bind_Ok in Hs1 as (c & _ & Hs1). injection Hs1 as <-.
    cbn [snd]. rewrite length_app. cbn [List.length]. lia.
Qed.

Lemma enumerate_length {A} (l : list A) :
  List.length (enumerate l) = List.length l.
Proof.
  unfold enumerate. rewrite length_combine, length_seq. apply Nat.min_id.
Qed.

Lemma path_waves_length phase_name pts model waves :
  Ellipticity.path_waves phase_name pts model = Ok waves ->
  List.length waves = List.length pts.
Proof.
  unfold Ellipticity.path_waves. intros H.
  apply bind_Ok in H as (segments & _ & H).
  apply bind_Ok in H as ([letter ws] & Hfold & H). injection H as <-.
  apply wave_loop_length in Hfold. cbn [snd List.length] in Hfold.
  rewrite Hfold, enumerate_length. reflexivity.
Qed.

(** The condition under which a point after the first one is a boundary
    for [ray_path]. *)
Lemma ray_path_segments arrival model pts waves :
  path arrival = Some pts ->
  (2 <= List.length pts)%nat ->
  Ellipticity.path_waves (name arrival) pts model = Ok waves ->
  exists wave_paths,
    Ellipticity.ray_path arrival model
    = Ok (Spec.segments
            (fun pt =>
               (R_in (pt_depth pt) (removelast (get_discontinuity_depths model))
                || Req_bool (pt_depth pt) (Rmax_list (map pt_depth pts)))%bool)
            pts,
          wave_paths).
Proof.
  intros Hpath Hlen Hwaves.
  pose proof (path_waves_length _ _ _ _ Hwaves) as Hwl.
  unfold Ellipticity.ray_path. rewrite Hpath. cbn [attr bind].
  destruct pts as [|x rest]; [cbn in Hlen; lia|].
  cbn [Ellipticity.bottoming_depth bind]. rewrite Hwaves. cbn [bind].
  unfold enumerate. cbn [List.length seq combine foldM].
  cbn [List.length] in Hlen, Hwl.
  destruct (py_index_ok waves 0) as (w0 & Hw0); [lia|].
  unfold Ellipticity.segment_step at 1. unfold Ellipticity.opens_segment.
  cbn [Nat.eqb orb].
  replace (Z.of_nat 0 =? Z.of_nat (S (List.length rest)) - 1)%Z with false
    by (symmetry; apply Z.eqb_neq; lia).
  cbn [negb andb Z.add Z.eqb Z.opp Z.pos_sub bind app].
  rewrite (dict_append_key [] [] [] x) by reflexivity. cbn [bind].
  change (Z.of_nat 0) with 0%Z. rewrite Hw0. cbn [bind].
  rewrite (dict_append_key [] [] [] w0) by reflexivity. cbn [bind app].
  destruct (segment_loop (removelast (get_discontinuity_depths model))
              (Rmax_list (map pt_depth (x :: rest))) waves
              (Z.of_nat (S (List.length rest))) rest 1 [] [x] [] [w0])
    as (c' & w' & Hfold); [lia | lia | lia | reflexivity |].
  cbn [List.length app] in Hfold. change (Z.of_nat 0) with 0%Z in Hfold.
  rewrite Hfold. cbn [bind]. eauto.
Qed.

Lemma toy_down_and_up_split p :
  Ellipticipy.split_ray_path (Toy.down_and_up p) Toy.planet
  = Ok ([[Toy.point p 0 0; Toy.point p 1 0.3; Toy.point p 2 0]],
        [Ellipticipy.LS]).
Proof.
  unfold Ellipticipy.split_ray_path. cbn.
  unfold Ellipticipy.split_points. cbn. unfold R_in. cbn. eval_R.
  unfold Toy.planet, Toy.planet_with.
  rewrite (toy_classify _ _ _ (Toy.point p 1 0.3) (Toy.point p 2 0)).
  - reflexivity.
  - unfold Ellipticipy.compared_points. eval_R. reflexivity.
  - cbn. lra.
Qed.

Lemma toy_down_and_up_waves p :
  Ellipticity.path_waves "P"
    [Toy.point p 0 0; Toy.point p 1 0.3; Toy.point p 2 0] Toy.planet
  = Ok ["p"%char; "p"%char; "p"%char].
Proof.
  unfold Ellipticity.path_waves. cbn.
  repeat (progress (unfold Ellipticity.wave_step, R_in; eval_R)).
  reflexivity.
Qed.

(** *** What [split_ray_path] keeps of the cut *)

Lemma cut_closed_two {A} (b : A -> bool) (rest cur : list A) :
  cur <> [] ->
  Forall (fun s => (2 <= List.length s)%nat) (Spec.cut_closed b cur rest).
Proof.
  revert cur. induction rest as [|x rest IH]; intros cur Hcur;
    [constructor|].
  cbn [Spec.cut_closed]. destruct (b x).
  - constructor; [|apply IH; discriminate].
    rewrite length_app. cbn. destruct cur; [congruence | cbn; lia].
  - apply IH. destruct cur; discriminate.
Qed.

Lemma py_index_any {A} (l : list A) (z : Z) :
  (- Z.of_nat (List.length l) <= z < Z.of_nat (List.length l))%Z ->
  exists a, py_index l z = Ok a.
Proof.
  intros Hz. destruct (Z.ltb_spec z 0) as [Hneg | Hpos].
  - unfold py_index. cbv zeta.
    assert (E0 : (z <? 0)%Z = true) by (apply Z.ltb_lt; lia).
    assert (E1 : (z + Z.of_nat (List.length l) <? 0)%Z = false)
      by (apply Z.ltb_ge; lia).
    assert (E2 : (Z.of_nat (List.length l)
                  <=? z + Z.of_nat (List.length l))%Z = false)
      by (apply Z.leb_gt; lia).
    rewrite !E0, E1, E2. cbn [orb].
    destruct (nth_error l (Z.to_nat (z + Z.of_nat (List.length l))))
      as [a|] eqn:E; [eauto|].
    apply nth_error_None in E. lia.
  - apply py_index_ok. lia.
Qed.

Lemma compared_points_ok (path : list PathPoint) :
  (2 <= List.length path)%nat ->
  exists a b, Ellipticipy.compared_points path = Ok (a, b).
Proof.
  intros Hlen. unfold Ellipticipy.compared_points.
  destruct (py_index_any path 0) as (p0 & H0); [lia|].
  destruct (py_index_any path 1) as (p1 & H1); [lia|].
  destruct (py_index_any path (-1)) as (pl & Hl); [lia|].
  destruct (py_index_any path (-2)) as (pl2 & Hl2); [lia|].
  rewrite H0, Hl. cbn [bind].
  destruct (Rlt_bool _ _).
  - rewrite ?H0, ?H1. cbn [bind]. eauto.
  - rewrite ?Hl2, ?Hl. cbn [bind]. eauto.
Qed.

Lemma mapM_total {A B} (f : A -> res B) (l : list A) :
  (forall a, In a l -> exists b, f a = Ok b) -> exists bs, mapM f l = Ok bs.
Proof.
  induction l as [|a l IH]; intros H; cbn [mapM]; [eauto|].
  destruct (H a ltac:(left; reflexivity)) as (b & Hb).
  destruct IH as (bs & Hbs); [intros x Hx; apply H; right; exact Hx|].
  rewrite Hb, Hbs. cbn [bind]. eauto.
Qed.

Lemma classify_level_segment path model w :
  Ellipticipy.classify_path path model = Ok w ->
  Ellipticipy.is_diff w = level_segment path.
Proof.
  intros H. unfold level_segment.
  pose proof H as H'. unfold Ellipticipy.classify_path in H'.
  apply bind_Ok in H' as ([a b] & Hc & _). rewrite Hc.
  destruct (classify_diff path model a b Hc) as [Hd1 Hd2].
  destruct (Req_bool_spec (pt_depth a) (pt_depth b)) as [E | E].
  - rewrite (Hd2 E) in H. injection H as <-. reflexivity.
  - destruct w; try reflexivity. elim E. apply Hd1. exact H.
Qed.

Lemma kept_segments model cands dwaves :
  mapM (fun path => Ellipticipy.classify_path path model) cands = Ok dwaves ->
  map fst (filter (fun pw => negb (Ellipticipy.is_diff (snd pw)))
             (combine cands dwaves))
  = filter (fun s => negb (level_segment s)) cands.
Proof.
  revert dwaves. induction cands as [|c cands IH]; intros dwaves H;
    cbn [mapM] in H.
  - injection H as <-. reflexivity.
  - apply bind_Ok in H as (w & Hw & H).
    apply bind_Ok in H as (ws & Hws & H). injection H as <-.
    cbn [combine filter snd]. rewrite (classify_level_segment _ _ _ Hw).
    destruct (level_segment c); cbn [negb map fst]; rewrite (IH ws Hws);
      reflexivity.
Qed.

Lemma filter_all {A} (f : A -> bool) (l : list A) :
  Forall (fun x => f x = true) l -> filter f l = l.
Proof.
  induction 1 as [|x l Hx _ IH]; cbn [filter]; [reflexivity|].
  rewrite Hx, IH. reflexivity.
Qed.

Lemma split_ray_path_filter arrival model pts :
  path arrival = Some pts -> pts <> [] ->
  exists waves,
    Ellipticipy.split_ray_path arrival model
    = Ok (filter (fun s => negb (level_segment s))
            (Spec.closed_segments
               (fun pt => R_in (pt_depth pt)
                            (removelast (get_discontinuity_depths model)))
               pts),
          waves).
Proof.
  intros Hpath Hne. unfold Ellipticipy.split_ray_path.
  rewrite Hpath. cbn [attr bind].
  rewrite (split_points_closed pts model Hne). cbn [bind].
  set (cands := Spec.closed_segments _ pts).
  destruct (mapM_total (fun path => Ellipticipy.classify_path path model)
              cands) as (dwaves & Hw).
  { intros seg Hseg.
    assert (Hlen : (2 <= List.length seg)%nat).
    { destruct pts as [|x rest]; [congruence|].
      pose proof (cut_closed_two
                    (fun pt => R_in (pt_depth pt)
                                 (removelast (get_discontinuity_depths model)))
                    rest [x] ltac:(discriminate)) as Hall.
      rewrite Forall_forall in Hall. apply Hall. exact Hseg. }
    destruct (compared_points_ok seg Hlen) as (a & b & Hc).
    apply (classify_total seg model a b Hc). }
  rewrite Hw. cbn [bind]. rewrite (kept_segments model cands dwaves Hw).
  eexists. reflexivity.
Qed.

(** C6, as amended.  [ray_path] of [src/ellipticity/tools.py], on a path
    of at least two points whose wave letters can be assigned, cuts the
    path at its first and last point and at every point in between whose
    depth is the bottoming depth or a model discontinuity depth, and each
    such point ends one segment and starts the next.  [split_ray_path] of
    [src/ellipticipy/tools.py] first cuts the path into candidate
    segments, only at the points after the first whose depth is a model
    discontinuity depth: each cut point ends one candidate and starts the
    next, and nothing of the path after the last cut point is kept.  It
    then returns exactly the candidates whose two compared points (every
    candidate has them) differ in depth, in their order; when no
    candidate is removed these are the candidates themselves, with every
    cut point shared. *)
Theorem path_segmentation (arrival : Arrival) (model : TauModel)
    (pts : list PathPoint) (waves : list ascii) :
  path arrival = Some pts ->
  (2 <= List.length pts)%nat ->
  Ellipticity.path_waves (name arrival) pts model = Ok waves ->
  let discs := removelast (get_discontinuity_depths model) in
  let bot := Rmax_list (map pt_depth pts) in
  let is_disc pt := R_in (pt_depth pt) discs in
  let boundary pt := (is_disc pt || Req_bool (pt_depth pt) bot)%bool in
  ((exists wave_paths,
      Ellipticity.ray_path arrival model
      = Ok (Spec.segments boundary pts, wave_paths))
   /\ Spec.joined (Spec.segments boundary pts)
   /\ Spec.glue (Spec.segments boundary pts) = pts
   /\ Forall (fun s => Forall (fun x => boundary x = false) (Spec.interior s))
             (Spec.segments boundary pts)
   /\ Forall (fun s => exists x, last_error s = Some x /\ boundary x = true)
             (removelast (Spec.segments boundary pts)))
  /\
  (Ellipticipy.split_points pts model = Ok (Spec.closed_segments is_disc pts)
   /\ Spec.joined (Spec.closed_segments is_disc pts)
   /\ Forall (fun s => Forall (fun x => is_disc x = false) (Spec.interior s))
             (Spec.closed_segments is_disc pts)
   /\ Forall (fun s => exists x, last_error s = Some x /\ is_disc x = true)
             (Spec.closed_segments is_disc pts)
   /\ (exists tail,
         Forall (fun x => is_disc x = false) tail
         /\ match Spec.closed_segments is_disc pts with
            | [] => tl pts = tail
            | segs => pts = Spec.glue segs ++ tail
            end)
   /\ (exists labels,
         Ellipticipy.split_ray_path arrival model
         = Ok (filter (fun s => negb (level_segment s))
                 (Spec.closed_segments is_disc pts), labels))
   /\ (Forall (fun s => level_segment s = false)
              (Spec.closed_segments is_disc pts) ->
       exists labels,
         Ellipticipy.split_ray_path arrival model
         = Ok (Spec.closed_segments is_disc pts, labels))
   /\ Forall (fun s => exists point0 point1,
                 Ellipticipy.compared_points s = Ok (point0, point1))
             (Spec.closed_segments is_disc pts)).
Proof.
  intros Hpath Hlen Hwaves discs bot is_disc boundary.
  assert (Hkept : exists labels,
             Ellipticipy.split_ray_path arrival model
             = Ok (filter (fun s => negb (level_segment s))
                     (Spec.closed_segments is_disc pts), labels)).
  { apply (split_ray_path_filter arrival model pts Hpath).
    destruct pts; [cbn in Hlen; lia | discriminate]. }
  destruct pts as [|x rest]; [cbn in Hlen; lia|].
  split.
  - split; [apply (ray_path_segments _ _ _ _ Hpath Hlen Hwaves)|].
    cbn [Spec.segments].
    split; [apply cut_shared_joined; discriminate|].
    split; [apply (cut_shared_glue boundary x [] rest)|].
    split; [apply cut_shared_interior; [discriminate | constructor]|].
    apply cut_shared_ends. discriminate.
  - split; [apply split_points_closed; discriminate|].
    cbn [Spec.closed_segments].
    split; [apply cut_closed_joined; discriminate|].
    split; [apply cut_closed_interior; [discriminate | constructor]|].
    split; [apply cut_closed_ends|].
    split; [apply (cut_closed_prefix is_disc [x] rest); discriminate|].
    split; [exact Hkept|].
    split.
    + intros Hnone. destruct Hkept as (labels & Hk). exists labels.
      rewrite Hk. f_equal. f_equal. apply filter_all.
      apply Forall_impl with (2 := Hnone).
      intros seg Hseg. rewrite Hseg. reflexivity.
    + apply Forall_impl
        with (2 := cut_closed_two is_disc rest [x] ltac:(discriminate)).
      intros seg Hseg. destruct (compared_points_ok seg Hseg) as (a & b & Hc).
      exists a, b. exact Hc.
Qed.

Lemma path_segmentation_witness :
  (exists wave_paths,
     Ellipticity.ray_path (Toy.down_and_up 0.6) Toy.planet
     = Ok (Spec.segments
             (fun pt =>
                (R_in (pt_depth pt) [0]
                 || Req_bool (pt_depth pt)
                      (Rmax_list (map pt_depth
                         [Toy.point 0.6 0 0; Toy.point 0.6 1 0.3;
                          Toy.point 0.6 2 0])))%bool)
             [Toy.point 0.6 0 0; Toy.point 0.6 1 0.3; Toy.point 0.6 2 0],
           wave_paths))
  /\ Ellipticipy.split_points
       [Toy.point 0.6 0 0; Toy.point 0.6 1 0.3; Toy.point 0.6 2 0] Toy.planet
     = Ok (Spec.closed_segments (fun pt => R_in (pt_depth pt) [0])
             [Toy.point 0.6 0 0; Toy.point 0.6 1 0.3; Toy.point 0.6 2 0])
  /\ exists waves,
       Ellipticipy.split_ray_path (Toy.down_and_up 0.6) Toy.planet
       = Ok (filter (fun s => negb (level_segment s))
               (Spec.closed_segments (fun pt => R_in (pt_depth pt) [0])
                  [Toy.point 0.6 0 0; Toy.point 0.6 1 0.3;
                   Toy.point 0.6 2 0]),
             waves).
Proof.
  pose proof (path_segmentation (Toy.down_and_up 0.6) Toy.planet
                [Toy.point 0.6 0 0; Toy.point 0.6 1 0.3; Toy.point 0.6 2 0]
                ["p"%char; "p"%char; "p"%char] eq_refl
                ltac:(cbn; lia) (toy_down_and_up_waves 0.6)) as (HA & HB).
  destruct HB as (HB1 & _ & _ & _ & _ & HB6 & _).
  split; [exact (proj1 HA)|]. split; [exact HB1 | exact HB6].
Defined.

(** C6 as stated fails for [split_ray_path].  On the test planet the ray
    that goes down to 300 m and back stays in one piece: its bottoming
    point lies inside the only segment, where [ray_path] cuts there. *)
Lemma bottoming_point_not_split :
  Ellipticity.bottoming_depth
    [Toy.point 0.6 0 0; Toy.point 0.6 1 0.3; Toy.point 0.6 2 0] = Ok 0.3
  /\ Ellipticipy.split_ray_path (Toy.down_and_up 0.6) Toy.planet
     = Ok ([[Toy.point 0.6 0 0; Toy.point 0.6 1 0.3; Toy.point 0.6 2 0]],
           [Ellipticipy.LS])
  /\ pt_depth (Toy.point 0.6 1 0.3) = 0.3
  /\ Spec.interior [Toy.point 0.6 0 0; Toy.point 0.6 1 0.3; Toy.point 0.6 2 0]
     = [Toy.point 0.6 1 0.3]
  /\ Ellipticity.ray_path (Toy.down_and_up 0.6) Toy.planet
     = Ok ([[Toy.point 0.6 0 0; Toy.point 0.6 1 0.3];
            [Toy.point 0.6 1 0.3; Toy.point 0.6 2 0]],
           [["p"%char; "p"%char]; ["p"%char; "p"%char]]).
Proof.
  split.
  { cbn. decide_R. reflexivity. }
  split; [apply toy_down_and_up_split|].
  split; [reflexivity|].
  split; [reflexivity|].
  unfold Ellipticity.ray_path. cbn [path Toy.down_and_up attr bind name].
  rewrite toy_down_and_up_waves. cbn.
  repeat (progress (unfold Ellipticity.segment_step,
                      Ellipticity.opens_segment, R_in; eval_R)).
  reflexivity.
Qed.

(** A removed candidate can leave two returned neighbours without a
    common point: on the ray that runs along the core-mantle boundary the
    level candidate between the two legs is removed, and the legs that
    [split_ray_path] returns end and start at different points. *)
Lemma removed_candidate_breaks_join :
  Ellipticipy.split_ray_path (Toy.diffracted 0.3) Toy.cored_planet
  = Ok ([[Toy.point 0.3 0 0; Toy.point 0.3 1 0.5];
         [Toy.point 0.3 2 0.5; Toy.point 0.3 3 0]],
        [Ellipticipy.LS; Ellipticipy.LS])
  /\ level_segment [Toy.point 0.3 1 0.5; Toy.point 0.3 2 0.5] = true
  /\ ~ Spec.joined [[Toy.point 0.3 0 0; Toy.point 0.3 1 0.5];
                    [Toy.point 0.3 2 0.5; Toy.point 0.3 3 0]].
Proof.
  split; [apply toy_diffracted_split|]. split.
  - unfold level_segment, Ellipticipy.compared_points. eval_R.
    cbn. decide_R. reflexivity.
  - intros [(x & Hl & Hh) _]. cbn in Hl, Hh. rewrite <- Hl in Hh.
    apply (f_equal (fun o => match o with
                             | Some q => pt_time q
                             | None => 0
                             end)) in Hh.
    cbn in Hh. lra.
Qed.

(** ** The ellipticity profile *)

Lemma last_elt_app (l : list R) x : last_elt (l ++ [x]) = Ok x.
Proof. apply py_index_last. Qed.

Lemma nonempty_last {A} (l : list A) :
  l <> [] -> exists l' x, l = l' ++ [x].
Proof.
  intros H. destruct (exists_last H) as (l' & x & E). eauto.
Qed.

Lemma pairwise_length {A B} (f : A -> A -> B) l :
  List.length (pairwise f l) = (List.length l - 1)%nat.
Proof.
  induction l as [|x [|y l] IH]; cbn [pairwise List.length] in *;
    try reflexivity.
  rewrite IH. lia.
Qed.

Lemma cumsum_from_length acc l :
  List.length (cumsum_from acc l) = List.length l.
Proof.
  revert acc. induction l as [|x l IH]; intros acc; cbn; [reflexivity|].
  rewrite IH. reflexivity.
Qed.

Lemma zipWith_length_min {A B C} (f : A -> B -> C) l1 l2 :
  List.length (zipWith f l1 l2) = Nat.min (List.length l1) (List.length l2).
Proof.
  revert l2. induction l1 as [|a l1 IH]; intros [|b l2]; cbn; try reflexivity.
  rewrite IH. reflexivity.
Qed.

Lemma cumsum_from_last acc l x :
  last_elt (cumsum_from acc (l ++ [x])) = Ok (fold_left Rplus (l ++ [x]) acc).
Proof.
  revert acc. induction l as [|y l IH]; intros acc.
  - cbn [app cumsum_from fold_left]. apply (last_elt_app []).
  - cbn [app cumsum_from fold_left].
    specialize (IH (acc + y)).
    destruct (l ++ [x]) eqn:E; [destruct l; discriminate|].
    rewrite <- E in *.
    unfold last_elt in *.
    destruct (nonempty_last (cumsum_from (acc + y) (l ++ [x]))) as (c & z & Ec).
    { rewrite E. discriminate. }
    rewrite Ec in *. rewrite py_index_last in IH.
    rewrite app_comm_cons, py_index_last. exact IH.
Qed.

Lemma fold_left_Rplus_pos l acc :
  0 <= acc -> l <> [] -> Forall (fun x => 0 < x) l ->
  0 < fold_left Rplus l acc.
Proof.
  revert acc. induction l as [|x l IH]; intros acc Hacc Hne Hall;
    [congruence|].
  inversion Hall as [|? ? Hx Hl]; subst. cbn.
  destruct l as [|y l]; [cbn; lra|].
  apply IH; [lra | discriminate | exact Hl].
Qed.

Lemma fold_left_Rplus_ge l acc :
  Forall (fun x => 0 <= x) l -> acc <= fold_left Rplus l acc.
Proof.
  revert acc. induction l as [|x l IH]; intros acc Hall; cbn; [lra|].
  inversion Hall as [|? ? Hx Hl]; subst.
  specialize (IH (acc + x) Hl). lra.
Qed.

Lemma zipWith_Forall {A B C} (f : A -> B -> C)
    (P : A -> Prop) (Q : B -> Prop) (S : C -> Prop) l1 l2 :
  (forall a b, P a -> Q b -> S (f a b)) ->
  Forall P l1 -> Forall Q l2 -> Forall S (zipWith f l1 l2).
Proof.
  intros Hf H1. revert l2. induction H1 as [|a l1 Ha Hl1 IH];
    intros l2 H2; [constructor|].
  destruct H2 as [|b l2 Hb Hl2]; cbn; constructor; auto.
Qed.

Lemma pairwise_mean_pos (g : R -> R -> R) x l :
  (forall top bot, 0 < top -> 0 <= bot -> 0 < g top bot) ->
  0 <= x -> Forall (fun y => 0 < y) l ->
  Forall (fun y => 0 < y) (pairwise g (x :: l)).
Proof.
  intros Hg. revert x. induction l as [|y l IH]; intros x Hx Hall;
    [constructor|].
  inversion Hall as [|? ? Hy Hl]; subst. cbn [pairwise]. constructor.
  - apply Hg; assumption.
  - apply IH; [lra | exact Hl].
Qed.

Lemma last_elt_In (l : list R) x : last_elt l = Ok x -> In x l.
Proof.
  destruct l as [|a l].
  - discriminate.
  - destruct (nonempty_last (a :: l)) as (l' & y & E); [discriminate|].
    rewrite E. unfold last_elt. rewrite py_index_last.
    intros H. injection H as <-. apply in_or_app. right. left. reflexivity.
Qed.

Lemma last_elt_ok (l : list R) : l <> [] -> exists x, last_elt l = Ok x.
Proof.
  intros H. destruct (nonempty_last l H) as (l' & x & ->).
  exists x. apply last_elt_app.
Qed.

Lemma last_elt_map (f : R -> R) l x :
  last_elt l = Ok x -> last_elt (map f l) = Ok (f x).
Proof.
  destruct l as [|a l]; [discriminate|].
  destruct (nonempty_last (a :: l)) as (l' & y & E); [discriminate|].
  rewrite E. unfold last_elt. rewrite py_index_last. intros H.
  injection H as <-. rewrite map_app. cbn [map]. apply py_index_last.
Qed.

Lemma last_elt_cons a (l : list R) x :
  last_elt l = Ok x -> last_elt (a :: l) = Ok x.
Proof.
  destruct l as [|b l]; [discriminate|].
  destruct (nonempty_last (b :: l)) as (l' & y & E); [discriminate|].
  rewrite E. unfold last_elt. rewrite py_index_last. intros H.
  injection H as <-. rewrite app_comm_cons. apply py_index_last.
Qed.

Lemma length_nonempty {A} (l : list A) : (0 < List.length l)%nat -> l <> [].
Proof. destruct l; cbn; [lia | discriminate]. Qed.

(** The surface value does not depend on the integration of Radau's
    equation: the profile is normalised to it. *)
Lemma normalised_profile (epsilona : R) (integral : list R) :
  integral <> [] ->
  exists e_last e0 eps,
    last_elt (map exp integral) = Ok e_last
    /\ py_index (map (fun e => epsilona * e / e_last) (map exp integral)) 0
       = Ok e0
    /\ eps = e0 :: map (fun e => epsilona * e / e_last) (map exp integral)
    /\ last_elt eps = Ok epsilona
    /\ py_index eps 0 = Ok e0 /\ py_index eps 1 = Ok e0
    /\ List.length eps = S (List.length integral).
Proof.
  intros Hne. destruct (nonempty_last integral Hne) as (l' & x & ->).
  exists (exp x).
  destruct (map (fun e => epsilona * e / exp x) (map exp (l' ++ [x])))
    as [|e0 tail] eqn:E.
  { destruct l'; discriminate. }
  exists e0, (e0 :: e0 :: tail).
  split; [rewrite map_app; apply last_elt_app|].
  split; [apply py_index_0|].
  split; [reflexivity|].
  split.
  - apply last_elt_cons. rewrite <- E, !map_app. cbn [map].
    rewrite last_elt_app. f_equal. field.
    apply Rgt_not_eq, exp_pos.
  - split; [apply py_index_0|]. split; [apply py_index_1|].
    cbn [List.length]. f_equal.
    change (S (List.length tail)) with (List.length (e0 :: tail)).
    rewrite <- E, !length_map. reflexivity.
Qed.

Lemma Int_part_ge_1 x : 1 <= x -> (1 <= Int_part x)%Z.
Proof.
  intros Hx. destruct (base_Int_part x) as [_ H].
  assert (0 < IZR (Int_part x)) by lra.
  apply lt_IZR in H0. lia.
Qed.

Lemma sample_radii_shape model dr :
  0 < dr -> dr <= radius_of_planet model * 1e3 ->
  exists tail,
    Ellipticity.sample_radii model dr = Ok (0 :: tail)
    /\ tail <> [] /\ Forall (fun x => 0 < x) tail.
Proof.
  intros Hdr Ha. set (a := radius_of_planet model * 1e3) in *.
  assert (Hq : 1 <= a / dr).
  { apply (Rmult_le_reg_r dr); [exact Hdr|]. unfold Rdiv.
    rewrite Rmult_assoc, Rinv_l by lra. lra. }
  pose proof (Int_part_ge_1 _ Hq) as Hk.
  unfold Ellipticity.sample_radii, linspace0, py_int. fold a.
  rewrite (Req_bool_false dr 0) by lra.
  rewrite Rlt_bool_false by lra.
  set (k := Int_part (a / dr)) in *.
  replace (1 + k <? 0)%Z with false by (symmetry; apply Z.ltb_ge; lia).
  replace (1 + k =? 1)%Z with false by (symmetry; apply Z.eqb_neq; lia).
  replace (Z.to_nat (1 + k)) with (S (Z.to_nat k)) by lia.
  replace (1 + k - 1)%Z with k by lia.
  cbn [seq map]. rewrite Rmult_0_l.
  eexists. split; [reflexivity|].
  assert (Hstep : 0 < a / IZR k).
  { apply Rdiv_lt_0_compat; [lra|]. apply IZR_lt. lia. }
  split.
  - destruct (Z.to_nat k) as [|m] eqn:E; [lia | discriminate].
  - apply Forall_forall. intros x Hx. apply in_map_iff in Hx as (i & <- & Hi).
    apply in_seq in Hi. apply Rmult_lt_0_compat; [|exact Hstep].
    apply lt_0_INR. lia.
Qed.

Lemma densities_positive model r :
  r <> [] ->
  (forall depth, 0 < evaluate_above model depth Dens) ->
  0 < evaluate_below model 0.0 Dens ->
  Forall (fun x => 0 < x) (Ellipticity.densities model r)
  /\ List.length (Ellipticity.densities model r) = List.length r.
Proof.
  intros Hne Habove Hbelow. unfold Ellipticity.densities. split.
  - apply Forall_app. split.
    + apply Forall_forall. intros x Hx. apply in_map_iff in Hx as (ri & <- & _).
      specialize (Habove ((radius_of_planet model * 1e3 - ri) / 1000.0)). lra.
    + constructor; [lra | constructor].
  - destruct (nonempty_last r Hne) as (l' & x & ->).
    rewrite removelast_last, !length_app, length_map. reflexivity.
Qed.

Lemma trapezoid_weights_positive (h : R -> R -> R) rho tail :
  (forall d x, 0 < d -> 0 < x -> 0 < h d x) ->
  (forall d, h d 0 = 0) ->
  Forall (fun x => 0 < x) rho -> Forall (fun x => 0 < x) tail ->
  Forall (fun x => 0 < x)
         (pairwise (fun top bot => 1 * (top + bot) / 2)
                   (zipWith h rho (0 :: tail))).
Proof.
  intros Hh H0 Hrho Htail. destruct Hrho as [|d rho Hd Hrho]; [constructor|].
  cbn [zipWith]. apply pairwise_mean_pos.
  - intros top bot Ht Hb. lra.
  - rewrite H0. lra.
  - apply (zipWith_Forall h (fun x => 0 < x) (fun x => 0 < x));
      assumption.
Qed.

Lemma cumtrapz_last_positive (h : R -> R -> R) rho tail :
  (forall d x, 0 < d -> 0 < x -> 0 < h d x) ->
  (forall d, h d 0 = 0) ->
  Forall (fun x => 0 < x) rho -> Forall (fun x => 0 < x) tail ->
  tail <> [] -> List.length rho = S (List.length tail) ->
  exists c, last_elt (cumtrapz (zipWith h rho (0 :: tail))) = Ok c /\ 0 < c
            /\ List.length (cumtrapz (zipWith h rho (0 :: tail)))
               = List.length tail.
Proof.
  intros Hh H0 Hrho Htail Hne Hlen.
  pose proof (trapezoid_weights_positive h rho tail Hh H0 Hrho Htail) as Hpos.
  unfold cumtrapz, cumsum in *.
  set (w := pairwise (fun top bot => 1 * (top + bot) / 2)
                     (zipWith h rho (0 :: tail))) in *.
  assert (Hwl : List.length w = List.length tail).
  { unfold w. rewrite pairwise_length, zipWith_length_min. cbn [List.length].
    rewrite Hlen. lia. }
  assert (Hw : w <> []).
  { apply length_nonempty. rewrite Hwl. destruct tail; [congruence | cbn; lia]. }
  destruct (nonempty_last w Hw) as (l' & x & E).
  exists (fold_left Rplus w 0). split; [|split].
  - rewrite E. apply cumsum_from_last.
  - apply fold_left_Rplus_pos; [lra | exact Hw | exact Hpos].
  - rewrite cumsum_from_length. exact Hwl.
Qed.

Lemma shell_mass_total model dr tail :
  0 < dr -> tail <> [] -> Forall (fun x => 0 < x) tail ->
  (forall depth, 0 < evaluate_above model depth Dens) ->
  0 < evaluate_below model 0.0 Dens ->
  exists M, last_elt (Ellipticity.shell_mass model dr (0 :: tail)) = Ok M
            /\ 0 < M
            /\ List.length (Ellipticity.shell_mass model dr (0 :: tail))
               = List.length tail.
Proof.
  intros Hdr Hne Htail Habove Hbelow.
  destruct (densities_positive model (0 :: tail) ltac:(discriminate)
              Habove Hbelow) as [Hrho Hlen].
  destruct (cumtrapz_last_positive (fun rho_i r_i => rho_i * r_i ^ 2 * dr)
              (Ellipticity.densities model (0 :: tail)) tail)
    as (c & Hc & Hpos & Hcl); try assumption.
  - intros d x Hd Hx. apply Rmult_lt_0_compat; [|exact Hdr].
    apply Rmult_lt_0_compat; [exact Hd|]. apply pow_lt. exact Hx.
  - intros d. ring.
  - unfold Ellipticity.shell_mass. exists (4 * PI * c).
    split; [apply (last_elt_map (fun c => 4 * PI * c)); exact Hc|].
    split.
    + pose proof PI_RGT_0. apply Rmult_lt_0_compat; lra.
    + rewrite length_map. exact Hcl.
Qed.

Lemma radau_surface model taper dr tail :
  0 < dr -> tail <> [] -> Forall (fun x => 0 < x) tail ->
  (forall depth, 0 < evaluate_above model depth Dens) ->
  0 < evaluate_below model 0.0 Dens ->
  exists eta_a,
    last_elt (Ellipticity.radau model taper dr (0 :: tail)) = Ok eta_a
    /\ -1 <= eta_a
    /\ List.length (Ellipticity.radau model taper dr (0 :: tail))
       = List.length tail.
Proof.
  intros Hdr Hne Htail Habove Hbelow.
  destruct (shell_mass_total model dr tail Hdr Hne Htail Habove Hbelow)
    as (M & _ & _ & HMl).
  destruct (densities_positive model (0 :: tail) ltac:(discriminate)
              Habove Hbelow) as [Hrho Hlen].
  destruct (cumtrapz_last_positive (fun rho_i r_i => rho_i * r_i ^ 4 * dr)
              (Ellipticity.densities model (0 :: tail)) tail)
    as (c & _ & _ & Hcl); try assumption.
  { intros d x Hd Hx. apply Rmult_lt_0_compat; [|exact Hdr].
    apply Rmult_lt_0_compat; [exact Hd|]. apply pow_lt. exact Hx. }
  { intros d. ring. }
  assert (Hl : List.length (Ellipticity.radau model taper dr (0 :: tail))
               = List.length tail).
  { unfold Ellipticity.radau. rewrite length_map.
    destruct taper; rewrite ?length_map, !zipWith_length_min, length_map,
      Hcl, HMl; cbn [tl]; lia. }
  destruct (last_elt_ok (Ellipticity.radau model taper dr (0 :: tail)))
    as (eta_a & Heta).
  { apply length_nonempty. rewrite Hl. destruct tail; [congruence | cbn; lia]. }
  exists eta_a. split; [exact Heta|]. split; [|exact Hl].
  apply last_elt_In in Heta. unfold Ellipticity.radau in Heta.
  apply in_map_iff in Heta as (y & <- & _).
  pose proof (pow2_ge_0 (1 - 3 * y / 2)). lra.
Qed.

Lemma surface_epsilon_positive a lod M eta_a :
  0 < a -> 0 < lod -> 0 < M -> -1 <= eta_a ->
  0 < 5 * (a ^ 3 * (2 * PI / lod) ^ 2 / (G * M)) / (2 * eta_a + 4).
Proof.
  intros Ha Hlod HM Heta. pose proof PI_RGT_0 as Hpi.
  assert (HG : 0 < G) by (unfold G; lra).
  apply Rdiv_lt_0_compat; [|lra].
  apply Rmult_lt_0_compat; [lra|].
  apply Rdiv_lt_0_compat; [|apply Rmult_lt_0_compat; assumption].
  apply Rmult_lt_0_compat; [apply pow_lt; exact Ha|].
  apply pow_lt. apply Rdiv_lt_0_compat; lra.
Qed.

Lemma radial_profile model lod taper dr :
  0 < lod -> 0 < dr -> dr <= radius_of_planet model * 1e3 ->
  (forall depth, 0 < evaluate_above model depth Dens) ->
  0 < evaluate_below model 0.0 Dens ->
  exists r M eta_a eps,
    Ellipticity.sample_radii model dr = Ok r
    /\ last_elt (Ellipticity.shell_mass model dr r) = Ok M
    /\ last_elt (Ellipticity.radau model taper dr r) = Ok eta_a
    /\ Ellipticity.model_epsilon model lod taper dr
       = Ok (set_radial_epsilon model r eps)
    /\ last_elt eps
       = Ok (5 * ((radius_of_planet model * 1e3) ^ 3 * (2 * PI / lod) ^ 2
                  / (G * M)) / (2 * eta_a + 4))
    /\ 0 < 5 * ((radius_of_planet model * 1e3) ^ 3 * (2 * PI / lod) ^ 2
                / (G * M)) / (2 * eta_a + 4)
    /\ py_index r 0 = Ok 0
    /\ (exists r1, py_index r 1 = Ok r1 /\ 0 < r1)
    /\ (exists e, py_index eps 0 = Ok e /\ py_index eps 1 = Ok e)
    /\ List.length eps = List.length r.
Proof.
  intros Hlod Hdr Ha Habove Hbelow.
  destruct (sample_radii_shape model dr Hdr Ha) as (tail & Hr & Hne & Htail).
  destruct (shell_mass_total model dr tail Hdr Hne Htail Habove Hbelow)
    as (M & HM & HMpos & _).
  destruct (radau_surface model taper dr tail Hdr Hne Htail Habove Hbelow)
    as (eta_a & Heta & Hge & Hetal).
  set (epsilona := 5 * ((radius_of_planet model * 1e3) ^ 3
                        * (2 * PI / lod) ^ 2 / (G * M)) / (2 * eta_a + 4)).
  destruct (normalised_profile epsilona
              (cumtrapz_initial
                 (zipWith (fun e ri => dr * e / ri)
                    (Ellipticity.radau model taper dr (0 :: tail)) tail)))
    as (e_last & e0 & eps & Hlast & H0 & Heps & Hsurf & Hc0 & Hc1 & Hlen).
  { unfold cumtrapz_initial. discriminate. }
  exists (0 :: tail), M, eta_a, eps.
  split; [exact Hr|]. split; [exact HM|]. split; [exact Heta|].
  split.
  { unfold Ellipticity.model_epsilon.
    rewrite (Req_bool_false lod 0) by lra. rewrite Hr. cbn [bind].
    rewrite HM. cbn [bind]. rewrite Heta. cbn [bind tl].
    fold epsilona. rewrite Hlast. cbn [bind]. rewrite H0. cbn [bind].
    rewrite Heps. reflexivity. }
  split; [exact Hsurf|].
  split; [apply surface_epsilon_positive; lra|].
  split; [apply py_index_0|].
  split.
  { destruct tail as [|r1 tail']; [congruence|]. exists r1.
    split; [apply py_index_1|]. inversion Htail; assumption. }
  split; [exists e0; split; assumption|].
  rewrite Hlen. unfold cumtrapz_initial, cumtrapz, cumsum.
  cbn [List.length]. rewrite cumsum_from_length, pairwise_length,
    zipWith_length_min, Hetal, Nat.min_id.
  destruct tail; [congruence | cbn [List.length]; lia].
Qed.

(** *** Layer by layer, in [src/ellipticipy/tools.py] *)

Lemma stored_layers (eps : list R) e0 x :
  py_index eps 0 = Ok e0 -> py_index eps 1 = Ok e0 -> last_elt eps = Ok x ->
  py_index (removelast (rev eps)) 0 = Ok x
  /\ py_index (tl (rev eps)) (-1) = Ok e0
  /\ py_index (removelast (rev eps)) (-1) = Ok e0.
Proof.
  intros H0 H1 Hl. destruct eps as [|a [|b t]]; try discriminate.
  rewrite py_index_0 in H0. rewrite py_index_1 in H1.
  injection H0 as ->. injection H1 as ->.
  destruct (nonempty_last (e0 :: t)) as (l' & y & E); [discriminate|].
  rewrite E in *. rewrite app_comm_cons in Hl.
  unfold last_elt in Hl. rewrite py_index_last in Hl. injection Hl as ->.
  cbn [rev]. rewrite rev_app_distr. cbn [rev app].
  split; [|split].
  - cbn [removelast]. destruct (rev l' ++ [e0]) eqn:E'.
    + destruct (rev l'); discriminate.
    + apply py_index_0.
  - cbn [tl]. apply py_index_last.
  - change (x :: rev l' ++ [e0]) with ((x :: rev l') ++ [e0]).
    rewrite removelast_last.
    destruct l' as [|b l''].
    + cbn in E. injection E as E1 E2. subst. apply py_index_last1.
    + cbn in E. injection E as E1 E2. subst. cbn [rev].
      rewrite app_comm_cons. apply py_index_last.
Qed.

Lemma pairwise_map_monotone (V : R -> R) l :
  (forall x y, 0 < x -> x <= y -> V x <= V y) ->
  Forall (fun x => 0 < x) l ->
  Forall (fun d => 0 <= d) (pairwise Rminus l) ->
  Forall (fun d => 0 <= d) (pairwise Rminus (map V l)).
Proof.
  intros HV. induction l as [|x [|y l] IH]; intros Hpos Hinc;
    cbn [map pairwise] in *; try constructor.
  - inversion Hpos as [|? ? Hx Hrest]; subst.
    inversion Hinc as [|? ? Hd Hinc']; subst.
    specialize (HV x y Hx ltac:(lra)). lra.
  - apply IH.
    + inversion Hpos; assumption.
    + inversion Hinc; assumption.
Qed.

Lemma cube_monotone x y : 0 < x -> x <= y -> x ^ 3 <= y ^ 3.
Proof. intros Hx Hxy. apply pow_incr. lra. Qed.

Lemma layer_mass_total model :
  layers model <> [] ->
  Forall (fun r => 0 < r) (Ellipticipy.top_radii model) ->
  Forall (fun d => 0 <= d) (pairwise Rminus (Ellipticipy.top_radii model)) ->
  (forall l, In l (layers model) -> 0 < top_density l /\ 0 < bot_density l) ->
  exists M, last_elt (Ellipticipy.shell_mass model) = Ok M /\ 0 < M
            /\ List.length (Ellipticipy.shell_mass model)
               = List.length (layers model).
Proof.
  intros Hne Hpos Hinc Hrho.
  assert (Hshell : Forall (fun x => 0 < x) (Ellipticipy.shell_density model)).
  { unfold Ellipticipy.shell_density.
    apply (zipWith_Forall _ (fun x => 0 < x) (fun x => 0 < x)).
    - intros. lra.
    - apply Forall_forall. intros x Hx. apply in_map_iff in Hx as (l & <- & Hl).
      apply in_rev in Hl. destruct (Hrho l Hl). lra.
    - apply Forall_forall. intros x Hx. apply in_map_iff in Hx as (l & <- & Hl).
      apply in_rev in Hl. destruct (Hrho l Hl). lra. }
  assert (Hsl : List.length (Ellipticipy.shell_density model)
                = List.length (layers model)).
  { unfold Ellipticipy.shell_density.
    rewrite zipWith_length_min, !length_map, length_rev. apply Nat.min_id. }
  assert (Hrl : List.length (Ellipticipy.top_radii model)
                = List.length (layers model)).
  { unfold Ellipticipy.top_radii. rewrite !length_map, length_rev.
    reflexivity. }
  unfold Ellipticipy.shell_mass.
  destruct (Ellipticipy.top_radii model) as [|r0 rs] eqn:Er.
  { destruct (layers model); [congruence | discriminate]. }
  destruct (Ellipticipy.shell_density model) as [|s0 ss] eqn:Es.
  { destruct (layers model); [congruence | discriminate]. }
  pose proof PI_RGT_0 as Hpi.
  assert (HV : forall x y, 0 < x -> x <= y ->
               4.0 / 3.0 * PI * x ^ 3 <= 4.0 / 3.0 * PI * y ^ 3).
  { intros x y Hx Hxy. pose proof (cube_monotone x y Hx Hxy).
    apply Rmult_le_compat_l; [|assumption].
    apply Rmult_le_pos; lra. }
  pose proof (pairwise_map_monotone _ _ HV Hpos Hinc) as Hdv.
  inversion Hpos as [|? ? Hr0 Hrs]; subst.
  inversion Hshell as [|? ? Hs0 Hss]; subst.
  set (V := fun r => 4.0 / 3.0 * PI * r ^ 3) in *.
  set (dv := pairwise Rminus (map V (r0 :: rs))) in *.
  assert (Hdm : zipWith Rmult (s0 :: ss)
                  (pairwise Rminus (0 :: map V (r0 :: rs)))
                = s0 * (V r0 - 0) :: zipWith Rmult ss dv) by reflexivity.
  rewrite Hdm.
  assert (Hfirst : 0 < s0 * (V r0 - 0)).
  { apply Rmult_lt_0_compat; [exact Hs0|]. unfold V.
    rewrite Rminus_0_r. apply Rmult_lt_0_compat; [lra|].
    apply pow_lt. exact Hr0. }
  assert (Hrest : Forall (fun x => 0 <= x) (zipWith Rmult ss dv)).
  { apply (zipWith_Forall _ (fun x => 0 < x) (fun x => 0 <= x)).
    - intros a b Ha Hb. apply Rmult_le_pos; lra.
    - exact Hss.
    - exact Hdv. }
  set (d_mass := s0 * (V r0 - 0) :: zipWith Rmult ss dv).
  destruct (nonempty_last d_mass ltac:(discriminate)) as (l' & x & E).
  exists (fold_left Rplus d_mass 0). split; [|split].
  - unfold cumsum. rewrite E. apply cumsum_from_last.
  - unfold d_mass. cbn [fold_left].
    pose proof (fold_left_Rplus_ge _ (0 + s0 * (V r0 - 0)) Hrest). lra.
  - unfold cumsum. rewrite cumsum_from_length. unfold d_mass, dv.
    cbn [List.length]. rewrite zipWith_length_min, pairwise_length.
    rewrite length_map. cbn [List.length] in *. lia.
Qed.

Lemma layer_radau_surface model :
  layers model <> [] ->
  Forall (fun r => 0 < r) (Ellipticipy.top_radii model) ->
  Forall (fun d => 0 <= d) (pairwise Rminus (Ellipticipy.top_radii model)) ->
  (forall l, In l (layers model) -> 0 < top_density l /\ 0 < bot_density l) ->
  exists radau_a,
    last_elt (Ellipticipy.radau model) = Ok radau_a /\ -1 <= radau_a
    /\ List.length (Ellipticipy.radau model) = List.length (layers model).
Proof.
  intros Hne Hpos Hinc Hrho.
  destruct (layer_mass_total model Hne Hpos Hinc Hrho) as (M & _ & _ & HMl).
  assert (Hl : List.length (Ellipticipy.radau model)
               = List.length (layers model)).
  { unfold Ellipticipy.radau. rewrite length_map, !zipWith_length_min, HMl.
    unfold cumsum. rewrite cumsum_from_length, zipWith_length_min,
      pairwise_length. cbn [List.length]. rewrite length_map.
    unfold Ellipticipy.shell_density, Ellipticipy.top_radii.
    rewrite zipWith_length_min, !length_map, length_rev. lia. }
  destruct (last_elt_ok (Ellipticipy.radau model)) as (radau_a & Hr).
  { apply length_nonempty. rewrite Hl.
    destruct (layers model); [congruence | cbn; lia]. }
  exists radau_a. split; [exact Hr|]. split; [|exact Hl].
  apply last_elt_In in Hr. unfold Ellipticipy.radau in Hr.
  apply in_map_iff in Hr as (y & <- & _).
  pose proof (pow2_ge_0 (1 - 3 * y / 2)). lra.
Qed.

Lemma removelast_length {A} (l : list A) :
  List.length (removelast l) = (List.length l - 1)%nat.
Proof.
  induction l as [|a [|b l] IH]; cbn [removelast List.length] in *;
    try reflexivity.
  rewrite IH. lia.
Qed.

Lemma tl_length {A} (l : list A) :
  List.length (tl l) = (List.length l - 1)%nat.
Proof. destruct l; cbn; lia. Qed.

Lemma layer_profile model lod :
  0 < lod -> 0 < radius_of_planet model ->
  layers model <> [] ->
  Forall (fun r => 0 < r) (Ellipticipy.top_radii model) ->
  Forall (fun d => 0 <= d) (pairwise Rminus (Ellipticipy.top_radii model)) ->
  (forall l, In l (layers model) -> 0 < top_density l /\ 0 < bot_density l) ->
  exists M radau_a tops bots,
    last_elt (Ellipticipy.shell_mass model) = Ok M
    /\ last_elt (Ellipticipy.radau model) = Ok radau_a
    /\ Ellipticipy.model_epsilon model lod
       = Ok (set_layer_epsilon model tops bots)
    /\ py_index tops 0
       = Ok (5 * ((radius_of_planet model * 1e3) ^ 3 * (2 * PI / lod) ^ 2
                  / (G * M)) / (2 * radau_a + 4))
    /\ 0 < 5 * ((radius_of_planet model * 1e3) ^ 3 * (2 * PI / lod) ^ 2
                / (G * M)) / (2 * radau_a + 4)
    /\ (exists e, py_index bots (-1) = Ok e /\ py_index tops (-1) = Ok e)
    /\ List.length tops = List.length (layers model)
    /\ List.length bots = List.length (layers model).
Proof.
  intros Hlod Hrad Hne Hpos Hinc Hrho.
  destruct (layer_mass_total model Hne Hpos Hinc Hrho) as (M & HM & HMpos & _).
  destruct (layer_radau_surface model Hne Hpos Hinc Hrho)
    as (radau_a & Hr & Hge & Hrl).
  set (epsilona := 5 * ((radius_of_planet model * 1e3) ^ 3
                        * (2 * PI / lod) ^ 2 / (G * M)) / (2 * radau_a + 4)).
  destruct (normalised_profile epsilona
              (cumtrapz_x (zipWith Rdiv (Ellipticipy.radau model)
                             (Ellipticipy.top_radii model))
                          (Ellipticipy.top_radii model)))
    as (e_last & e0 & eps & Hlast & H0 & Heps & Hsurf & Hc0 & Hc1 & Hlen).
  { unfold cumtrapz_x. discriminate. }
  destruct (stored_layers eps e0 epsilona Hc0 Hc1 Hsurf) as (Htop & Hbot & Hin).
  exists M, radau_a, (removelast (rev eps)), (tl (rev eps)).
  split; [exact HM|]. split; [exact Hr|].
  split.
  { unfold Ellipticipy.model_epsilon.
    rewrite (Req_bool_false lod 0) by lra. rewrite HM. cbn [bind].
    rewrite Hr. cbn [bind]. fold epsilona. rewrite Hlast. cbn [bind].
    rewrite H0. cbn [bind]. rewrite Heps. reflexivity. }
  split; [exact Htop|].
  split; [apply surface_epsilon_positive; lra|].
  split; [exists e0; split; assumption|].
  assert (Hn : List.length eps = S (List.length (layers model))).
  { rewrite Hlen. unfold cumtrapz_x, cumsum. cbn [List.length].
    rewrite cumsum_from_length, zipWith_length_min, !pairwise_length,
      zipWith_length_min, Hrl.
    unfold Ellipticipy.top_radii. rewrite !length_map, length_rev.
    destruct (layers model); [congruence | cbn [List.length]; lia]. }
  split.
  - rewrite removelast_length, length_rev, Hn. lia.
  - rewrite tl_length, length_rev, Hn. lia.
Qed.

(** C8.  For a velocity model with positive density and a positive
    length of day, [model_epsilon] stores at the surface the value
    [5 * h_a / (2 * eta_surface + 4)] with
    [h_a = a^3 * Omega^2 / (G * M_total)], this value is positive, and the
    value stored at the centre of the planet is the one stored at the
    first sample of nonzero radius: on the radial grid of
    [src/ellipticity/tools.py] (first part) and on the velocity layers of
    [src/ellipticipy/tools.py] (second part). *)
Theorem profile_surface_and_centre (model : TauModel) (lod : R)
    (taper : bool) (dr : R) :
  0 < lod ->
  0 < radius_of_planet model ->
  let a := radius_of_planet model * 1e3 in
  let Omega := 2 * PI / lod in
  (0 < dr -> dr <= a ->
   (forall depth, 0 < evaluate_above model depth Dens) ->
   0 < evaluate_below model 0.0 Dens ->
   exists r M eta_a eps,
     Ellipticity.sample_radii model dr = Ok r
     /\ last_elt (Ellipticity.shell_mass model dr r) = Ok M
     /\ last_elt (Ellipticity.radau model taper dr r) = Ok eta_a
     /\ Ellipticity.model_epsilon model lod taper dr
        = Ok (set_radial_epsilon model r eps)
     /\ last_elt eps
        = Ok (5 * (a ^ 3 * Omega ^ 2 / (G * M)) / (2 * eta_a + 4))
     /\ 0 < 5 * (a ^ 3 * Omega ^ 2 / (G * M)) / (2 * eta_a + 4)
     /\ py_index r 0 = Ok 0
     /\ (exists r1, py_index r 1 = Ok r1 /\ 0 < r1)
     /\ (exists e, py_index eps 0 = Ok e /\ py_index eps 1 = Ok e)
     /\ List.length eps = List.length r)
  /\
  (layers model <> [] ->
   Forall (fun r => 0 < r) (Ellipticipy.top_radii model) ->
   Forall (fun d => 0 <= d) (pairwise Rminus (Ellipticipy.top_radii model)) ->
   (forall l, In l (layers model) -> 0 < top_density l /\ 0 < bot_density l) ->
   exists M radau_a tops bots,
     last_elt (Ellipticipy.shell_mass model) = Ok M
     /\ last_elt (Ellipticipy.radau model) = Ok radau_a
     /\ Ellipticipy.model_epsilon model lod
        = Ok (set_layer_epsilon model tops bots)
     /\ py_index tops 0
        = Ok (5 * (a ^ 3 * Omega ^ 2 / (G * M)) / (2 * radau_a + 4))
     /\ 0 < 5 * (a ^ 3 * Omega ^ 2 / (G * M)) / (2 * radau_a + 4)
     /\ (exists e, py_index bots (-1) = Ok e /\ py_index tops (-1) = Ok e)
     /\ List.length tops = List.length (layers model)
     /\ List.length bots = List.length (layers model)).
Proof.
  intros Hlod Hrad a Omega. split.
  - intros Hdr Ha Habove Hbelow. apply radial_profile; assumption.
  - intros Hne Hpos Hinc Hrho. apply layer_profile; assumption.
Qed.

Lemma profile_surface_and_centre_witness :
  (exists r eps e,
     Ellipticity.model_epsilon Toy.planet EARTH_LOD true 100
     = Ok (set_radial_epsilon Toy.planet r eps)
     /\ py_index eps 0 = Ok e /\ py_index eps 1 = Ok e)
  /\ (exists tops bots e,
        Ellipticipy.model_epsilon Toy.planet EARTH_LOD
        = Ok (set_layer_epsilon Toy.planet tops bots)
        /\ py_index bots (-1) = Ok e /\ py_index tops (-1) = Ok e).
Proof.
  assert (Hlod : 0 < EARTH_LOD) by (unfold EARTH_LOD; lra).
  assert (Hrad : 0 < radius_of_planet Toy.planet) by (cbn; lra).
  destruct (profile_surface_and_centre Toy.planet EARTH_LOD true 100
              Hlod Hrad) as [HA HB].
  split.
  - destruct HA as (r & M & eta_a & eps & _ & _ & _ & Hm & _ & _ & _ & _
                    & (e & H0 & H1) & _).
    + lra.
    + cbn. lra.
    + intros depth. cbn. lra.
    + cbn. lra.
    + exists r, eps, e. auto.
  - destruct HB as (M & radau_a & tops & bots & _ & _ & Hm & _ & _
                    & (e & H0 & H1) & _).
    + discriminate.
    + cbn. constructor; [lra | constructor].
    + cbn. constructor.
    + intros l [<- | []]. cbn. lra.
    + exists tops, bots, e. auto.
Defined.

(** ** More on indexing and element-wise operations *)

Lemma Ok_inj {A} (a b : A) : Ok a = Ok b -> a = b.
Proof. intros H. injection H as H. exact H. Qed.

Lemma py_index_out {A} (l : list A) (i : Z) :
  (Z.of_nat (List.length l) <= i)%Z -> py_index l i = Raise IndexError.
Proof.
  intros H. unfold py_index. cbv zeta.
  assert (E1 : (i <? 0)%Z = false) by (apply Z.ltb_ge; lia).
  assert (E2 : (Z.of_nat (List.length l) <=? i)%Z = true)
    by (apply Z.leb_le; lia).
  rewrite !E1, E2. reflexivity.
Qed.

Lemma py_index_In {A} (l : list A) (i : Z) (a : A) :
  py_index l i = Ok a -> In a l.
Proof.
  unfold py_index. cbv zeta. destruct (_ || _)%bool; [discriminate|].
  destruct (nth_error l _) eqn:E; [|discriminate].
  intros H. apply Ok_inj in H. subst. eapply nth_error_In. exact E.
Qed.

Lemma zipWith_In {A B C} (f : A -> B -> C) l1 l2 c :
  In c (zipWith f l1 l2) -> exists a b, In a l1 /\ In b l2 /\ c = f a b.
Proof.
  revert l2. induction l1 as [|a l1 IH]; intros [|b l2] H; cbn in H;
    try contradiction.
  destruct H as [<- | H].
  - exists a, b. cbn. auto.
  - destruct (IH _ H) as (a' & b' & Ha & Hb & E).
    exists a', b'. cbn. auto.
Qed.

Lemma pairwise_In {A B} (f : A -> A -> B) l c :
  In c (pairwise f l) -> exists x y, In x l /\ In y l /\ c = f y x.
Proof.
  induction l as [|x [|y l] IH]; intros H; cbn [pairwise] in H;
    try contradiction.
  destruct H as [<- | H].
  - exists x, y. cbn. auto.
  - destruct (IH H) as (x' & y' & Hx & Hy & E).
    exists x', y'. split; [right; exact Hx|]. split; [right; exact Hy|].
    exact E.
Qed.

(** ** The weighted Legendre polynomials, in closed form *)

Lemma sqrt_3_sq : sqrt 3 * sqrt 3 = 3.
Proof. apply sqrt_sqrt. lra. Qed.

Lemma alp2_norm1 : sqrt (2 * (INR (fact 1) / INR (fact 3))) * 3.0 = sqrt 3.
Proof.
  change (INR (fact 1)) with (INR 1). change (INR (fact 3)) with (INR 6).
  rewrite !INR_IZR_INZ. cbn [Z.of_nat Pos.of_succ_nat Pos.succ].
  replace (2 * (1 / 6)) with (/ 3) by lra.
  rewrite sqrt_inv.
  pose proof sqrt_3_sq as H.
  assert (H3 : 0 < sqrt 3) by (apply sqrt_lt_R0; lra).
  field_simplify_eq; [|lra]. lra.
Qed.

Lemma alp2_norm2 : sqrt (2 * (INR (fact 0) / INR (fact 4))) * 3.0 = sqrt 3 / 2.
Proof.
  change (INR (fact 0)) with (INR 1). change (INR (fact 4)) with (INR 24).
  rewrite !INR_IZR_INZ. cbn [Z.of_nat Pos.of_succ_nat Pos.succ].
  replace (2 * (1 / 24)) with (/ (2 * 2 * 3)) by lra.
  rewrite sqrt_inv, sqrt_mult, sqrt_square by lra.
  pose proof sqrt_3_sq as H.
  assert (H3 : 0 < sqrt 3) by (apply sqrt_lt_R0; lra).
  field_simplify_eq; [|lra]. lra.
Qed.

Lemma alp2_closed theta :
  Ellipticipy.weighted_alp2 0 theta = Ok ((3 * cos theta ^ 2 - 1) / 2)
  /\ Ellipticipy.weighted_alp2 1 theta = Ok (sqrt 3 * cos theta * sin theta)
  /\ Ellipticipy.weighted_alp2 2 theta = Ok (sqrt 3 / 2 * sin theta ^ 2).
Proof.
  rewrite alp2_order0, alp2_order1, alp2_order2.
  rewrite alp2_norm1, alp2_norm2.
  repeat split; f_equal; lra.
Qed.

Lemma correction_closed c0 c1 c2 extra az lat :
  let colat := radians (90 - lat) in
  Ellipticipy.correction_from_coefficients (c0 :: c1 :: c2 :: extra) az lat
  = Ok (c0 * ((3 * cos colat ^ 2 - 1) / 2)
        + c1 * (sqrt 3 * cos colat * sin colat) * cos (radians az)
        + c2 * (sqrt 3 / 2 * sin colat ^ 2) * cos (2 * radians az)).
Proof.
  intros colat. unfold Ellipticipy.correction_from_coefficients. fold colat.
  destruct (alp2_closed colat) as (E0 & E1 & E2).
  cbn [mapM bind]. autorewrite with pyidx. cbn [bind].
  rewrite E0, E1, E2. cbn [bind].
  f_equal. unfold Rsum. cbn [fold_left].
  rewrite Rmult_0_l, cos_0, Rmult_1_l. ring.
Qed.

Lemma weighted_alp2_squares theta :
  ((3 * cos theta ^ 2 - 1) / 2) ^ 2 + (sqrt 3 * cos theta * sin theta) ^ 2
  + (sqrt 3 / 2 * sin theta ^ 2) ^ 2 = 1.
Proof.
  pose proof (sin2_cos2 theta) as H. unfold Rsqr in H.
  pose proof sqrt_3_sq as H3.
  set (c := cos theta) in *. set (s := sin theta) in *.
  set (q := sqrt 3) in *.
  replace (((3 * c ^ 2 - 1) / 2) ^ 2 + (q * c * s) ^ 2 + (q / 2 * s ^ 2) ^ 2)
    with (((3 * (c * c) - 1) / 2) ^ 2 + (q * q) * (c * c) * (s * s)
          + (q * q) / 4 * (s * s) ^ 2) by field.
  rewrite H3. replace (s * s) with (1 - c * c) by lra. field.
Qed.

Lemma unit_sphere_bound x y z : x ^ 2 + y ^ 2 + z ^ 2 = 1 -> Rabs x <= 1.
Proof.
  intros Hx. apply Rabs_le.
  pose proof (pow2_ge_0 y). pose proof (pow2_ge_0 z). nra.
Qed.

Lemma weighted_alp2_bounds theta :
  Rabs ((3 * cos theta ^ 2 - 1) / 2) <= 1
  /\ Rabs (sqrt 3 * cos theta * sin theta) <= 1
  /\ Rabs (sqrt 3 / 2 * sin theta ^ 2) <= 1.
Proof.
  pose proof (weighted_alp2_squares theta) as H.
  split; [apply (unit_sphere_bound _ _ _ H)|].
  split.
  - apply (unit_sphere_bound _ ((3 * cos theta ^ 2 - 1) / 2)
             (sqrt 3 / 2 * sin theta ^ 2)). lra.
  - apply (unit_sphere_bound _ ((3 * cos theta ^ 2 - 1) / 2)
             (sqrt 3 * cos theta * sin theta)). lra.
Qed.

(** X1.  For every angle the three weighted Legendre values of orders 0, 1
    and 2 are defined, their squares add up to one, and so none of them
    exceeds one in absolute value. *)
Theorem weighted_alp2_unit_norm (theta : R) :
  exists w0 w1 w2,
    Ellipticipy.weighted_alp2 0 theta = Ok w0
    /\ Ellipticipy.weighted_alp2 1 theta = Ok w1
    /\ Ellipticipy.weighted_alp2 2 theta = Ok w2
    /\ w0 ^ 2 + w1 ^ 2 + w2 ^ 2 = 1
    /\ Rabs w0 <= 1 /\ Rabs w1 <= 1 /\ Rabs w2 <= 1.
Proof.
  destruct (alp2_closed theta) as (E0 & E1 & E2).
  do 3 eexists. split; [exact E0|]. split; [exact E1|]. split; [exact E2|].
  split; [apply weighted_alp2_squares | apply weighted_alp2_bounds].
Qed.

(** X2.  [weighted_alp2] has period pi in the angle.  Reflecting the angle
    about the equator (pi - theta) or changing its sign negates the value
    of order 1 and leaves those of orders 0 and 2 unchanged; for any other
    order the error is the same on both sides. *)
Theorem weighted_alp2_symmetry (m : Z) (theta : R) :
  Ellipticipy.weighted_alp2 m (theta + PI) = Ellipticipy.weighted_alp2 m theta
  /\ Ellipticipy.weighted_alp2 m (PI - theta)
     = (w <- Ellipticipy.weighted_alp2 m theta ;;
        Ok (if (m =? 1)%Z then - w else w))
  /\ Ellipticipy.weighted_alp2 m (- theta)
     = (w <- Ellipticipy.weighted_alp2 m theta ;;
        Ok (if (m =? 1)%Z then - w else w)).
Proof.
  unfold Ellipticipy.weighted_alp2.
  destruct (factorial (2 - m)) as [num|e]; cbn [bind]; [|auto].
  destruct (factorial (2 + m)) as [den|e]; cbn [bind]; [|auto].
  rewrite neg_cos, neg_sin, cos_neg, sin_neg.
  replace (PI - theta) with (- theta + PI) by ring.
  rewrite neg_cos, neg_sin, cos_neg, sin_neg.
  destruct (m =? 0)%Z eqn:E0.
  { apply Z.eqb_eq in E0. subst m. cbn [Z.eqb bind].
    repeat split; f_equal; ring. }
  destruct (m =? 1)%Z eqn:E1.
  { cbn [bind]. repeat split; f_equal; ring. }
  destruct (m =? 2)%Z eqn:E2.
  { cbn [bind]. repeat split; f_equal; ring. }
  cbn [bind]. auto.
Qed.

(** X3.  [correction_from_coefficients] reads exactly the first three
    coefficients: with none, one or two of them it raises IndexError, and
    anything after the third is ignored. *)
Theorem correction_needs_three_coefficients (c0 c1 c2 : R) (extra : list R)
    (azimuth source_latitude : R) :
  Ellipticipy.correction_from_coefficients [] azimuth source_latitude
  = Raise IndexError
  /\ Ellipticipy.correction_from_coefficients [c0] azimuth source_latitude
     = Raise IndexError
  /\ Ellipticipy.correction_from_coefficients [c0; c1] azimuth source_latitude
     = Raise IndexError
  /\ Ellipticipy.correction_from_coefficients (c0 :: c1 :: c2 :: extra)
       azimuth source_latitude
     = Ellipticipy.correction_from_coefficients [c0; c1; c2]
         azimuth source_latitude.
Proof.
  split; [|split; [|split]].
  - unfold Ellipticipy.correction_from_coefficients. cbn [mapM bind].
    rewrite (py_index_out [] 0) by (cbn; lia). reflexivity.
  - unfold Ellipticipy.correction_from_coefficients. cbn [mapM bind].
    autorewrite with pyidx. rewrite alp2_order0, alp2_order1. cbn [bind].
    rewrite (py_index_out [c0] 1) by (cbn; lia). reflexivity.
  - unfold Ellipticipy.correction_from_coefficients. cbn [mapM bind].
    autorewrite with pyidx. rewrite alp2_order0, alp2_order1, alp2_order2.
    cbn [bind].
    rewrite (py_index_out [c0; c1] 2) by (cbn; lia). reflexivity.
  - rewrite !correction_closed. reflexivity.
Qed.

Lemma radians_turn x : radians (x + 360) = radians x + 2 * PI.
Proof. unfold radians. field. Qed.

Lemma radians_neg x : radians (- x) = - radians x.
Proof. unfold radians. ring. Qed.

(** X4.  The correction is unchanged when the azimuth is increased by a
    full turn of 360 degrees or replaced by its opposite, and for a source
    at either pole (latitude 90 or -90 degrees) it is the coefficient of
    order 0, whatever the azimuth. *)
Theorem correction_symmetries (c0 c1 c2 azimuth source_latitude : R) :
  Ellipticipy.correction_from_coefficients [c0; c1; c2] (azimuth + 360)
    source_latitude
  = Ellipticipy.correction_from_coefficients [c0; c1; c2] azimuth
      source_latitude
  /\ Ellipticipy.correction_from_coefficients [c0; c1; c2] (- azimuth)
       source_latitude
     = Ellipticipy.correction_from_coefficients [c0; c1; c2] azimuth
         source_latitude
  /\ Ellipticipy.correction_from_coefficients [c0; c1; c2] azimuth 90 = Ok c0
  /\ Ellipticipy.correction_from_coefficients [c0; c1; c2] azimuth (-90)
     = Ok c0.
Proof.
  rewrite !correction_closed. cbv zeta.
  split; [|split; [|split]].
  - rewrite radians_turn.
    replace (2 * (radians azimuth + 2 * PI))
      with (2 * radians azimuth + 2 * INR 2 * PI) by (cbn; ring).
    rewrite (cos_period (2 * radians azimuth) 2).
    replace (radians azimuth + 2 * PI)
      with (radians azimuth + 2 * INR 1 * PI) by (cbn; ring).
    rewrite (cos_period (radians azimuth) 1). reflexivity.
  - rewrite radians_neg.
    replace (2 * - radians azimuth) with (- (2 * radians azimuth)) by ring.
    rewrite !cos_neg. reflexivity.
  - replace (radians (90 - 90)) with 0 by (unfold radians; field).
    rewrite cos_0, sin_0. f_equal. field.
  - replace (radians (90 - -90)) with PI by (unfold radians; field).
    rewrite cos_PI, sin_PI. f_equal. field.
Qed.

(** X5.  The correction computed from three coefficients never exceeds, in
    absolute value, the sum of the absolute values of the coefficients. *)
Theorem correction_bounded (c0 c1 c2 azimuth source_latitude : R) :
  exists dt,
    Ellipticipy.correction_from_coefficients [c0; c1; c2] azimuth
      source_latitude = Ok dt
    /\ Rabs dt <= Rabs c0 + Rabs c1 + Rabs c2.
Proof.
  rewrite correction_closed. cbv zeta. eexists. split; [reflexivity|].
  set (colat := radians (90 - source_latitude)).
  destruct (weighted_alp2_bounds colat) as (B0 & B1 & B2).
  pose proof (COS_bound (radians azimuth)) as [Ha1 Ha2].
  pose proof (COS_bound (2 * radians azimuth)) as [Hb1 Hb2].
  assert (Hprod : forall c w k, Rabs w <= 1 -> -1 <= k <= 1 ->
                                Rabs (c * w * k) <= Rabs c).
  { intros c w k Hw Hk. rewrite !Rabs_mult.
    assert (Hk' : Rabs k <= 1) by (apply Rabs_le; lra).
    pose proof (Rabs_pos c). pose proof (Rabs_pos w). pose proof (Rabs_pos k).
    assert (Rabs c * Rabs w <= Rabs c * 1)
      by (apply Rmult_le_compat_l; assumption).
    assert (Rabs c * Rabs w * Rabs k <= Rabs c * Rabs w * 1).
    { apply Rmult_le_compat_l; [|assumption]. apply Rmult_le_pos; assumption. }
    lra. }
  pose proof (Hprod c0 _ 1 B0 ltac:(lra)) as H0. rewrite Rmult_1_r in H0.
  pose proof (Hprod c1 _ _ B1 (conj Ha1 Ha2)) as H1.
  pose proof (Hprod c2 _ _ B2 (conj Hb1 Hb2)) as H2.
  eapply Rle_trans; [apply Rabs_triang|].
  eapply Rle_trans; [apply Rplus_le_compat_r, Rabs_triang|]. lra.
Qed.

Lemma contains_rd name :
  contains name "rd" = true <-> In name [""; "r"; "d"; "rd"]%string.
Proof.
  cbn [contains In].
  destruct name as [|a [|b [|c n]]]; cbn [String.prefix].
  - cbn. tauto.
  - destruct (ascii_dec a "r") as [->|Hr]; cbn.
    + tauto.
    + destruct (ascii_dec a "d") as [->|Hd]; cbn.
      * tauto.
      * split; [discriminate|].
        intros [H|[H|[H|[H|[]]]]]; try discriminate; injection H; congruence.
  - destruct (ascii_dec a "r") as [->|Hr]; cbn.
    + destruct (ascii_dec b "d") as [->|Hd]; cbn.
      * tauto.
      * split; [discriminate|].
        intros [H|[H|[H|[H|[]]]]]; try discriminate; injection H; congruence.
    + destruct (ascii_dec a "d") as [->|Hd]; cbn.
      * split; [discriminate|].
        intros [H|[H|[H|[H|[]]]]]; discriminate.
      * split; [discriminate|].
        intros [H|[H|[H|[H|[]]]]]; try discriminate; injection H; congruence.
  - split.
    + destruct (ascii_dec a "r"); cbn; [destruct (ascii_dec b "d")|];
        cbn; try discriminate; destruct (ascii_dec a "d"); cbn; discriminate.
    + intros [H|[H|[H|[H|[]]]]]; discriminate.
Qed.

Lemma lower_idempotent c : lower (lower c) = lower c.
Proof. destruct c as [[] [] [] [] [] [] [] []]; reflexivity. Qed.

Lemma str_lower_idempotent s : str_lower (str_lower s) = str_lower s.
Proof.
  induction s as [|c s IH]; cbn [str_lower]; [reflexivity|].
  rewrite lower_idempotent, IH. reflexivity.
Qed.

Lemma eqb_one_char (c d : ascii) :
  String.eqb (String c EmptyString) (String d EmptyString) = Ascii.eqb c d.
Proof. cbn. destruct (Ascii.eqb c d); reflexivity. Qed.

Lemma contains_rd_char (c : ascii) :
  contains (String c EmptyString) "rd"
  = (Ascii.eqb c "r" || Ascii.eqb c "d")%bool.
Proof.
  cbn [contains String.prefix].
  destruct (ascii_dec c "r") as [->|Hr]; [reflexivity|].
  destruct (ascii_dec c "d") as [->|Hd]; [reflexivity|].
  apply Ascii.eqb_neq in Hr, Hd. rewrite Hr, Hd. reflexivity.
Qed.

(** X6.  How [evaluate_derivative_at] reads the name of the property.  It is
    insensitive to case; p gives the slope of the P velocity and s that of
    the S velocity; because the last test is membership in the string rd,
    the empty name, r, d and rd all give the slope of the density; every
    other name raises ValueError.  On a single letter this is the reading
    [Ellipticity.wave_prop] followed by [evaluate_derivative_at]. *)
Theorem derivative_property_names (layer : Layer) (prop : string) :
  let name := str_lower prop in
  (name = "p"%string ->
   evaluate_derivative_at_name layer prop
   = Ok (evaluate_derivative_at layer PVel))
  /\ (name = "s"%string ->
      evaluate_derivative_at_name layer prop
      = Ok (evaluate_derivative_at layer SVel))
  /\ (In name [""; "r"; "d"; "rd"]%string ->
      evaluate_derivative_at_name layer prop
      = Ok (evaluate_derivative_at layer Dens))
  /\ (~ In name ["p"; "s"; ""; "r"; "d"; "rd"]%string ->
      evaluate_derivative_at_name layer prop
      = Raise (ValueError "Unknown material property, use p, s, or d."))
  /\ evaluate_derivative_at_name layer (str_lower prop)
     = evaluate_derivative_at_name layer prop
  /\ (forall c : ascii,
        evaluate_derivative_at_name layer (String c EmptyString)
        = (pr <- Ellipticity.wave_prop c ;;
           Ok (evaluate_derivative_at layer pr))).
Proof.
  intros name. unfold evaluate_derivative_at_name. cbv zeta. fold name.
  split; [|split; [|split; [|split; [|split]]]].
  - intros ->. reflexivity.
  - intros ->. reflexivity.
  - intros H.
    assert (Hc : contains name "rd" = true) by (apply contains_rd; exact H).
    rewrite Hc.
    destruct H as [<-|[<-|[<-|[<-|[]]]]]; reflexivity.
  - intros H.
    destruct (String.eqb_spec name "p") as [E|_]; [elim H; left; auto|].
    destruct (String.eqb_spec name "s") as [E|_];
      [elim H; right; left; auto|].
    destruct (contains name "rd") eqn:Hc; [|reflexivity].
    apply contains_rd in Hc. elim H. right. right. exact Hc.
  - unfold name. rewrite str_lower_idempotent. reflexivity.
  - intros c. cbn [str_lower]. unfold Ellipticity.wave_prop, prop_of_ascii.
    rewrite !eqb_one_char, contains_rd_char.
    destruct (Ascii.eqb (lower c) "p"); [reflexivity|].
    destruct (Ascii.eqb (lower c) "s"); [reflexivity|].
    destruct (Ascii.eqb (lower c) "r" || Ascii.eqb (lower c) "d")%bool;
      reflexivity.
Qed.

Lemma derivative_property_names_witness :
  evaluate_derivative_at_name Toy.layer0 "P"
  = Ok (evaluate_derivative_at Toy.layer0 PVel)
  /\ evaluate_derivative_at_name Toy.layer0 ""
     = Ok (evaluate_derivative_at Toy.layer0 Dens)
  /\ evaluate_derivative_at_name Toy.layer0 "rd"
     = Ok (evaluate_derivative_at Toy.layer0 Dens)
  /\ evaluate_derivative_at_name Toy.layer0 "vp"
     = Raise (ValueError "Unknown material property, use p, s, or d.").
Proof.
  split; [|split; [|split]].
  - apply (proj1 (derivative_property_names Toy.layer0 "P")). reflexivity.
  - apply (proj1 (proj2 (proj2 (derivative_property_names Toy.layer0 "")))).
    left. reflexivity.
  - apply (proj1 (proj2 (proj2 (derivative_property_names Toy.layer0 "rd")))).
    right. right. right. left. reflexivity.
  - apply (proj1 (proj2 (proj2 (proj2
             (derivative_property_names Toy.layer0 "vp"))))).
    intros [H|[H|[H|[H|[H|[H|[]]]]]]]; discriminate.
Defined.

Lemma fraction_in_unit x lo hi :
  lo < hi -> lo <= x <= hi -> 0 <= (x - lo) / (hi - lo) <= 1.
Proof.
  intros Hlt [H1 H2]. split.
  - apply Rmult_le_pos; [lra|]. apply Rlt_le, Rinv_0_lt_compat. lra.
  - apply (Rmult_le_reg_r (hi - lo)); [lra|].
    unfold Rdiv. rewrite Rmult_assoc, Rinv_l by lra. lra.
Qed.

Lemma convex_between a b t :
  0 <= t <= 1 -> Rmin a b <= a + (b - a) * t <= Rmax a b.
Proof.
  intros [H0 H1]. unfold Rmin, Rmax. destruct (Rle_dec a b); split; nra.
Qed.

(** X7.  [Ellipticipy.get_epsilon] interpolates linearly in depth between
    the values stored for the top and the bottom of the layer holding the
    depth: it returns the top value at the top of the layer, the bottom
    value at its bottom, and a value between the two for a depth inside
    the layer. *)
Theorem get_epsilon_interpolates (model : TauModel) (depth : R)
    (layer : Layer) (tops bots : list R) (top_eps bot_eps : R) :
  let idx := if Rlt_bool 0.0 depth then layer_number_above model depth
             else layer_number_below model 0.0 in
  layer_at model idx = Ok layer ->
  top_epsilon model = Some tops ->
  bot_epsilon model = Some bots ->
  py_index tops (Z.of_nat idx) = Ok top_eps ->
  py_index bots (Z.of_nat idx) = Ok bot_eps ->
  top_depth layer < bot_depth layer ->
  exists e,
    Ellipticipy.get_epsilon model depth = Ok e
    /\ e = top_eps + (bot_eps - top_eps)
                     * ((depth - top_depth layer)
                        / (bot_depth layer - top_depth layer))
    /\ (depth = top_depth layer -> e = top_eps)
    /\ (depth = bot_depth layer -> e = bot_eps)
    /\ (top_depth layer <= depth <= bot_depth layer ->
        Rmin top_eps bot_eps <= e <= Rmax top_eps bot_eps).
Proof.
  intros idx Hlayer Htops Hbots Htop Hbot Hthick.
  unfold Ellipticipy.get_epsilon. cbv zeta. fold idx.
  rewrite Hlayer. cbn [bind]. rewrite Hbots. cbn [attr bind].
  rewrite Hbot. cbn [bind]. rewrite Htops. cbn [attr bind].
  rewrite Htop. cbn [bind].
  eexists. split; [reflexivity|].
  assert (Hform :
    (bot_eps - top_eps) / (bot_depth layer - top_depth layer)
    * (depth - top_depth layer) + top_eps
    = top_eps + (bot_eps - top_eps)
                * ((depth - top_depth layer)
                   / (bot_depth layer - top_depth layer))).
  { field. lra. }
  rewrite Hform. split; [reflexivity|].
  split; [|split].
  - intros ->. unfold Rdiv. rewrite Rminus_diag. ring.
  - intros ->. unfold Rdiv. rewrite Rinv_r by lra. ring.
  - intros Hin. apply convex_between. apply fraction_in_unit; assumption.
Qed.

Lemma get_epsilon_interpolates_witness :
  exists e,
    Ellipticipy.get_epsilon Toy.planet 0.5 = Ok e
    /\ e = 1 + (1 - 1) * ((0.5 - 0) / (1 - 0))
    /\ Rmin 1 1 <= e <= Rmax 1 1.
Proof.
  assert (Hidx : (if Rlt_bool 0.0 0.5
                  then layer_number_above Toy.planet 0.5
                  else layer_number_below Toy.planet 0.0) = 0%nat).
  { destruct (Rlt_bool 0.0 0.5); reflexivity. }
  destruct (get_epsilon_interpolates Toy.planet 0.5 Toy.layer0 [1] [1] 1 1)
    as (e & He & Hform & _ & _ & Hbetween).
  - rewrite Hidx. reflexivity.
  - reflexivity.
  - reflexivity.
  - rewrite Hidx. reflexivity.
  - rewrite Hidx. reflexivity.
  - cbn. lra.
  - exists e. split; [exact He|]. split; [exact Hform|].
    apply Hbetween. cbn. lra.
Defined.

Lemma layer_lengths model :
  List.length (Ellipticipy.top_radii model) = List.length (layers model)
  /\ List.length (Ellipticipy.shell_mass model) = List.length (layers model)
  /\ List.length (Ellipticipy.radau model) = List.length (layers model).
Proof.
  assert (Hr : List.length (Ellipticipy.top_radii model)
               = List.length (layers model)).
  { unfold Ellipticipy.top_radii. rewrite !length_map, length_rev.
    reflexivity. }
  assert (Hd : List.length (Ellipticipy.shell_density model)
               = List.length (layers model)).
  { unfold Ellipticipy.shell_density.
    rewrite zipWith_length_min, !length_map, length_rev. apply Nat.min_id. }
  assert (Hm : List.length (Ellipticipy.shell_mass model)
               = List.length (layers model)).
  { unfold Ellipticipy.shell_mass, cumsum.
    rewrite cumsum_from_length, zipWith_length_min, pairwise_length.
    cbn [List.length]. rewrite length_map, Hd, Hr. lia. }
  split; [exact Hr|]. split; [exact Hm|].
  unfold Ellipticipy.radau, cumsum.
  rewrite length_map, !zipWith_length_min, cumsum_from_length,
    zipWith_length_min, pairwise_length.
  cbn [List.length]. rewrite length_map, Hd, Hm, Hr. lia.
Qed.

Lemma nth_removelast {A} (l : list A) (i : nat) (d : A) :
  (S i < List.length l)%nat -> nth i (removelast l) d = nth i l d.
Proof.
  revert i. induction l as [|a [|b l] IH]; intros i Hi; cbn [List.length] in Hi;
    try lia.
  cbn [removelast]. destruct i as [|i]; [reflexivity|].
  cbn [nth]. apply IH. cbn [List.length]. lia.
Qed.

Lemma stored_layers_join {A} (l : list A) (d : A) (i : nat) :
  (S i < List.length (removelast l))%nat ->
  nth i (tl l) d = nth (S i) (removelast l) d.
Proof.
  intros Hi. rewrite removelast_length in Hi.
  rewrite nth_removelast by lia.
  destruct l as [|a l]; [cbn in Hi; lia | reflexivity].
Qed.

(** X8.  After [Ellipticipy.model_epsilon] the model holds one top value
    and one bottom value per layer, and the value at the bottom of a layer
    is the value at the top of the next one: the stored profile has no jump
    between layers. *)
Theorem layer_profile_joins (model : TauModel) (lod : R) (model' : TauModel) :
  Ellipticipy.model_epsilon model lod = Ok model' ->
  exists tops bots,
    model' = set_layer_epsilon model tops bots
    /\ List.length tops = List.length (layers model)
    /\ List.length bots = List.length (layers model)
    /\ (forall i, (S i < List.length (layers model))%nat ->
          nth i bots 0 = nth (S i) tops 0).
Proof.
  intros H. unfold Ellipticipy.model_epsilon in H. cbv zeta in H.
  destruct (Req_bool lod 0); [discriminate|].
  apply bind_Ok in H as (M & HM & H).
  apply bind_Ok in H as (radau_a & _ & H).
  apply bind_Ok in H as (e_last & _ & H).
  apply bind_Ok in H as (e0 & _ & H).
  apply Ok_inj in H. subst model'.
  destruct (layer_lengths model) as (Hr & Hm & Hra).
  assert (Hn : (1 <= List.length (layers model))%nat).
  { rewrite <- Hm. destruct (Ellipticipy.shell_mass model); [discriminate|].
    cbn. lia. }
  set (eps := map (fun e => _ * e / e_last) _).
  assert (Hlen : List.length (rev (e0 :: eps))
                 = S (List.length (layers model))).
  { rewrite length_rev. cbn [List.length]. f_equal. unfold eps.
    rewrite !length_map. unfold cumtrapz_x, cumsum. cbn [List.length].
    rewrite cumsum_from_length, zipWith_length_min, !pairwise_length,
      zipWith_length_min, Hra, Hr. lia. }
  exists (removelast (rev (e0 :: eps))), (tl (rev (e0 :: eps))).
  split; [reflexivity|].
  assert (Ht : List.length (removelast (rev (e0 :: eps)))
               = List.length (layers model))
    by (rewrite removelast_length, Hlen; lia).
  split; [exact Ht|].
  split; [rewrite tl_length, Hlen; lia|].
  intros i Hi. apply stored_layers_join. rewrite Ht. exact Hi.
Qed.

Lemma layered_planet_profile :
  exists tops bots,
    Ellipticipy.model_epsilon Sample.layered_planet EARTH_LOD
    = Ok (set_layer_epsilon Sample.layered_planet tops bots).
Proof.
  destruct (layer_profile Sample.layered_planet EARTH_LOD)
    as (M & radau_a & tops & bots & _ & _ & Hm & _).
  - unfold EARTH_LOD. lra.
  - cbn. lra.
  - discriminate.
  - cbn. repeat constructor; lra.
  - cbn. repeat constructor; lra.
  - intros l [<- | [<- | []]]; cbn; lra.
  - exists tops, bots. exact Hm.
Qed.

Lemma layer_profile_joins_witness :
  exists model' tops bots,
    Ellipticipy.model_epsilon Sample.layered_planet EARTH_LOD = Ok model'
    /\ model' = set_layer_epsilon Sample.layered_planet tops bots
    /\ List.length tops = 2%nat
    /\ List.length bots = 2%nat
    /\ nth 0 bots 0 = nth 1 tops 0.
Proof.
  destruct layered_planet_profile as (tops0 & bots0 & Hm).
  destruct (layer_profile_joins Sample.layered_planet EARTH_LOD _ Hm)
    as (tops & bots & E & Ht & Hb & Hjoin).
  exists (set_layer_epsilon Sample.layered_planet tops0 bots0), tops, bots.
  split; [exact Hm|]. split; [exact E|].
  split; [exact Ht|]. split; [exact Hb|].
  apply Hjoin. cbn. lia.
Defined.

(** ** The profile and the length of day *)

Lemma py_index_map {A B} (f : A -> B) (l : list A) (i : Z) (x : A) :
  py_index l i = Ok x -> py_index (map f l) i = Ok (f x).
Proof.
  unfold py_index. cbv zeta. rewrite length_map.
  destruct (_ || _)%bool; [discriminate|].
  rewrite nth_error_map.
  destruct (nth_error l _); cbn; [|discriminate].
  intros H. apply Ok_inj in H. subst. reflexivity.
Qed.

Lemma removelast_map {A B} (f : A -> B) (l : list A) :
  removelast (map f l) = map f (removelast l).
Proof.
  induction l as [|a [|b l] IH]; cbn [map removelast] in *; try reflexivity.
  rewrite IH. reflexivity.
Qed.

Lemma tl_map {A B} (f : A -> B) (l : list A) : tl (map f l) = map f (tl l).
Proof. destruct l; reflexivity. Qed.

Lemma surface_value_scales a lod k M eta_a :
  lod <> 0 -> k <> 0 ->
  5 * (a ^ 3 * (2 * PI / (k * lod)) ^ 2 / (G * M)) / (2 * eta_a + 4)
  = 5 * (a ^ 3 * (2 * PI / lod) ^ 2 / (G * M)) / (2 * eta_a + 4) / k ^ 2.
Proof.
  intros Hlod Hk. unfold Rdiv. rewrite Rinv_mult. 
  cbn [pow]. rewrite !Rmult_1_r.
  set (x := / (G * M)). set (y := / (2 * eta_a + 4)).
  field. split; assumption.
Qed.

Lemma scaled_profile (epsilona e_last c : R) (E : list R) :
  map (fun e => epsilona / c * e / e_last) E
  = map (fun e => e / c) (map (fun e => epsilona * e / e_last) E).
Proof.
  rewrite map_map. apply map_ext. intros e. unfold Rdiv. ring.
Qed.

(** X9.  The stored ellipticity scales with the inverse square of the
    length of day: building the profile for k times the length of day
    gives, in both files, the same grid and every epsilon divided by
    k squared. *)
Theorem profile_scales_with_length_of_day (model : TauModel) (lod k : R) :
  lod <> 0 -> k <> 0 ->
  (forall m1,
     Ellipticipy.model_epsilon model lod = Ok m1 ->
     exists tops bots,
       m1 = set_layer_epsilon model tops bots
       /\ Ellipticipy.model_epsilon model (k * lod)
          = Ok (set_layer_epsilon model
                  (map (fun e => e / k ^ 2) tops)
                  (map (fun e => e / k ^ 2) bots)))
  /\ (forall taper dr m1,
        Ellipticity.model_epsilon model lod taper dr = Ok m1 ->
        exists r eps,
          m1 = set_radial_epsilon model r eps
          /\ Ellipticity.model_epsilon model (k * lod) taper dr
             = Ok (set_radial_epsilon model r
                     (map (fun e => e / k ^ 2) eps))).
Proof.
  intros Hlod Hk.
  assert (Hklod : k * lod <> 0) by (apply Rmult_integral_contrapositive_currified; assumption).
  split.
  - intros m1 H. unfold Ellipticipy.model_epsilon in *. cbv zeta in *.
    rewrite (Req_bool_false lod 0) in H by exact Hlod.
    rewrite (Req_bool_false (k * lod) 0) by exact Hklod.
    apply bind_Ok in H as (M & HM & H).
    apply bind_Ok in H as (radau_a & Hr & H).
    apply bind_Ok in H as (e_last & Hl & H).
    apply bind_Ok in H as (e0 & H0 & H).
    apply Ok_inj in H. subst m1.
    do 2 eexists. split; [reflexivity|].
    rewrite HM. cbn [bind]. rewrite Hr. cbn [bind]. rewrite Hl. cbn [bind].
    rewrite (surface_value_scales _ lod k M radau_a Hlod Hk).
    rewrite scaled_profile.
    rewrite (py_index_map (fun e => e / k ^ 2) _ _ _ H0). cbn [bind].
    rewrite <- (map_cons (fun e => e / k ^ 2)), <- map_rev.
    rewrite removelast_map, tl_map. reflexivity.
  - intros taper dr m1 H. unfold Ellipticity.model_epsilon in *.
    cbv zeta in *.
    rewrite (Req_bool_false lod 0) in H by exact Hlod.
    rewrite (Req_bool_false (k * lod) 0) by exact Hklod.
    apply bind_Ok in H as (r & Hr & H).
    apply bind_Ok in H as (M & HM & H).
    apply bind_Ok in H as (eta_a & He & H).
    apply bind_Ok in H as (e_last & Hl & H).
    apply bind_Ok in H as (e0 & H0 & H).
    apply Ok_inj in H. subst m1.
    do 2 eexists. split; [reflexivity|].
    rewrite Hr. cbn [bind]. rewrite HM. cbn [bind]. rewrite He. cbn [bind].
    rewrite Hl. cbn [bind].
    rewrite (surface_value_scales _ lod k M eta_a Hlod Hk).
    rewrite scaled_profile.
    rewrite (py_index_map (fun e => e / k ^ 2) _ _ _ H0). cbn [bind].
    rewrite <- (map_cons (fun e => e / k ^ 2)). reflexivity.
Qed.

Lemma toy_layer_profile :
  exists tops bots,
    Ellipticipy.model_epsilon Toy.planet EARTH_LOD
    = Ok (set_layer_epsilon Toy.planet tops bots).
Proof.
  destruct (layer_profile Toy.planet EARTH_LOD)
    as (M & radau_a & tops & bots & _ & _ & Hm & _).
  - unfold EARTH_LOD. lra.
  - cbn. lra.
  - discriminate.
  - cbn. repeat constructor; lra.
  - cbn. repeat constructor; lra.
  - intros l [<- | []]; cbn; lra.
  - exists tops, bots. exact Hm.
Qed.

Lemma toy_radial_profile taper :
  exists r eps,
    Ellipticity.model_epsilon Toy.planet EARTH_LOD taper 100
    = Ok (set_radial_epsilon Toy.planet r eps).
Proof.
  destruct (radial_profile Toy.planet EARTH_LOD taper 100)
    as (r & M & eta_a & eps & _ & _ & _ & Hm & _).
  - unfold EARTH_LOD. lra.
  - lra.
  - cbn. lra.
  - intros depth. cbn. lra.
  - cbn. lra.
  - exists r, eps. exact Hm.
Qed.

Lemma profile_scales_with_length_of_day_witness :
  (exists tops bots,
     Ellipticipy.model_epsilon Toy.planet EARTH_LOD
     = Ok (set_layer_epsilon Toy.planet tops bots)
     /\ Ellipticipy.model_epsilon Toy.planet (2 * EARTH_LOD)
        = Ok (set_layer_epsilon Toy.planet
                (map (fun e => e / 2 ^ 2) tops)
                (map (fun e => e / 2 ^ 2) bots)))
  /\ (exists r eps,
        Ellipticity.model_epsilon Toy.planet EARTH_LOD true 100
        = Ok (set_radial_epsilon Toy.planet r eps)
        /\ Ellipticity.model_epsilon Toy.planet (2 * EARTH_LOD) true 100
           = Ok (set_radial_epsilon Toy.planet r
                   (map (fun e => e / 2 ^ 2) eps))).
Proof.
  assert (Hlod : EARTH_LOD <> 0) by (unfold EARTH_LOD; lra).
  assert (Hk : 2 <> 0) by lra.
  destruct (profile_scales_with_length_of_day Toy.planet EARTH_LOD 2 Hlod Hk)
    as [HA HB].
  split.
  - destruct toy_layer_profile as (tops0 & bots0 & Hm).
    destruct (HA _ Hm) as (tops & bots & E & H2).
    exists tops, bots. split; [rewrite Hm, E; reflexivity | exact H2].
  - destruct (toy_radial_profile true) as (r0 & eps0 & Hm).
    destruct (HB true 100 _ Hm) as (r & eps & E & H2).
    exists r, eps. split; [rewrite Hm, E; reflexivity | exact H2].
Defined.

(** ** The radial profile under the taper *)

Lemma radial_profile_structure model lod taper dr :
  0 < lod -> 0 < dr -> dr <= radius_of_planet model * 1e3 ->
  (forall depth, 0 < evaluate_above model depth Dens) ->
  0 < evaluate_below model 0.0 Dens ->
  exists tail epsilona e_last,
    Ellipticity.sample_radii model dr = Ok (0 :: tail)
    /\ tail <> [] /\ Forall (fun x => 0 < x) tail
    /\ 0 < epsilona /\ 0 < e_last
    /\ let body :=
         map (fun e => epsilona * e / e_last)
             (map exp (cumtrapz_initial
                         (zipWith (fun e ri => dr * e / ri)
                            (Ellipticity.radau model taper dr (0 :: tail))
                            tail))) in
       Ellipticity.model_epsilon model lod taper dr
       = Ok (set_radial_epsilon model (0 :: tail) (hd 0 body :: body)).
Proof.
  intros Hlod Hdr Ha Habove Hbelow.
  destruct (sample_radii_shape model dr Hdr Ha) as (tail & Hr & Hne & Htail).
  destruct (shell_mass_total model dr tail Hdr Hne Htail Habove Hbelow)
    as (M & HM & HMpos & _).
  destruct (radau_surface model taper dr tail Hdr Hne Htail Habove Hbelow)
    as (eta_a & Heta & Hge & _).
  set (epsilona := 5 * ((radius_of_planet model * 1e3) ^ 3
                        * (2 * PI / lod) ^ 2 / (G * M)) / (2 * eta_a + 4)).
  set (I := cumtrapz_initial
              (zipWith (fun e ri => dr * e / ri)
                 (Ellipticity.radau model taper dr (0 :: tail)) tail)).
  destruct (last_elt_ok (map exp I)) as (e_last & Hlast).
  { unfold I, cumtrapz_initial. discriminate. }
  exists tail, epsilona, e_last.
  split; [exact Hr|]. split; [exact Hne|]. split; [exact Htail|].
  split.
  { apply surface_epsilon_positive; try assumption.
    assert (0 < radius_of_planet model * 1e3) by lra. assumption. }
  split.
  { apply last_elt_In in Hlast. apply in_map_iff in Hlast as (x & <- & _).
    apply exp_pos. }
  cbv zeta. fold I.
  unfold Ellipticity.model_epsilon.
  rewrite (Req_bool_false lod 0) by lra. rewrite Hr. cbn [bind].
  rewrite HM. cbn [bind]. rewrite Heta. cbn [bind tl].
  fold epsilona. fold I. rewrite Hlast. cbn [bind].
  destruct (map (fun e => epsilona * e / e_last) (map exp I)) as [|b0 rest] eqn:E.
  { unfold I, cumtrapz_initial in E. discriminate. }
  rewrite py_index_0. cbn [bind hd]. reflexivity.
Qed.

Lemma radau_tapered model dr r x :
  In x (Ellipticity.radau model true dr r) -> 0 <= x.
Proof.
  unfold Ellipticity.radau. intros H.
  apply in_map_iff in H as (y & <- & Hy).
  apply in_map_iff in Hy as (y0 & <- & _).
  destruct (Rlt_bool_spec 0.4 y0) as [Hlt | Hge].
  - replace (1 - 3 * 0.4 / 2) with 0.4 by lra. lra.
  - assert (H1 : 0.4 <= 1 - 3 * y0 / 2) by lra.
    assert (H2 : 0.4 * 0.4 <= (1 - 3 * y0 / 2) ^ 2) by nra.
    lra.
Qed.

Lemma cumsum_steps acc l :
  Forall (fun x => 0 <= x) l ->
  Forall (fun d => 0 <= d) (pairwise Rminus (acc :: cumsum_from acc l)).
Proof.
  revert acc. induction l as [|x l IH]; intros acc H; cbn [cumsum_from].
  - constructor.
  - inversion H as [|? ? Hx Hl]; subst. cbn [pairwise].
    constructor; [lra|]. apply IH. exact Hl.
Qed.

Lemma pairwise_map_incr (V : R -> R) l :
  (forall x y, x <= y -> V x <= V y) ->
  Forall (fun d => 0 <= d) (pairwise Rminus l) ->
  Forall (fun d => 0 <= d) (pairwise Rminus (map V l)).
Proof.
  intros HV. induction l as [|x [|y l] IH]; intros Hinc;
    cbn [map pairwise] in *; try constructor.
  - inversion Hinc as [|? ? Hd Hinc']; subst.
    specialize (HV x y ltac:(lra)). lra.
  - apply IH. inversion Hinc; assumption.
Qed.

Lemma repeated_head_steps (l : list R) :
  Forall (fun d => 0 <= d) (pairwise Rminus l) ->
  Forall (fun d => 0 <= d) (pairwise Rminus (hd 0 l :: l)).
Proof.
  destruct l as [|a l]; intros H; cbn [hd pairwise].
  - constructor.
  - constructor; [lra | exact H].
Qed.

(** X10.  For positive density, length of day and grid step (not larger
    than the planet), [Ellipticity.model_epsilon] stores only positive
    values, with or without the taper; with the taper the stored profile
    never decreases from one grid radius to the next one outward. *)
Theorem tapered_profile_increases (model : TauModel) (lod dr : R) :
  0 < lod -> 0 < dr -> dr <= radius_of_planet model * 1e3 ->
  (forall depth, 0 < evaluate_above model depth Dens) ->
  0 < evaluate_below model 0.0 Dens ->
  (forall taper,
     exists r eps,
       Ellipticity.model_epsilon model lod taper dr
       = Ok (set_radial_epsilon model r eps)
       /\ Forall (fun e => 0 < e) eps)
  /\ (exists r eps,
        Ellipticity.model_epsilon model lod true dr
        = Ok (set_radial_epsilon model r eps)
        /\ Forall (fun d => 0 <= d) (pairwise Rminus eps)).
Proof.
  intros Hlod Hdr Ha Habove Hbelow. split.
  - intros taper.
    destruct (radial_profile_structure model lod taper dr Hlod Hdr Ha
                Habove Hbelow)
      as (tail & epsilona & e_last & _ & _ & _ & Hea & Hel & Hm).
    cbv zeta in Hm. do 2 eexists. split; [exact Hm|].
    set (body := map (fun e => epsilona * e / e_last) _).
    assert (Hbody : Forall (fun e => 0 < e) body).
    { apply Forall_forall. intros e He. unfold body in He.
      apply in_map_iff in He as (x & <- & Hx).
      apply in_map_iff in Hx as (y & <- & _).
      apply Rdiv_lt_0_compat; [|exact Hel].
      apply Rmult_lt_0_compat; [exact Hea | apply exp_pos]. }
    assert (Hne : body <> [])
      by (unfold body, cumtrapz_initial; discriminate).
    constructor; [|exact Hbody].
    destruct body as [|b0 rest]; [congruence|].
    inversion Hbody; assumption.
  - destruct (radial_profile_structure model lod true dr Hlod Hdr Ha
                Habove Hbelow)
      as (tail & epsilona & e_last & _ & _ & Htail & Hea & Hel & Hm).
    cbv zeta in Hm. do 2 eexists. split; [exact Hm|].
    apply repeated_head_steps.
    apply pairwise_map_incr.
    { intros x y Hxy. unfold Rdiv.
      assert (0 < / e_last) by (apply Rinv_0_lt_compat; exact Hel).
      apply Rmult_le_compat_r; [lra|].
      apply Rmult_le_compat_l; lra. }
    apply pairwise_map_incr.
    { intros x y [Hxy | ->]; [left; apply exp_increasing; exact Hxy | lra]. }
    unfold cumtrapz_initial, cumtrapz, cumsum. apply cumsum_steps.
    apply Forall_forall. intros w Hw.
    apply pairwise_In in Hw as (x & y & Hx & Hy & ->).
    assert (Hpos : forall z,
              In z (zipWith (fun e ri => dr * e / ri)
                      (Ellipticity.radau model true dr (0 :: tail)) tail) ->
              0 <= z).
    { intros z Hz. apply zipWith_In in Hz as (e & ri & He & Hri & ->).
      apply radau_tapered in He.
      rewrite Forall_forall in Htail. specialize (Htail ri Hri).
      apply Rmult_le_pos; [apply Rmult_le_pos; lra|].
      apply Rlt_le, Rinv_0_lt_compat. exact Htail. }
    specialize (Hpos x Hx) as Hx0. specialize (Hpos y Hy) as Hy0. lra.
Qed.

Lemma tapered_profile_increases_witness :
  (exists r eps,
     Ellipticity.model_epsilon Toy.planet EARTH_LOD false 100
     = Ok (set_radial_epsilon Toy.planet r eps)
     /\ Forall (fun e => 0 < e) eps)
  /\ (exists r eps,
        Ellipticity.model_epsilon Toy.planet EARTH_LOD true 100
        = Ok (set_radial_epsilon Toy.planet r eps)
        /\ Forall (fun d => 0 <= d) (pairwise Rminus eps)).
Proof.
  destruct (tapered_profile_increases Toy.planet EARTH_LOD 100) as [HA HB].
  - unfold EARTH_LOD. lra.
  - lra.
  - cbn. lra.
  - intros depth. cbn. lra.
  - cbn. lra.
  - split; [exact (HA false) | exact HB].
Defined.

(** ** Looking the profile up by radius *)

Lemma sorted_head_le a (l : list R) :
  Forall (fun d => 0 <= d) (pairwise Rminus (a :: l)) ->
  Forall (fun y => a <= y) l.
Proof.
  revert a. induction l as [|b l IH]; intros a H; [constructor|].
  cbn [pairwise] in H. inversion H as [|? ? Hd Hrest]; subst.
  constructor; [lra|].
  specialize (IH b Hrest). rewrite Forall_forall in *.
  intros y Hy. specialize (IH y Hy). lra.
Qed.

Lemma sorted_tail a (l : list R) :
  Forall (fun d => 0 <= d) (pairwise Rminus (a :: l)) ->
  Forall (fun d => 0 <= d) (pairwise Rminus l).
Proof.
  destruct l as [|b l]; intros H; [constructor|].
  cbn [pairwise] in H. inversion H; assumption.
Qed.

Lemma sorted_nth (l : list R) i j :
  Forall (fun d => 0 <= d) (pairwise Rminus l) ->
  (i <= j < List.length l)%nat -> nth i l 0 <= nth j l 0.
Proof.
  revert i j. induction l as [|a l IH]; intros i j Hs Hij;
    [cbn in Hij; lia|].
  destruct i as [|i], j as [|j]; cbn [nth]; try lra; try lia.
  - pose proof (sorted_head_le a l Hs) as Hle.
    rewrite Forall_forall in Hle. apply Hle. apply nth_In.
    cbn [List.length] in Hij. lia.
  - apply IH; [apply (sorted_tail a); exact Hs|].
    cbn [List.length] in Hij. lia.
Qed.

Lemma searchsorted_spec (radii : list R) (x : R) :
  Forall (fun d => 0 <= d) (pairwise Rminus radii) ->
  (searchsorted_left radii x <= List.length radii)%nat
  /\ (forall j, (j < searchsorted_left radii x)%nat -> nth j radii 0 < x)
  /\ (forall j, (searchsorted_left radii x <= j < List.length radii)%nat ->
        x <= nth j radii 0).
Proof.
  unfold searchsorted_left.
  induction radii as [|a l IH]; intros Hs.
  - cbn. repeat split; intros; lia.
  - specialize (IH (sorted_tail a l Hs)) as (IH1 & IH2 & IH3).
    cbn [filter]. destruct (Rlt_bool_spec a x) as [Hlt | Hge].
    + cbn [List.length]. split; [lia|]. split.
      * intros [|j] Hj; cbn [nth]; [exact Hlt | apply IH2; lia].
      * intros [|j] Hj; cbn [nth]; [lia | apply IH3; lia].
    + pose proof (sorted_head_le a l Hs) as Hle.
      assert (Hnone : filter (fun r => Rlt_bool r x) l = []).
      { apply filter_none. intros y Hy. rewrite Forall_forall in Hle.
        specialize (Hle y Hy). apply Rlt_bool_false. lra. }
      rewrite Hnone. cbn [List.length]. split; [lia|]. split.
      * intros j Hj. lia.
      * intros [|j] Hj; cbn [nth]; [lra|].
        rewrite Forall_forall in Hle.
        assert (a <= nth j l 0).
        { apply Hle, nth_In. cbn [List.length] in Hj. lia. }
        lra.
Qed.

Ltac by_cases_abs :=
  unfold Rabs; repeat destruct (Rcase_abs _); lra.

Lemma nearest_sample (model : TauModel) (radius : R)
    (radii eps : list R) :
  epsilon_r model = Some radii ->
  epsilon model = Some eps ->
  radii <> [] ->
  List.length eps = List.length radii ->
  Forall (fun d => 0 <= d) (pairwise Rminus radii) ->
  exists i,
    (i < List.length radii)%nat
    /\ Ellipticity.get_epsilon model radius = Ok (nth i eps 0)
    /\ forall j, (j < List.length radii)%nat ->
         Rabs (radius - nth i radii 0) <= Rabs (radius - nth j radii 0).
Proof.
  intros Hr He Hne Hlen Hs.
  destruct (searchsorted_spec radii radius Hs) as (Hk & Hbelow & Habove).
  unfold Ellipticity.get_epsilon. rewrite He, Hr. cbn [attr bind]. cbv zeta.
  set (k := searchsorted_left radii radius) in *.
  assert (Hn : (0 < List.length radii)%nat)
    by (destruct radii; [congruence | cbn; lia]).
  destruct (0 <? k)%nat eqn:E0.
  - apply Nat.ltb_lt in E0.
    replace (Z.of_nat k - 1)%Z with (Z.of_nat (k - 1)) by lia.
    destruct (k =? List.length radii)%nat eqn:E1.
    + apply Nat.eqb_eq in E1. exists (k - 1)%nat.
      split; [lia|]. split; [apply py_index_nth; lia|].
      intros j Hj.
      pose proof (Hbelow (k - 1)%nat ltac:(lia)) as H1.
      pose proof (Hbelow j ltac:(lia)) as H2.
      pose proof (sorted_nth radii j (k - 1) Hs ltac:(lia)) as H3.
      by_cases_abs.
    + apply Nat.eqb_neq in E1.
      rewrite (py_index_nth radii (k - 1) 0) by lia.
      rewrite (py_index_nth radii k 0) by lia. cbn [bind].
      pose proof (Hbelow (k - 1)%nat ltac:(lia)) as Hlo.
      pose proof (Habove k ltac:(lia)) as Hhi.
      assert (Hfar : forall j, (j < List.length radii)%nat ->
                (nth j radii 0 <= nth (k - 1) radii 0
                 \/ nth k radii 0 <= nth j radii 0)).
      { intros j Hj. destruct (Nat.le_gt_cases j (k - 1)) as [Hjk | Hjk].
        - left. apply sorted_nth; [exact Hs | lia].
        - right. apply sorted_nth; [exact Hs | lia]. }
      destruct (Rlt_bool_spec (Rabs (radius - nth (k - 1) radii 0))
                              (Rabs (radius - nth k radii 0))) as [Hc | Hc].
      * exists (k - 1)%nat. split; [lia|].
        split; [apply py_index_nth; lia|].
        intros j Hj. destruct (Hfar j Hj) as [H | H]; revert Hc; by_cases_abs.
      * exists k. split; [lia|]. split; [apply py_index_nth; lia|].
        intros j Hj. destruct (Hfar j Hj) as [H | H]; revert Hc; by_cases_abs.
  - apply Nat.ltb_ge in E0. assert (k = 0%nat) by lia.
    exists 0%nat. split; [lia|].
    split; [replace k with 0%nat by lia; apply py_index_nth; lia|].
    intros j Hj.
    pose proof (Habove 0%nat ltac:(lia)) as H1.
    pose proof (sorted_nth radii 0 j Hs ltac:(lia)) as H2.
    by_cases_abs.
Qed.

(** X11.  [Ellipticity.get_epsilon] returns the value stored at a grid
    radius nearest to the requested one: on a non-empty grid sorted in
    increasing order, with one value per radius, no other grid radius is
    closer to the request than the one whose value is returned. *)
Theorem get_epsilon_nearest (model : TauModel) (radius : R)
    (radii eps : list R) :
  epsilon_r model = Some radii ->
  epsilon model = Some eps ->
  radii <> [] ->
  List.length eps = List.length radii ->
  Forall (fun d => 0 <= d) (pairwise Rminus radii) ->
  exists i,
    (i < List.length radii)%nat
    /\ Ellipticity.get_epsilon model radius = Ok (nth i eps 0)
    /\ forall j, (j < List.length radii)%nat ->
         Rabs (radius - nth i radii 0) <= Rabs (radius - nth j radii 0).
Proof.
  intros Hr He Hne Hlen Hs.
  apply nearest_sample; assumption.
Qed.

Lemma get_epsilon_nearest_witness :
  exists i,
    (i < 3)%nat
    /\ Ellipticity.get_epsilon Toy.planet 990 = Ok (nth i [0; 0; 1] 0)
    /\ forall j, (j < 3)%nat ->
         Rabs (990 - nth i [0; 950; 1000] 0)
         <= Rabs (990 - nth j [0; 950; 1000] 0).
Proof.
  apply (get_epsilon_nearest Toy.planet 990 [0; 950; 1000] [0; 0; 1]).
  - reflexivity.
  - reflexivity.
  - discriminate.
  - reflexivity.
  - cbn. repeat constructor; lra.
Defined.

(** ** Choosing among the arrivals of the ray tracer *)

(** X12.  An arrival returned by [get_taup_arrival] is one of those traced
    and lies within 0.0001 degrees of the requested distance.  When some
    arrivals qualify but the requested index is beyond them, the call
    raises IndexError; index 0 selects the first qualifying arrival. *)
Theorem taup_arrival_within_tolerance (phase : string)
    (distance source_depth : R) (arrival_index : Z) (model : TauModel) :
  let found := get_ray_paths model source_depth distance phase in
  let near := filter (fun x => Rlt_bool (Rabs (purist_distance x - distance))
                                        0.0001) found in
  (forall a,
     Ellipticity.get_taup_arrival phase distance source_depth arrival_index
       model = Ok a ->
     In a found /\ Rabs (purist_distance a - distance) < 0.0001)
  /\ (near <> [] ->
      (Z.of_nat (List.length near) <= arrival_index)%Z ->
      Ellipticity.get_taup_arrival phase distance source_depth arrival_index
        model = Raise IndexError)
  /\ (forall a rest,
        near = a :: rest ->
        Ellipticity.get_taup_arrival phase distance source_depth 0 model
        = Ok a).
Proof.
  intros found near. unfold Ellipticity.get_taup_arrival.
  fold found. fold near.
  split; [|split].
  - intros a H. destruct (List.length near =? 0)%nat; [discriminate|].
    apply py_index_In in H. unfold near in H.
    apply filter_In in H as [Hin Hnear]. split; [exact Hin|].
    destruct (Rlt_bool_spec (Rabs (purist_distance a - distance)) 0.0001);
      [assumption | discriminate].
  - intros Hne Hidx.
    destruct near as [|a rest]; [congruence|]. cbn [List.length Nat.eqb].
    apply py_index_out. exact Hidx.
  - intros a rest ->. cbn [List.length Nat.eqb]. apply py_index_0.
Qed.

Lemma taup_arrival_within_tolerance_witness :
  (In (Toy.upgoing 0.1 10 0.8) (Toy.tracer 0.1 10 "p")
   /\ Rabs (purist_distance (Toy.upgoing 0.1 10 0.8) - 10) < 0.0001)
  /\ Ellipticity.get_taup_arrival "p" 10 0.1 1 Toy.planet = Raise IndexError
  /\ Ellipticity.get_taup_arrival "p" 10 0.1 0 Toy.planet
     = Ok (Toy.upgoing 0.1 10 0.8).
Proof.
  assert (Hnear :
    filter (fun x => Rlt_bool (Rabs (purist_distance x - 10)) 0.0001)
           (get_ray_paths Toy.planet 0.1 10 "p")
    = [Toy.upgoing 0.1 10 0.8]).
  { cbn. unfold Toy.tracer. rewrite (Rlt_bool_true 10 179.93) by lra.
    cbn. rewrite Rminus_diag, Rabs_R0, Rlt_bool_true by lra. reflexivity. }
  destruct (taup_arrival_within_tolerance "p" 10 0.1 0 Toy.planet)
    as (H1 & _ & H3).
  destruct (taup_arrival_within_tolerance "p" 10 0.1 1 Toy.planet)
    as (_ & H2 & _).
  pose proof (H3 _ _ Hnear) as Hfirst.
  split; [apply (H1 _ Hfirst)|].
  split; [|exact Hfirst].
  apply H2.
  - rewrite Hnear. discriminate.
  - rewrite Hnear. cbn. lia.
Defined.

(** [argmin] returns the index of a least element. *)
Lemma argmin_from_spec (xs pre : list R) (best : nat) (bestv : R) :
  (best < List.length pre)%nat ->
  nth best pre 0 = bestv ->
  (forall y, In y pre -> bestv <= y) ->
  let k := argmin_from best bestv (List.length pre) xs in
  (k < List.length (pre ++ xs))%nat
  /\ forall y, In y (pre ++ xs) -> nth k (pre ++ xs) 0 <= y.
Proof.
  revert pre best bestv. induction xs as [|x xs IH];
    intros pre best bestv Hb Hv Hmin; cbv zeta.
  - cbn [argmin_from]. rewrite app_nil_r. split; [exact Hb|].
    intros y Hy. rewrite Hv. apply Hmin. exact Hy.
  - cbn [argmin_from].
    replace (pre ++ x :: xs) with ((pre ++ [x]) ++ xs)
      by (rewrite <- app_assoc; reflexivity).
    replace (S (List.length pre)) with (List.length (pre ++ [x]))
      by (rewrite length_app; cbn; lia).
    destruct (Rlt_bool_spec x bestv) as [Hlt | Hge].
    + apply IH.
      * rewrite length_app. cbn. lia.
      * rewrite app_nth2, Nat.sub_diag by lia. reflexivity.
      * intros y Hy. apply in_app_iff in Hy as [Hy | [<- | []]]; [|lra].
        specialize (Hmin y Hy). lra.
    + apply IH.
      * rewrite length_app. cbn. lia.
      * rewrite app_nth1 by lia. exact Hv.
      * intros y Hy. apply in_app_iff in Hy as [Hy | [<- | []]]; [|lra].
        apply Hmin. exact Hy.
Qed.

Lemma argmin_spec (xs : list R) :
  xs <> [] ->
  exists k, argmin xs = Ok k /\ (k < List.length xs)%nat
            /\ forall y, In y xs -> nth k xs 0 <= y.
Proof.
  intros Hne. destruct xs as [|x xs]; [congruence|].
  exists (argmin_from 0 x 1 xs). split; [reflexivity|].
  apply (argmin_from_spec xs [x] 0 x).
  - cbn. lia.
  - reflexivity.
  - intros y [<- | []]. lra.
Qed.

Lemma correct_arrival_spec arrival model extra :
  let found := get_ray_paths model (source_depth arrival)
                 (distance arrival + extra) (name arrival) in
  found <> [] ->
  exists a,
    Ellipticity.get_correct_taup_arrival arrival model extra = Ok a
    /\ In a found
    /\ forall x, In x found ->
         Rabs (ray_param a - ray_param arrival)
         <= Rabs (ray_param x - ray_param arrival).
Proof.
  intros found Hne. unfold Ellipticity.get_correct_taup_arrival. fold found.
  set (f := fun x => Rabs (ray_param x - ray_param arrival)).
  destruct (argmin_spec (map f found)) as (k & Hk & Hlt & Hmin).
  { destruct found; [congruence | discriminate]. }
  rewrite length_map in Hlt.
  destruct found as [|a0 rest] eqn:E; [congruence|]. rewrite <- E in *.
  exists (nth k found a0).
  rewrite Hk. cbn [bind].
  split; [apply py_index_nth; exact Hlt|].
  split; [apply nth_In; exact Hlt|].
  intros x Hx. specialize (Hmin (f x) (in_map f _ _ Hx)).
  rewrite (nth_indep _ 0 (f a0)) in Hmin by (rewrite length_map; exact Hlt).
  rewrite map_nth in Hmin. exact Hmin.
Qed.

(** X13.  [get_correct_taup_arrival] raises ValueError when the tracer
    finds nothing; otherwise it returns one of the traced arrivals, whose
    ray parameter is at least as close to that of the given arrival as the
    ray parameter of any other traced arrival. *)
Theorem correct_arrival_is_closest (arrival : Arrival) (model : TauModel)
    (extra_distance : R) :
  let found := get_ray_paths model (source_depth arrival)
                 (distance arrival + extra_distance) (name arrival) in
  (found = [] ->
   Ellipticity.get_correct_taup_arrival arrival model extra_distance
   = Raise (ValueError "attempt to get argmin of an empty sequence"))
  /\ (found <> [] ->
      exists a,
        Ellipticity.get_correct_taup_arrival arrival model extra_distance
        = Ok a
        /\ In a found
        /\ forall x, In x found ->
             Rabs (ray_param a - ray_param arrival)
             <= Rabs (ray_param x - ray_param arrival)).
Proof.
  intros found. split.
  - intros E. unfold Ellipticity.get_correct_taup_arrival. fold found.
    rewrite E. reflexivity.
  - apply correct_arrival_spec.
Qed.

Lemma correct_arrival_is_closest_witness :
  Ellipticity.get_correct_taup_arrival Toy.through_centre
    (Toy.planet_with Toy.no_arrival) 0
  = Raise (ValueError "attempt to get argmin of an empty sequence")
  /\ exists a,
       Ellipticity.get_correct_taup_arrival Toy.through_centre Toy.planet 0
       = Ok a
       /\ In a (Toy.tracer 1 (180 + 0) "p")
       /\ forall x, In x (Toy.tracer 1 (180 + 0) "p") ->
            Rabs (ray_param a - 0.6) <= Rabs (ray_param x - 0.6).
Proof.
  split.
  - apply (proj1 (correct_arrival_is_closest Toy.through_centre
                    (Toy.planet_with Toy.no_arrival) 0)).
    reflexivity.
  - apply (proj2 (correct_arrival_is_closest Toy.through_centre
                    Toy.planet 0)).
    discriminate.
Defined.

(** ** The wave letters of a phase name *)

Lemma chars_append (a b : string) :
  list_ascii_of_string (String.append a b)
  = list_ascii_of_string a ++ list_ascii_of_string b.
Proof.
  induction a as [|c a IH]; cbn; [reflexivity|]. rewrite IH. reflexivity.
Qed.

Lemma replace_from_letters (old new : string) (s : string) :
  forall skip x,
    In x (list_ascii_of_string (replace_from old new skip s)) ->
    In x (list_ascii_of_string new) \/ In x (list_ascii_of_string s).
Proof.
  induction s as [|h s IH]; intros skip x H; cbn [replace_from] in H.
  - cbn in H. contradiction.
  - destruct skip as [|k].
    + destruct (String.prefix old (String h s)).
      * rewrite chars_append in H. apply in_app_iff in H as [H | H];
          [left; exact H|].
        destruct (IH _ _ H) as [H' | H']; [left; exact H'|].
        right. cbn. right. exact H'.
      * cbn in H. destruct H as [<- | H]; [right; cbn; left; reflexivity|].
        destruct (IH _ _ H) as [H' | H']; [left; exact H'|].
        right. cbn. right. exact H'.
    + destruct (IH _ _ H) as [H' | H']; [left; exact H'|].
      right. cbn. right. exact H'.
Qed.

Lemma replace_letter (c : ascii) (new s : string) (x : ascii) :
  In x (list_ascii_of_string (replace (String c EmptyString) new s)) ->
  In x (list_ascii_of_string new)
  \/ (x <> c /\ In x (list_ascii_of_string s)).
Proof.
  unfold replace. induction s as [|h s IH]; intros H;
    cbn [replace_from] in H.
  - cbn in H. contradiction.
  - cbn [String.prefix] in H.
    destruct (ascii_dec c h) as [<- | Hne].
    + assert (Hp : String.prefix "" s = true) by (destruct s; reflexivity).
      rewrite Hp in H. cbn [String.length Nat.sub] in H.
      rewrite chars_append in H. apply in_app_iff in H as [H | H];
        [left; exact H|].
      destruct (IH H) as [H' | [Hx H']]; [left; exact H'|].
      right. split; [exact Hx|]. cbn. right. exact H'.
    + cbn in H. destruct H as [<- | H].
      * right. split; [congruence|]. cbn. left. reflexivity.
      * destruct (IH H) as [H' | [Hx H']]; [left; exact H'|].
        right. split; [exact Hx|]. cbn. right. exact H'.
Qed.

(** X14.  The letters [phase_segments] returns never include the boundary
    marks c and i nor the core legs K, I and J: each returned letter is a
    letter of the phase name, or P or S. *)
Theorem phase_segments_letters (phase_name segments : string) :
  Ellipticity.phase_segments phase_name = Ok segments ->
  forall x,
    In x (list_ascii_of_string segments) ->
    ~ In x ["c"; "i"; "K"; "I"; "J"]%char
    /\ (In x (list_ascii_of_string phase_name)
        \/ x = "P"%char \/ x = "S"%char).
Proof.
  unfold Ellipticity.phase_segments. intros H x Hx.
  apply bind_Ok in H as (seg0 & H0 & H). apply Ok_inj in H. subst segments.
  assert (Hseg0 : forall y, In y (list_ascii_of_string seg0) ->
                            In y (list_ascii_of_string phase_name)).
  { intros y Hy. destruct (contains "diff" phase_name).
    - apply bind_Ok in H0 as (ch & Hch & H0). apply Ok_inj in H0.
      subst seg0. unfold replace in Hy.
      apply replace_from_letters in Hy as [Hy | Hy]; [|exact Hy].
      cbn in Hy. destruct Hy as [<- | []].
      unfold str_at in Hch. apply py_index_In in Hch. exact Hch.
    - apply Ok_inj in H0. subst seg0. exact Hy. }
  apply replace_letter in Hx as [Hx | [HJ Hx]].
  { cbn in Hx. destruct Hx as [<- | []]. split; [|auto].
    intros [E|[E|[E|[E|[E|[]]]]]]; discriminate. }
  apply replace_letter in Hx as [Hx | [HI Hx]].
  { cbn in Hx. destruct Hx as [<- | []]. split; [|auto].
    intros [E|[E|[E|[E|[E|[]]]]]]; discriminate. }
  apply replace_letter in Hx as [Hx | [HK Hx]].
  { cbn in Hx. destruct Hx as [<- | []]. split; [|auto].
    intros [E|[E|[E|[E|[E|[]]]]]]; discriminate. }
  apply replace_letter in Hx as [Hx | [Hi Hx]]; [cbn in Hx; contradiction|].
  apply replace_letter in Hx as [Hx | [Hc Hx]]; [cbn in Hx; contradiction|].
  split; [|left; apply Hseg0; exact Hx].
  intros [E|[E|[E|[E|[E|[]]]]]]; congruence.
Qed.

Lemma phase_segments_letters_witness :
  Ellipticity.phase_segments "PKiKP" = Ok "PPPP"%string
  /\ Ellipticity.phase_segments "Pdiff" = Ok "PP"%string
  /\ Ellipticity.phase_segments "ScSKJKP" = Ok "SSPSPP"%string
  /\ forall x,
       In x (list_ascii_of_string "SSPSPP") ->
       ~ In x ["c"; "i"; "K"; "I"; "J"]%char
       /\ (In x (list_ascii_of_string "ScSKJKP")
           \/ x = "P"%char \/ x = "S"%char).
Proof.
  split; [reflexivity|]. split; [reflexivity|]. split; [reflexivity|].
  apply (phase_segments_letters "ScSKJKP" "SSPSPP"). reflexivity.
Defined.

(** ** The segments of [ray_path] and their wave letters *)

Lemma foldM_invariant {A S} (P : S -> Prop) (f : S -> A -> res S) l :
  (forall s a s', P s -> f s a = Ok s' -> P s') ->
  forall s s', P s -> foldM f l s = Ok s' -> P s'.
Proof.
  intros Hf. induction l as [|a l IH]; intros s s' Hs H; cbn [foldM] in H.
  - apply Ok_inj in H. subst. exact Hs.
  - apply bind_Ok in H as (s1 & H1 & H). eapply IH; [|exact H].
    eapply Hf; eassumption.
Qed.

Lemma dict_append_aligned {A B} (d d' : list (list A)) (w w' : list (list B))
    (k : Z) (x : A) (y : B) :
  map (@List.length A) d = map (@List.length B) w ->
  Ellipticity.dict_append d k x = Ok d' ->
  Ellipticity.dict_append w k y = Ok w' ->
  map (@List.length A) d' = map (@List.length B) w'.
Proof.
  intros Hal Hd Hw. unfold Ellipticity.dict_append in *.
  destruct (_ || _)%bool in Hd; [discriminate|].
  destruct (_ || _)%bool in Hw; [discriminate|].
  apply Ok_inj in Hd, Hw. subst d' w'.
  rewrite !map_app, <- !firstn_map, Hal. f_equal.
  assert (Hs : map (@List.length A) (skipn (Z.to_nat k) d)
               = map (@List.length B) (skipn (Z.to_nat k) w))
    by (rewrite <- !skipn_map, Hal; reflexivity).
  destruct (skipn (Z.to_nat k) d) as [|v rest],
           (skipn (Z.to_nat k) w) as [|v' rest']; try discriminate;
    [reflexivity|].
  cbn [map] in *. injection Hs as Hv Hrest.
  rewrite !length_app, Hv, Hrest. reflexivity.
Qed.

Lemma segment_step_aligned discs bot n waves st ip st' :
  map (@List.length PathPoint) (snd (fst st))
  = map (@List.length ascii) (snd st) ->
  Ellipticity.segment_step discs bot n waves st ip = Ok st' ->
  map (@List.length PathPoint) (snd (fst st'))
  = map (@List.length ascii) (snd st').
Proof.
  destruct st as [[count paths] wave], ip as [i pathi]. cbn [fst snd].
  intros Hal H. unfold Ellipticity.segment_step in H.
  apply bind_Ok in H as ([[count1 paths1] wave1] & H1 & H).
  assert (Hal1 : map (@List.length PathPoint) paths1
                 = map (@List.length ascii) wave1).
  { destruct (Ellipticity.opens_segment discs bot n i pathi).
    - destruct (negb (count + 1 =? 0)%Z).
      + apply bind_Ok in H1 as (p2 & Hp2 & H1).
        apply bind_Ok in H1 as (wprev & _ & H1).
        apply bind_Ok in H1 as (w2 & Hw2 & H1).
        apply Ok_inj in H1. injection H1 as _ <- <-.
        eapply dict_append_aligned; [|exact Hp2 | exact Hw2].
        rewrite !map_app, Hal. reflexivity.
      + apply Ok_inj in H1. injection H1 as _ <- <-.
        rewrite !map_app, Hal. reflexivity.
    - apply Ok_inj in H1. injection H1 as _ <- <-. exact Hal. }
  apply bind_Ok in H as (p3 & Hp3 & H).
  apply bind_Ok in H as (wi & _ & H).
  apply bind_Ok in H as (w3 & Hw3 & H).
  apply Ok_inj in H. subst st'. cbn [fst snd].
  apply (dict_append_aligned _ _ _ _ _ _ _ Hal1 Hp3 Hw3).
Qed.

Lemma cut_shared_two {A} (b : A -> bool) (rest cur : list A) :
  cur <> [] -> rest <> [] ->
  Forall (fun s => (2 <= List.length s)%nat) (Spec.cut_shared b cur rest).
Proof.
  revert cur. induction rest as [|x rest IH]; intros cur Hcur Hrest;
    [congruence|].
  assert (Hlen : (2 <= List.length (cur ++ [x]))%nat).
  { rewrite length_app. cbn. destruct cur; [congruence | cbn; lia]. }
  cbn [Spec.cut_shared]. destruct rest as [|y rest'].
  - constructor; [exact Hlen | constructor].
  - destruct (b x).
    + constructor; [exact Hlen|]. apply IH; discriminate.
    + apply IH; [destruct cur; discriminate | discriminate].
Qed.

Lemma ray_path_single arrival model pt waves :
  path arrival = Some [pt] ->
  Ellipticity.path_waves (name arrival) [pt] model = Ok waves ->
  Ellipticity.ray_path arrival model = Raise KeyError.
Proof.
  intros Hpath Hwaves. unfold Ellipticity.ray_path.
  rewrite Hpath. cbn [attr bind Ellipticity.bottoming_depth].
  rewrite Hwaves. cbn [bind]. reflexivity.
Qed.

(** X15.  When [Ellipticity.ray_path] returns, there is at least one
    segment, every segment has at least two points, and the wave letters
    are aligned with the points: each list of letters is as long as its
    segment. *)
Theorem ray_path_shape (arrival : Arrival) (model : TauModel)
    (paths : list (list PathPoint)) (wave_paths : list (list ascii)) :
  Ellipticity.ray_path arrival model = Ok (paths, wave_paths) ->
  paths <> []
  /\ Forall (fun s => (2 <= List.length s)%nat) paths
  /\ map (@List.length PathPoint) paths
     = map (@List.length ascii) wave_paths.
Proof.
  intros H.
  assert (Hal : map (@List.length PathPoint) paths
                = map (@List.length ascii) wave_paths).
  { unfold Ellipticity.ray_path in H.
    apply bind_Ok in H as (pts & _ & H).
    apply bind_Ok in H as (bot & _ & H).
    apply bind_Ok in H as (waves & _ & H).
    apply bind_Ok in H as ([[c p] w] & Hfold & H).
    apply Ok_inj in H. injection H as <- <-.
    apply (foldM_invariant
             (fun st => map (@List.length PathPoint) (snd (fst st))
                        = map (@List.length ascii) (snd st))
             _ _ (segment_step_aligned _ _ _ _)
             ((-1)%Z, [], []) (c, p, w) eq_refl Hfold). }
  pose proof H as H0. unfold Ellipticity.ray_path in H0.
  apply bind_Ok in H0 as (pts & Hpts & H0).
  apply bind_Ok in H0 as (bot & Hbot & H0).
  apply bind_Ok in H0 as (waves & Hwaves & _).
  assert (Hpath : path arrival = Some pts).
  { destruct (path arrival); [|discriminate]. apply Ok_inj in Hpts.
    subst. reflexivity. }
  destruct pts as [|x [|y rest]].
  - discriminate.
  - rewrite (ray_path_single _ _ _ _ Hpath Hwaves) in H. discriminate.
  - destruct (ray_path_segments arrival model _ waves Hpath
                ltac:(cbn; lia) Hwaves) as (w' & Hseg).
    rewrite Hseg in H. apply Ok_inj in H. apply (f_equal fst) in H.
    cbn [fst] in H. subst paths.
    set (b := fun pt : PathPoint => (_ || _)%bool).
    cbn [Spec.segments].
    pose proof (cut_shared_two b (y :: rest) [x] ltac:(discriminate)
                  ltac:(discriminate)) as Htwo.
    split; [|split; [exact Htwo | exact Hal]].
    destruct (cut_shared_head b x [] (y :: rest)) as (t & others & E).
    rewrite E. discriminate.
Qed.

Lemma toy_down_and_up_ray_path p :
  Ellipticity.ray_path (Toy.down_and_up p) Toy.planet
  = Ok ([[Toy.point p 0 0; Toy.point p 1 0.3];
         [Toy.point p 1 0.3; Toy.point p 2 0]],
        [["p"%char; "p"%char]; ["p"%char; "p"%char]]).
Proof.
  unfold Ellipticity.ray_path. cbn [path Toy.down_and_up attr bind name].
  rewrite toy_down_and_up_waves. cbn.
  repeat (progress (unfold Ellipticity.segment_step,
                      Ellipticity.opens_segment, R_in; eval_R)).
  reflexivity.
Qed.

Lemma ray_path_shape_witness :
  [[Toy.point 0.6 0 0; Toy.point 0.6 1 0.3];
   [Toy.point 0.6 1 0.3; Toy.point 0.6 2 0]] <> []
  /\ Forall (fun s => (2 <= List.length s)%nat)
       [[Toy.point 0.6 0 0; Toy.point 0.6 1 0.3];
        [Toy.point 0.6 1 0.3; Toy.point 0.6 2 0]]
  /\ map (@List.length PathPoint)
       [[Toy.point 0.6 0 0; Toy.point 0.6 1 0.3];
        [Toy.point 0.6 1 0.3; Toy.point 0.6 2 0]]
     = map (@List.length ascii) [["p"%char; "p"%char]; ["p"%char; "p"%char]].
Proof.
  apply (ray_path_shape (Toy.down_and_up 0.6) Toy.planet).
  apply toy_down_and_up_ray_path.
Defined.

(** X16.  [Ellipticity.ray_path] on degenerate input: an arrival without a
    traced path raises TypeError, an empty path makes max() raise
    ValueError, and a path of a single point opens no segment, so that
    appending the point to the current segment raises KeyError. *)
Theorem ray_path_degenerate (arrival : Arrival) (model : TauModel) :
  (path arrival = None ->
   exists msg, Ellipticity.ray_path arrival model = Raise (TypeError msg))
  /\ (path arrival = Some [] ->
      Ellipticity.ray_path arrival model
      = Raise (ValueError "max() arg is an empty sequence"))
  /\ (forall pt waves,
        path arrival = Some [pt] ->
        Ellipticity.path_waves (name arrival) [pt] model = Ok waves ->
        Ellipticity.ray_path arrival model = Raise KeyError).
Proof.
  split; [|split].
  - intros H. unfold Ellipticity.ray_path. rewrite H. cbn. eauto.
  - intros H. unfold Ellipticity.ray_path. rewrite H. reflexivity.
  - intros pt waves. apply ray_path_single.
Qed.

Lemma toy_single_point_waves p :
  Ellipticity.path_waves "P" [Toy.point p 0 0] Toy.planet = Ok ["p"%char].
Proof.
  unfold Ellipticity.path_waves. cbn.
  repeat (progress (unfold Ellipticity.wave_step, R_in; eval_R)).
  reflexivity.
Qed.

Lemma ray_path_degenerate_witness :
  (exists msg,
     Ellipticity.ray_path (Sample.arrival_with "P" None) Toy.planet
     = Raise (TypeError msg))
  /\ Ellipticity.ray_path (Sample.arrival_with "P" (Some [])) Toy.planet
     = Raise (ValueError "max() arg is an empty sequence")
  /\ Ellipticity.ray_path
       (Sample.arrival_with "P" (Some [Toy.point 0.6 0 0])) Toy.planet
     = Raise KeyError.
Proof.
  split; [|split].
  - apply (proj1 (ray_path_degenerate (Sample.arrival_with "P" None)
                    Toy.planet)).
    reflexivity.
  - apply (proj1 (proj2 (ray_path_degenerate
                           (Sample.arrival_with "P" (Some [])) Toy.planet))).
    reflexivity.
  - apply (proj2 (proj2 (ray_path_degenerate
                           (Sample.arrival_with "P"
                              (Some [Toy.point 0.6 0 0])) Toy.planet))
             (Toy.point 0.6 0 0) ["p"%char]).
    + reflexivity.
    + apply toy_single_point_waves.
Defined.

(** ** Paths that meet no boundary *)

Lemma cut_closed_none {A} (b : A -> bool) (rest cur : list A) :
  (forall x, In x rest -> b x = false) -> Spec.cut_closed b cur rest = [].
Proof.
  revert cur. induction rest as [|x rest IH]; intros cur H; [reflexivity|].
  cbn [Spec.cut_closed]. rewrite (H x) by (left; reflexivity).
  apply IH. intros y Hy. apply H. right. exact Hy.
Qed.

Lemma split_ray_path_empty arrival model x rest :
  path arrival = Some (x :: rest) ->
  (forall pt, In pt rest ->
     R_in (pt_depth pt) (removelast (get_discontinuity_depths model))
     = false) ->
  Ellipticipy.split_ray_path arrival model = Ok ([], []).
Proof.
  intros Hpath Hnone. unfold Ellipticipy.split_ray_path.
  rewrite Hpath. cbn [attr bind].
  rewrite split_points_closed by discriminate.
  cbn [Spec.closed_segments].
  rewrite (cut_closed_none _ rest [x] Hnone). reflexivity.
Qed.

(** X17.  In [src/ellipticipy], with the profile already stored on the
    model: when no point of the path after the first lies at the depth of a
    discontinuity of the model (the last listed depth apart), the path is
    never split, no segment is formed, and the three coefficients are
    zero.  An empty path raises IndexError. *)
Theorem no_boundary_no_coefficients (arrival : Arrival) (model : TauModel)
    (lod : R) (pts : list PathPoint) (tops : list R) :
  path arrival = Some pts ->
  top_epsilon model = Some tops ->
  (forall pt, In pt (tl pts) ->
     R_in (pt_depth pt) (removelast (get_discontinuity_depths model))
     = false) ->
  Ellipticipy.individual_ellipticity_coefficients arrival
    (Ellipticipy.TauModelObj model) lod
  = match pts with
    | [] => Raise IndexError
    | _ :: _ => Ok [0; 0; 0]
    end.
Proof.
  intros Hpath Htops Hnone.
  unfold Ellipticipy.individual_ellipticity_coefficients. cbn [bind].
  rewrite Htops. cbn [bind].
  unfold Ellipticipy.integral_coefficients,
    Ellipticipy.discontinuity_coefficients.
  destruct pts as [|x rest].
  - unfold Ellipticipy.split_ray_path. rewrite Hpath. cbn [attr bind].
    unfold Ellipticipy.split_points. reflexivity.
  - rewrite (split_ray_path_empty arrival model x rest Hpath Hnone).
    cbn [bind combine mapM]. unfold Ellipticipy.sum_orders.
    cbn [mapM bind]. autorewrite with pyidx. cbn [bind].
    unfold Rsum. cbn [fold_left].
    repeat f_equal; lra.
Qed.

Lemma no_boundary_no_coefficients_witness :
  Ellipticipy.individual_ellipticity_coefficients
    (Sample.arrival_with "P"
       (Some [Toy.point 0.6 0 0; Toy.point 0.6 1 0.3]))
    (Ellipticipy.TauModelObj Toy.planet) EARTH_LOD
  = Ok [0; 0; 0]
  /\ Ellipticipy.individual_ellipticity_coefficients
       (Sample.arrival_with "P" (Some []))
       (Ellipticipy.TauModelObj Toy.planet) EARTH_LOD
     = Raise IndexError.
Proof.
  split.
  - apply (no_boundary_no_coefficients
             (Sample.arrival_with "P"
                (Some [Toy.point 0.6 0 0; Toy.point 0.6 1 0.3]))
             Toy.planet EARTH_LOD
             [Toy.point 0.6 0 0; Toy.point 0.6 1 0.3] [1]).
    + reflexivity.
    + reflexivity.
    + intros pt [<- | []]. unfold R_in. cbn. decide_R. reflexivity.
  - apply (no_boundary_no_coefficients
             (Sample.arrival_with "P" (Some [])) Toy.planet EARTH_LOD
             [] [1]).
    + reflexivity.
    + reflexivity.
    + intros pt [].
Defined.

(** ** Layers without a gradient *)

Lemma Rsum_zero (l : list R) : (forall x, In x l -> x = 0) -> Rsum l = 0.
Proof.
  unfold Rsum. intros H.
  assert (G : forall acc, fold_left Rplus l acc = acc).
  { induction l as [|a l IH]; intros acc; cbn; [reflexivity|].
    rewrite IH by (intros x Hx; apply H; right; exact Hx).
    rewrite (H a) by (left; reflexivity). lra. }
  apply G.
Qed.

Lemma derivative_below_flat model depth pr s :
  (forall l pr, In l (layers model) -> evaluate_derivative_at l pr = 0) ->
  evaluate_derivative_below model depth pr = Ok s -> s = 0.
Proof.
  intros Hflat H. unfold evaluate_derivative_below in H.
  apply bind_Ok in H as (layer & Hl & H). apply Ok_inj in H. subst s.
  apply Hflat. unfold layer_at in Hl. apply py_index_In in Hl. exact Hl.
Qed.

Lemma derivative_above_flat model depth pr s :
  (forall l pr, In l (layers model) -> evaluate_derivative_at l pr = 0) ->
  evaluate_derivative_above model depth pr = Ok s -> s = 0.
Proof.
  intros Hflat H. unfold evaluate_derivative_above in H.
  apply bind_Ok in H as (layer & Hl & H). apply Ok_inj in H. subst s.
  apply Hflat. unfold layer_at in Hl. apply py_index_In in Hl. exact Hl.
Qed.

Lemma py_segment_flat arrival model path wave s :
  (forall l pr, In l (layers model) -> evaluate_derivative_at l pr = 0) ->
  Ellipticipy.segment_integral arrival model path wave = Ok s ->
  s = [0; 0; 0].
Proof.
  intros Hflat H.
  pose proof (py_segment_integral_length _ _ _ _ _ H) as Hlen.
  apply list3_zero; [exact Hlen|]. intros x Hx.
  unfold Ellipticipy.segment_integral in H. cbv zeta in H.
  apply bind_Ok in H as (pr & _ & H).
  apply bind_Ok in H as (dvdr & Hdvdr & H).
  apply bind_Ok in H as (epsilon & _ & H).
  apply bind_Ok in H as (lam & _ & H).
  assert (Hzero : forall d, In d dvdr -> d = 0).
  { intros d Hd. destruct (mapM_In _ _ _ _ Hdvdr Hd) as (depth & _ & Hf).
    destruct (negb _).
    - apply bind_Ok in Hf as (s0 & Hs0 & Hf). apply Ok_inj in Hf. subst d.
      rewrite (derivative_below_flat _ _ _ _ Hflat Hs0). lra.
    - apply bind_Ok in Hf as (s0 & Hs0 & Hf). apply Ok_inj in Hf. subst d.
      rewrite (derivative_above_flat _ _ _ _ Hflat Hs0). lra. }
  destruct (mapM_In _ _ _ _ H Hx) as (m & _ & Hm).
  apply bind_Ok in Hm as (lam_m & _ & Hm). apply Ok_inj in Hm. subst x.
  apply Rsum_zero. intros y Hy.
  apply zipWith_In in Hy as (mean & delta & Hmean & _ & ->).
  apply pairwise_In in Hmean as (i0 & i1 & Hi0 & Hi1 & ->).
  assert (Hint : forall i,
            In i (zipWith Rmult
                    (zipWith Rmult
                       (zipWith (fun e d => e * d / (1.0 - e * d))
                          (zipWith Rdiv
                             (map (fun d => radius_of_planet model - d)
                                (map pt_depth path))
                             (map (fun d =>
                                     if negb (Req_bool d
                                                (Rmax_list (map pt_depth path)))
                                     then evaluate_below model d pr
                                     else evaluate_above model
                                            (Rmax_list (map pt_depth path)) pr)
                                (map pt_depth path)))
                          dvdr)
                       epsilon)
                    lam_m) -> i = 0).
  { intros i Hi. apply zipWith_In in Hi as (ke & l0 & Hke & _ & ->).
    apply zipWith_In in Hke as (k & e0 & Hk & _ & ->).
    apply zipWith_In in Hk as (e & d & _ & Hd & ->).
    rewrite (Hzero d Hd). unfold Rdiv. ring. }
  rewrite (Hint i0 Hi0), (Hint i1 Hi1). ring.
Qed.

Lemma segment_flat arrival model path wave_path s :
  (forall l pr, In l (layers model) -> evaluate_derivative_at l pr = 0) ->
  Ellipticity.segment_integral arrival model path wave_path = Ok s ->
  s = [0; 0; 0].
Proof.
  intros Hflat H.
  pose proof (segment_integral_length _ _ _ _ _ H) as Hlen.
  apply list3_zero; [exact Hlen|]. intros x Hx.
  unfold Ellipticity.segment_integral in H. cbv zeta in H.
  apply bind_Ok in H as (v & _ & H).
  apply bind_Ok in H as (dvdr & Hdvdr & H).
  apply bind_Ok in H as (epsilon & _ & H).
  apply bind_Ok in H as (lamda & _ & H).
  assert (Hzero : forall d, In d dvdr -> d = 0).
  { intros d Hd. destruct (mapM_In _ _ _ _ Hdvdr Hd) as ([dp ri] & _ & Hf).
    apply bind_Ok in Hf as (w0 & _ & Hf).
    destruct (negb _).
    - unfold Ellipticity.get_dvdr_below in Hf.
      apply bind_Ok in Hf as (pr & _ & Hf).
      apply bind_Ok in Hf as (s0 & Hs0 & Hf). apply Ok_inj in Hf. subst d.
      rewrite (derivative_below_flat _ _ _ _ Hflat Hs0). lra.
    - unfold Ellipticity.get_dvdr_above in Hf.
      apply bind_Ok in Hf as (pr & _ & Hf).
      apply bind_Ok in Hf as (s0 & Hs0 & Hf). apply Ok_inj in Hf. subst d.
      rewrite (derivative_above_flat _ _ _ _ Hflat Hs0). lra. }
  destruct (mapM_In _ _ _ _ H Hx) as (m & _ & Hm).
  apply bind_Ok in Hm as (lam_m & _ & Hm). apply Ok_inj in Hm. subst x.
  unfold trapz_x.
  rewrite Rsum_zero; [unfold Rdiv; ring|].
  intros y Hy.
  apply zipWith_In in Hy as (dx & mean & _ & Hmean & ->).
  apply pairwise_In in Hmean as (i0 & i1 & Hi0 & Hi1 & ->).
  assert (Hint : forall eta i,
            In i (zipWith Rmult
                    (zipWith Rmult
                       (zipWith Rmult (map (fun e => e ^ 3) eta) dvdr)
                       epsilon)
                    lam_m) -> i = 0).
  { intros eta i Hi. apply zipWith_In in Hi as (ke & l0 & Hke & _ & ->).
    apply zipWith_In in Hke as (k & e0 & Hk & _ & ->).
    apply zipWith_In in Hk as (e & d & _ & Hd & ->).
    rewrite (Hzero d Hd). ring. }
  rewrite (Hint _ i0 Hi0), (Hint _ i1 Hi1). unfold Rdiv. ring.
Qed.

Lemma sum_orders_flat sigmas s :
  (forall x, In x sigmas -> x = [0; 0; 0]) ->
  Ellipticipy.sum_orders sigmas = Ok s -> s = [0; 0; 0].
Proof.
  intros Hz H. rewrite py_sum_orders in H.
  2:{ intros x Hx. rewrite (Hz x Hx). reflexivity. }
  apply Ok_inj in H. subst s. cbn [map].
  assert (Hk : forall k, (k < 3)%nat ->
                         Rsum (map (fun x => nth k x 0) sigmas) = 0).
  { intros k Hk. apply Rsum_zero. intros y Hy.
    apply in_map_iff in Hy as (x & <- & Hx). rewrite (Hz x Hx).
    destruct k as [|[|[|k]]]; try reflexivity. lia. }
  rewrite !Hk by lia. reflexivity.
Qed.

Lemma uniform_layer_flat (l : Layer) (pr : prop) :
  top_p_velocity l = bot_p_velocity l ->
  top_s_velocity l = bot_s_velocity l ->
  top_density l = bot_density l ->
  evaluate_derivative_at l pr = 0.
Proof.
  intros Hp Hs Hd. unfold evaluate_derivative_at.
  destruct pr; rewrite ?Hp, ?Hs, ?Hd; unfold Rdiv; ring.
Qed.

(** X18.  In a model whose layers are all uniform (each of a thickness that
    is not zero, with the same velocities and density at its top and its
    bottom) and whose velocities and density are nowhere zero, the
    ray-path integrals vanish: the integral coefficients are zero for the
    three orders, in [src/ellipticipy] always and in [src/ellipticity]
    for a nonzero ray parameter. *)
Theorem uniform_layers_no_integral (arrival : Arrival) (model : TauModel) :
  (forall l, In l (layers model) ->
     top_depth l <> bot_depth l
     /\ top_p_velocity l = bot_p_velocity l
     /\ top_s_velocity l = bot_s_velocity l
     /\ top_density l = bot_density l) ->
  (forall depth pr,
     evaluate_below model depth pr <> 0
     /\ evaluate_above model depth pr <> 0) ->
  (forall s,
     Ellipticipy.integral_coefficients arrival model = Ok s ->
     s = [0; 0; 0])
  /\ (forall paths wave_paths s,
        ray_param arrival <> 0 ->
        Ellipticity.integral_coefficients arrival model paths wave_paths
        = Ok s ->
        s = [0; 0; 0]).
Proof.
  intros Huniform _.
  assert (Hflat : forall l pr, In l (layers model) ->
                               evaluate_derivative_at l pr = 0).
  { intros l pr Hl. destruct (Huniform l Hl) as (_ & Hp & Hs & Hd).
    apply uniform_layer_flat; assumption. }
  split.
  - intros s H. unfold Ellipticipy.integral_coefficients in H.
    apply bind_Ok in H as ([paths waves] & _ & H).
    apply bind_Ok in H as (sigmas & Hs & H).
    apply (sum_orders_flat sigmas); [|exact H].
    intros x Hx. destruct (mapM_In _ _ _ _ Hs Hx) as ([pa wa] & _ & Hf).
    apply (py_segment_flat _ _ _ _ _ Hflat Hf).
  - intros paths wave_paths s _ H.
    unfold Ellipticity.integral_coefficients in H.
    apply bind_Ok in H as (sigmas & Hs & H).
    rewrite sum_orders_same in H.
    apply (sum_orders_flat sigmas); [|exact H].
    intros x Hx. destruct (mapM_In _ _ _ _ Hs Hx) as ([pa wa] & _ & Hf).
    apply (segment_flat _ _ _ _ _ Hflat Hf).
Qed.

Lemma uniform_layers_no_integral_witness :
  (exists s,
     Ellipticipy.integral_coefficients (Toy.upgoing 0.1 10 0.6) Toy.planet
     = Ok s /\ s = [0; 0; 0])
  /\ (exists s,
        Ellipticity.integral_coefficients (Toy.upgoing 0.1 10 0.6) Toy.planet
          [[Toy.point 0.6 0 0.1; Toy.point 0.6 1 0]] [["p"%char; "p"%char]]
        = Ok s /\ s = [0; 0; 0]).
Proof.
  assert (Huniform : forall l, In l (layers Toy.planet) ->
                       top_depth l <> bot_depth l
                       /\ top_p_velocity l = bot_p_velocity l
                       /\ top_s_velocity l = bot_s_velocity l
                       /\ top_density l = bot_density l).
  { intros l [<- | []]. cbn. repeat split; lra. }
  assert (Hv : forall depth pr,
             evaluate_below Toy.planet depth pr <> 0
             /\ evaluate_above Toy.planet depth pr <> 0).
  { intros depth pr. cbn. split; lra. }
  destruct (uniform_layers_no_integral (Toy.upgoing 0.1 10 0.6) Toy.planet
              Huniform Hv) as [HA HB].
  split.
  - destruct (toy_py_integral 10 0.6 Toy.tracer) as (r0 & r1 & r2 & H).
    fold Toy.planet in H. eexists. split; [exact H|]. apply HA. exact H.
  - pose proof (toy_integral 10 0.6 Toy.tracer) as H.
    fold Toy.planet in H. eexists. split; [exact H|].
    apply (HB _ _ _ ltac:(cbn; lra) H).
Defined.

(** ** The two sides of a boundary point *)

Lemma np_sign_pos x : 0 < x -> np_sign x = 1.
Proof.
  intros H. unfold np_sign.
  rewrite Rlt_bool_false, Rlt_bool_true by lra. reflexivity.
Qed.

Lemma np_sign_neg x : x < 0 -> np_sign x = -1.
Proof. intros H. unfold np_sign. rewrite Rlt_bool_true by lra. reflexivity. Qed.

Lemma lambdas_three dist lam :
  Ellipticipy.lambdas dist = Ok lam -> exists l0 l1 l2, lam = [l0; l1; l2].
Proof.
  intros H. apply mapM_length in H.
  destruct lam as [|l0 [|l1 [|l2 [|]]]]; try discriminate. eauto.
Qed.

(** X19.  At a depth that the ray crosses, coming from a shallower point
    and going on to a deeper one, where the velocity of the wave is the
    same above and below and is not zero, in a model whose layers all have
    a thickness that is not zero, the contributions of the two sides
    computed by [discontinuity_contribution] cancel: their sum is zero for
    the three orders. *)
Theorem continuous_boundary_cancels (model : TauModel)
    (point above below : PathPoint) (phase : Ellipticipy.label) (pr : prop)
    (s_up s_down : list R) :
  pt_depth above < pt_depth point < pt_depth below ->
  Ellipticipy.prop_of_label phase = Ok pr ->
  evaluate_above model (pt_depth point) pr
  = evaluate_below model (pt_depth point) pr ->
  evaluate_above model (pt_depth point) pr <> 0 ->
  (forall l, In l (layers model) -> top_depth l <> bot_depth l) ->
  Ellipticipy.discontinuity_contribution (point, above) phase model
  = Ok s_up ->
  Ellipticipy.discontinuity_contribution (point, below) phase model
  = Ok s_down ->
  zipWith Rplus s_up s_down = [0; 0; 0].
Proof.
  intros [Ha Hb] Hpr Hv _ _ Hup Hdown.
  unfold Ellipticipy.discontinuity_contribution in *. cbv zeta in *.
  cbn [fst snd] in *. rewrite Hpr in *. cbn [bind] in *.
  apply bind_Ok in Hup as (eps & Heps & Hup).
  rewrite Heps in Hdown. cbn [bind] in Hdown.
  apply bind_Ok in Hup as (lam & Hlam & Hup).
  rewrite Hlam in Hdown. cbn [bind] in Hdown.
  destruct (lambdas_three _ _ Hlam) as (l0 & l1 & l2 & ->).
  rewrite (Rle_bool_false (pt_depth point) (pt_depth above)) in Hup by lra.
  rewrite (Rle_bool_true (pt_depth point) (pt_depth below)) in Hdown by lra.
  rewrite (Req_bool_false (pt_depth above)) in Hup by lra.
  rewrite (Req_bool_false (pt_depth below)) in Hdown by lra.
  rewrite np_sign_pos in Hup by lra. rewrite np_sign_neg in Hdown by lra.
  rewrite Hv in Hup.
  cbn [mapM bind] in Hup, Hdown. autorewrite with pyidx in Hup, Hdown.
  cbn [bind] in Hup, Hdown.
  apply Ok_inj in Hup, Hdown. subst s_up s_down. cbn [zipWith].
  repeat f_equal; ring.
Qed.

Lemma continuous_boundary_cancels_witness :
  exists s_up s_down,
    Ellipticipy.discontinuity_contribution
      (Toy.point 0.3 1 0.3, Toy.point 0.3 0 0) Ellipticipy.LP Toy.planet
    = Ok s_up
    /\ Ellipticipy.discontinuity_contribution
         (Toy.point 0.3 1 0.3, Toy.point 0.3 2 0.5) Ellipticipy.LP Toy.planet
       = Ok s_down
    /\ zipWith Rplus s_up s_down = [0; 0; 0].
Proof.
  assert (Hc : forall nb, exists s,
             Ellipticipy.discontinuity_contribution
               (Toy.point 0.3 1 0.3, nb) Ellipticipy.LP Toy.planet = Ok s).
  { intros nb. unfold Ellipticipy.discontinuity_contribution. cbn.
    unfold Toy.planet, Toy.planet_with. rewrite toy_py_epsilon. cbn.
    unfold Ellipticipy.lambdas. cbn.
    destruct alp2_at_0 as (E0 & E1 & E2).
    repeat (progress (rewrite ?E0, ?E1, ?E2; cbn; autorewrite with pyidx)).
    eexists. reflexivity. }
  destruct (Hc (Toy.point 0.3 0 0)) as (s_up & Hup).
  destruct (Hc (Toy.point 0.3 2 0.5)) as (s_down & Hdown).
  exists s_up, s_down. split; [exact Hup|]. split; [exact Hdown|].
  apply (continuous_boundary_cancels Toy.planet (Toy.point 0.3 1 0.3)
           (Toy.point 0.3 0 0) (Toy.point 0.3 2 0.5) Ellipticipy.LP PVel
           s_up s_down).
  - cbn. lra.
  - reflexivity.
  - reflexivity.
  - cbn. lra.
  - intros l [<- | []]. cbn. lra.
  - exact Hup.
  - exact Hdown.
Defined.

(** ** The predicted delay of a leg *)

Lemma ln_ratio_swap r0 r1 :
  0 < r0 -> 0 < r1 -> Rabs (ln (r0 / r1)) = Rabs (ln (r1 / r0)).
Proof.
  intros H0 H1.
  assert (E : forall a b, 0 < a -> 0 < b -> ln (a / b) = ln a - ln b).
  { intros a b Ha Hb. unfold Rdiv.
    rewrite ln_mult, ln_Rinv; try assumption; [lra|].
    apply Rinv_0_lt_compat. assumption. }
  rewrite (E r0 r1), (E r1 r0) by assumption.
  replace (ln r0 - ln r1) with (- (ln r1 - ln r0)) by ring.
  apply Rabs_Ropp.
Qed.

Lemma delay_value model p d0 d1 w v0 v1 :
  v0 = (if Rle_bool d0 d1 then evaluate_below model d0 w
        else evaluate_above model d0 w) ->
  v1 = (if Rle_bool d0 d1 then evaluate_above model d1 w
        else evaluate_below model d1 w) ->
  0 < v0 ->
  Ellipticipy.expected_delay_time p d0 d1 w model
  = if Req_bool p 0.0
    then 0.5 * ((1.0 / v0) + (1.0 / v1))
         * Rabs ((radius_of_planet model - d1) - (radius_of_planet model - d0))
    else 0.5 * (Ellipticipy.vertical_slowness
                  ((radius_of_planet model - d0) / v0) p
                + Ellipticipy.vertical_slowness
                    ((radius_of_planet model - d1) / v1) p)
         * Rabs (ln ((radius_of_planet model - d1)
                     / (radius_of_planet model - d0))).
Proof.
  intros Hv0 Hv1 Hpos. unfold Ellipticipy.expected_delay_time.
  assert (Hpair :
    (if Rle_bool d0 d1
     then (evaluate_below model d0 w, evaluate_above model d1 w)
     else (evaluate_above model d0 w, evaluate_below model d1 w))
    = (v0, v1)).
  { rewrite Hv0, Hv1. destruct (Rle_bool d0 d1); reflexivity. }
  rewrite Hpair. rewrite Rlt_bool_true by lra. reflexivity.
Qed.

(** X20.  With positive velocities at two distinct depths inside the
    planet, the delay predicted by [expected_delay_time] is not negative
    and does not depend on the direction of travel: exchanging the two
    depths gives the same delay. *)
Theorem expected_delay_symmetric (model : TauModel) (p d0 d1 : R)
    (w : prop) :
  0 < evaluate_above model d0 w -> 0 < evaluate_below model d0 w ->
  0 < evaluate_above model d1 w -> 0 < evaluate_below model d1 w ->
  d0 < radius_of_planet model -> d1 < radius_of_planet model ->
  d0 <> d1 ->
  0 <= Ellipticipy.expected_delay_time p d0 d1 w model
  /\ Ellipticipy.expected_delay_time p d0 d1 w model
     = Ellipticipy.expected_delay_time p d1 d0 w model.
Proof.
  intros Ha0 Hb0 Ha1 Hb1 Hr0 Hr1 Hne.
  assert (Hcase : d0 < d1 \/ d1 < d0) by lra.
  assert (Hnonneg : forall v0 v1 r0 r1 : R, 0 < v0 -> 0 < v1 ->
            0 <= (if Req_bool p 0.0
                  then 0.5 * ((1.0 / v0) + (1.0 / v1)) * Rabs (r1 - r0)
                  else 0.5 * (Ellipticipy.vertical_slowness (r0 / v0) p
                              + Ellipticipy.vertical_slowness (r1 / v1) p)
                       * Rabs (ln (r1 / r0)))).
  { intros v0 v1 r0 r1 H0 H1. destruct (Req_bool p 0.0).
    - apply Rmult_le_pos; [|apply Rabs_pos].
      assert (0 < 1.0 / v0) by (apply Rdiv_lt_0_compat; lra).
      assert (0 < 1.0 / v1) by (apply Rdiv_lt_0_compat; lra). lra.
    - apply Rmult_le_pos; [|apply Rabs_pos].
      pose proof (vertical_slowness_nonneg (r0 / v0) p).
      pose proof (vertical_slowness_nonneg (r1 / v1) p). lra. }
  destruct Hcase as [Hlt | Hgt].
  - rewrite (delay_value model p d0 d1 w (evaluate_below model d0 w)
               (evaluate_above model d1 w))
      by (rewrite ?Rle_bool_true by lra; first [reflexivity | assumption]).
    rewrite (delay_value model p d1 d0 w (evaluate_above model d1 w)
               (evaluate_below model d0 w))
      by (rewrite ?Rle_bool_false by lra; first [reflexivity | assumption]).
    split; [apply Hnonneg; assumption|].
    destruct (Req_bool p 0.0).
    + rewrite (Rabs_minus_sym (radius_of_planet model - d0)). ring.
    + rewrite (ln_ratio_swap (radius_of_planet model - d0)
                 (radius_of_planet model - d1)) by lra. ring.
  - rewrite (delay_value model p d0 d1 w (evaluate_above model d0 w)
               (evaluate_below model d1 w))
      by (rewrite ?Rle_bool_false by lra; first [reflexivity | assumption]).
    rewrite (delay_value model p d1 d0 w (evaluate_below model d1 w)
               (evaluate_above model d0 w))
      by (rewrite ?Rle_bool_true by lra; first [reflexivity | assumption]).
    split; [apply Hnonneg; assumption|].
    destruct (Req_bool p 0.0).
    + rewrite (Rabs_minus_sym (radius_of_planet model - d0)). ring.
    + rewrite (ln_ratio_swap (radius_of_planet model - d0)
                 (radius_of_planet model - d1)) by lra. ring.
Qed.

Lemma expected_delay_symmetric_witness :
  0 <= Ellipticipy.expected_delay_time 0.6 0.1 0.3 PVel Toy.planet
  /\ Ellipticipy.expected_delay_time 0.6 0.1 0.3 PVel Toy.planet
     = Ellipticipy.expected_delay_time 0.6 0.3 0.1 PVel Toy.planet.
Proof.
  apply (expected_delay_symmetric Toy.planet 0.6 0.1 0.3 PVel);
    cbn; lra.
Defined.

(** ** One triple of coefficients per arrival *)

Lemma individual_length arrival model lod s :
  Ellipticipy.individual_ellipticity_coefficients arrival model lod = Ok s ->
  List.length s = 3%nat.
Proof.
  unfold Ellipticipy.individual_ellipticity_coefficients. intros H.
  apply bind_Ok in H as (m0 & _ & H).
  apply bind_Ok in H as (m1 & _ & H).
  apply bind_Ok in H as (ray_sigma & _ & H).
  apply bind_Ok in H as (disc_sigma & _ & H).
  apply mapM_length in H. exact H.
Qed.

(** X21.  [Ellipticipy.ellipticity_coefficients] returns one list of three
    coefficients per arrival, in a list as long as the list of arrivals.
    For no arrivals it returns the empty list without looking at the
    model; for at least one arrival and a model of the wrong type it
    raises TypeError. *)
Theorem one_triple_per_arrival (arrivals : list Arrival)
    (arrivals_model : Ellipticipy.model_arg)
    (model : option Ellipticipy.model_arg) (lod : R) :
  (forall out,
     Ellipticipy.ellipticity_coefficients arrivals arrivals_model model lod
     = Ok out ->
     List.length out = List.length arrivals
     /\ Forall (fun s => List.length s = 3%nat) out)
  /\ Ellipticipy.ellipticity_coefficients [] arrivals_model model lod = Ok []
  /\ (arrivals <> [] ->
      match model with None => arrivals_model | Some m => m end
      = Ellipticipy.OtherObj ->
      Ellipticipy.ellipticity_coefficients arrivals arrivals_model model lod
      = Raise (TypeError "Velocity model not correct type")).
Proof.
  split; [|split].
  - intros out H. unfold Ellipticipy.ellipticity_coefficients in H.
    split; [apply (mapM_length _ _ _ H)|].
    apply Forall_forall. intros s Hs.
    destruct (mapM_In _ _ _ _ H Hs) as (arr & _ & Ha).
    apply (individual_length _ _ _ _ Ha).
  - reflexivity.
  - intros Hne Hm. unfold Ellipticipy.ellipticity_coefficients.
    rewrite Hm. destruct arrivals as [|a rest]; [congruence|]. reflexivity.
Qed.

Lemma toy_individual d p :
  exists s,
    Ellipticipy.individual_ellipticity_coefficients (Toy.upgoing 0.1 d p)
      (Ellipticipy.TauModelObj Toy.planet) EARTH_LOD = Ok s.
Proof.
  unfold Ellipticipy.individual_ellipticity_coefficients. cbn [bind].
  change (top_epsilon Toy.planet) with (Some [1]). cbn [bind].
  destruct (toy_py_integral d p Toy.tracer) as (r0 & r1 & r2 & Hi).
  destruct (toy_py_discontinuity d p Toy.tracer) as (d0 & d1 & d2 & Hd).
  fold Toy.planet in Hi, Hd. rewrite Hi, Hd. cbn [bind mapM].
  autorewrite with pyidx. cbn [bind]. eexists. reflexivity.
Qed.

Lemma one_triple_per_arrival_witness :
  (exists out,
     Ellipticipy.ellipticity_coefficients
       [Toy.upgoing 0.1 10 0.6; Toy.upgoing 0.1 20 0.8]
       (Ellipticipy.TauModelObj Toy.planet) None EARTH_LOD = Ok out
     /\ List.length out = 2%nat
     /\ Forall (fun s => List.length s = 3%nat) out)
  /\ Ellipticipy.ellipticity_coefficients [Toy.upgoing 0.1 10 0.6]
       (Ellipticipy.TauModelObj Toy.planet) (Some Ellipticipy.OtherObj)
       EARTH_LOD
     = Raise (TypeError "Velocity model not correct type").
Proof.
  split.
  - destruct (toy_individual 10 0.6) as (s1 & H1).
    destruct (toy_individual 20 0.8) as (s2 & H2).
    assert (H : Ellipticipy.ellipticity_coefficients
                  [Toy.upgoing 0.1 10 0.6; Toy.upgoing 0.1 20 0.8]
                  (Ellipticipy.TauModelObj Toy.planet) None EARTH_LOD
                = Ok [s1; s2]).
    { unfold Ellipticipy.ellipticity_coefficients. cbn [mapM].
      rewrite H1, H2. reflexivity. }
    exists [s1; s2]. split; [exact H|].
    apply (proj1 (one_triple_per_arrival _ _ _ _) _ H).
  - apply (proj2 (proj2 (one_triple_per_arrival
                           [Toy.upgoing 0.1 10 0.6]
                           (Ellipticipy.TauModelObj Toy.planet)
                           (Some Ellipticipy.OtherObj) EARTH_LOD))).
    + discriminate.
    + reflexivity.
Defined.

(** ** The recursion through the centre of the planet *)

Lemma near_centre_step TauPyModel fuel arrival model lod eps pts bot :
  epsilon model = Some eps ->
  path arrival = Some pts ->
  distance arrival <> 0 ->
  Ellipticity.bottoming_depth pts = Ok bot ->
  (radius_of_planet model - bot) * 1e3 < 50 ->
  (forall a,
     In a (get_ray_paths model (source_depth arrival)
             (distance arrival + -0.05) (name arrival)) ->
     Ellipticity.ellipticity_coefficients TauPyModel fuel
       (Ellipticity.ArrivalObj a) (Ellipticity.TauPyModelObj model) EARTH_LOD
     = Raise RecursionError) ->
  get_ray_paths model (source_depth arrival) (distance arrival + -0.05)
    (name arrival) <> [] ->
  get_ray_paths model (source_depth arrival) (distance arrival + -0.10)
    (name arrival) <> [] ->
  Ellipticity.ellipticity_coefficients TauPyModel (S fuel)
    (Ellipticity.ArrivalObj arrival) (Ellipticity.TauPyModelObj model) lod
  = Raise RecursionError.
Proof.
  intros Heps Hpath Hd Hbot Hnear Hrec Hne1 Hne2.
  rewrite (entry_near_centre _ _ _ _ _ pts eps bot) by assumption.
  unfold Ellipticity.centre_of_planet_coefficients.
  destruct (correct_arrival_spec arrival model (-0.05) Hne1)
    as (a1 & Ha1 & Hin1 & _).
  destruct (correct_arrival_spec arrival model (-0.10) Hne2)
    as (a2 & Ha2 & _ & _).
  rewrite Ha1, Ha2. cbn [bind]. rewrite (Hrec a1 Hin1). reflexivity.
Qed.

(** X22.  The fallback for rays through the centre of the planet has no
    base case of its own: if every arrival the tracer returns also bottoms
    within 50 m of the centre (and it always returns one), the recursion
    of [Ellipticity.ellipticity_coefficients] never ends, whatever depth
    of recursion is allowed. *)
Theorem centre_fallback_unbounded (TauPyModel : string -> res TauModel)
    (fuel : nat) (model : TauModel) (eps : list R) (arrival : Arrival)
    (lod : R) :
  let near_centre a :=
    exists pts bot,
      path a = Some pts /\ Ellipticity.bottoming_depth pts = Ok bot
      /\ (radius_of_planet model - bot) * 1e3 < 50 in
  epsilon model = Some eps ->
  (forall sd d ph, get_ray_paths model sd d ph <> []) ->
  (forall sd d ph a, In a (get_ray_paths model sd d ph) -> near_centre a) ->
  near_centre arrival ->
  Ellipticity.ellipticity_coefficients TauPyModel fuel
    (Ellipticity.ArrivalObj arrival) (Ellipticity.TauPyModelObj model) lod
  = Raise RecursionError.
Proof.
  intros near_centre Heps Hne Hall. revert arrival lod.
  induction fuel as [|fuel IH]; intros arrival lod Harr; [reflexivity|].
  destruct Harr as (pts & bot & Hpath & Hbot & Hnear).
  destruct (Req_dec_T (distance arrival) 0) as [Hzero | Hnz].
  - destruct (correct_arrival_spec arrival model 1e-10 (Hne _ _ _))
      as (a' & Ha' & Hin' & _).
    destruct (Hall _ _ _ _ Hin') as (pts' & bot' & Hpath' & Hbot' & Hnear').
    cbn [Ellipticity.ellipticity_coefficients bind].
    rewrite Heps, Hpath. cbn [bind].
    rewrite Req_bool_true by lra. rewrite Ha'. cbn [bind].
    rewrite Hpath'. cbn [attr bind]. rewrite Hbot'. cbn [bind].
    rewrite Rlt_bool_true by lra.
    unfold Ellipticity.centre_of_planet_coefficients.
    destruct (correct_arrival_spec a' model (-0.05) (Hne _ _ _))
      as (a1 & Ha1 & Hin1 & _).
    destruct (correct_arrival_spec a' model (-0.10) (Hne _ _ _))
      as (a2 & Ha2 & _ & _).
    rewrite Ha1, Ha2. cbn [bind].
    rewrite (IH a1 EARTH_LOD (Hall _ _ _ _ Hin1)). reflexivity.
  - apply (near_centre_step _ _ _ _ _ eps pts bot); try assumption.
    + intros a Ha. apply IH. apply (Hall _ _ _ _ Ha).
    + apply Hne.
    + apply Hne.
Qed.

Lemma centre_fallback_unbounded_witness :
  Ellipticity.ellipticity_coefficients Toy.no_loader 1000
    (Ellipticity.ArrivalObj Toy.through_centre)
    (Ellipticity.TauPyModelObj (Toy.planet_with Sample.centre_tracer))
    EARTH_LOD
  = Raise RecursionError.
Proof.
  assert (Hbot : Ellipticity.bottoming_depth
                   [Toy.point 0.6 0 1; Toy.point 0.6 1 0] = Ok 1).
  { cbn. rewrite Rmax_left by lra. reflexivity. }
  apply (centre_fallback_unbounded Toy.no_loader 1000
           (Toy.planet_with Sample.centre_tracer) [0; 0; 1]
           Toy.through_centre EARTH_LOD).
  - reflexivity.
  - intros sd d ph. discriminate.
  - intros sd d ph a [<- | []].
    exists [Toy.point 0.6 0 1; Toy.point 0.6 1 0], 1.
    split; [reflexivity|]. split; [exact Hbot|]. cbn. lra.
  - exists [Toy.point 0.6 0 1; Toy.point 0.6 1 0], 1.
    split; [reflexivity|]. split; [exact Hbot|]. cbn. lra.
Defined.

(** ** Arrivals the entry point replaces *)

(** X23.  [Ellipticity.ellipticity_coefficients] works on a replacement of
    the arrival in two cases: an arrival without a traced path is replaced
    by the one [get_correct_taup_arrival] finds at the same distance, and
    an arrival at distance zero by the one found 1e-10 degrees further.
    The result is the one computed for the replacement. *)
Theorem entry_replaces_arrival (TauPyModel : string -> res TauModel)
    (fuel : nat) (model : TauModel) (eps : list R) (arrival a' : Arrival)
    (pts' : list PathPoint) (lod : R) :
  epsilon model = Some eps ->
  path a' = Some pts' ->
  (path arrival = None ->
   Ellipticity.get_correct_taup_arrival arrival model 0.0 = Ok a' ->
   Ellipticity.ellipticity_coefficients TauPyModel (S fuel)
     (Ellipticity.ArrivalObj arrival) (Ellipticity.TauPyModelObj model) lod
   = Ellipticity.ellipticity_coefficients TauPyModel (S fuel)
       (Ellipticity.ArrivalObj a') (Ellipticity.TauPyModelObj model) lod)
  /\ (path arrival <> None ->
      distance arrival = 0 ->
      distance a' <> 0 ->
      Ellipticity.get_correct_taup_arrival arrival model 1e-10 = Ok a' ->
      Ellipticity.ellipticity_coefficients TauPyModel (S fuel)
        (Ellipticity.ArrivalObj arrival) (Ellipticity.TauPyModelObj model) lod
      = Ellipticity.ellipticity_coefficients TauPyModel (S fuel)
          (Ellipticity.ArrivalObj a') (Ellipticity.TauPyModelObj model) lod).
Proof.
  intros Heps Hpath'. split.
  - intros Hnone Hget.
    cbn [Ellipticity.ellipticity_coefficients bind].
    rewrite Heps, Hnone, Hpath'. cbn [bind]. rewrite Hget. reflexivity.
  - intros Hsome Hzero Hnz Hget.
    cbn [Ellipticity.ellipticity_coefficients bind].
    rewrite Heps, Hpath'. cbn [bind].
    destruct (path arrival) as [pts|] eqn:Hpath; [|congruence]. cbn [bind].
    rewrite (Req_bool_true (distance arrival)) by lra.
    rewrite (Req_bool_false (distance a')) by lra.
    rewrite Hget. reflexivity.
Qed.

Lemma entry_replaces_arrival_witness :
  Ellipticity.ellipticity_coefficients Toy.no_loader 1
    (Ellipticity.ArrivalObj (Sample.arrival_with "p" None))
    (Ellipticity.TauPyModelObj Toy.planet) EARTH_LOD
  = Ellipticity.ellipticity_coefficients Toy.no_loader 1
      (Ellipticity.ArrivalObj (Toy.upgoing 0.1 (10 + 0.0) 0.8))
      (Ellipticity.TauPyModelObj Toy.planet) EARTH_LOD
  /\ Ellipticity.ellipticity_coefficients Toy.no_loader 1
       (Ellipticity.ArrivalObj (Toy.upgoing 0.1 0 0.8))
       (Ellipticity.TauPyModelObj Toy.planet) EARTH_LOD
     = Ellipticity.ellipticity_coefficients Toy.no_loader 1
         (Ellipticity.ArrivalObj (Toy.upgoing 0.1 (0 + 1e-10) 0.8))
         (Ellipticity.TauPyModelObj Toy.planet) EARTH_LOD.
Proof.
  assert (Hget : forall a x,
            distance a + x < 179.93 ->
            name a = "p"%string ->
            Ellipticity.get_correct_taup_arrival a Toy.planet x
            = Ok (Toy.upgoing 0.1 (distance a + x) 0.8)).
  { intros a x Hx Hn. unfold Ellipticity.get_correct_taup_arrival.
    cbn. unfold Toy.tracer. rewrite Rlt_bool_true by exact Hx.
    cbn. autorewrite with pyidx. reflexivity. }
  split.
  - apply (proj1 (entry_replaces_arrival Toy.no_loader 0 Toy.planet [0; 0; 1]
                    (Sample.arrival_with "p" None)
                    (Toy.upgoing 0.1 (10 + 0.0) 0.8)
                    [Toy.point 0.8 0 0.1; Toy.point 0.8 1 0] EARTH_LOD
                    eq_refl eq_refl)).
    + reflexivity.
    + apply (Hget (Sample.arrival_with "p" None) 0.0); [cbn; lra | reflexivity].
  - apply (proj2 (entry_replaces_arrival Toy.no_loader 0 Toy.planet [0; 0; 1]
                    (Toy.upgoing 0.1 0 0.8)
                    (Toy.upgoing 0.1 (0 + 1e-10) 0.8)
                    [Toy.point 0.8 0 0.1; Toy.point 0.8 1 0] EARTH_LOD
                    eq_refl eq_refl)).
    + discriminate.
    + reflexivity.
    + cbn. lra.
    + apply (Hget (Toy.upgoing 0.1 0 0.8) 1e-10); [cbn; lra | reflexivity].
Defined.

(** ** [split_ray_path] on any path *)

(** X24.  [split_ray_path] raises IndexError on an empty path and, on any
    other path, returns segments of at least two points each, together
    with their labels, whatever the velocities of the model and the shape
    of the path. *)
Theorem split_ray_path_total (arrival : Arrival) (model : TauModel)
    (pts : list PathPoint) :
  path arrival = Some pts ->
  (pts = [] -> Ellipticipy.split_ray_path arrival model = Raise IndexError)
  /\ (pts <> [] ->
      exists paths waves,
        Ellipticipy.split_ray_path arrival model = Ok (paths, waves)
        /\ Forall (fun s => (2 <= List.length s)%nat) paths).
Proof.
  intros Hpath. split.
  - intros ->. unfold Ellipticipy.split_ray_path. rewrite Hpath. reflexivity.
  - intros Hne. unfold Ellipticipy.split_ray_path.
    rewrite Hpath. cbn [attr bind].
    rewrite (split_points_closed pts model Hne). cbn [bind].
    set (b := fun pt : PathPoint => R_in _ _).
    assert (Htwo : Forall (fun s => (2 <= List.length s)%nat)
                     (Spec.closed_segments b pts)).
    { destruct pts as [|x rest]; [congruence|]. cbn [Spec.closed_segments].
      apply cut_closed_two. discriminate. }
    destruct (mapM_total (fun path => Ellipticipy.classify_path path model)
                (Spec.closed_segments b pts)) as (dwaves & Hw).
    { intros seg Hseg. rewrite Forall_forall in Htwo.
      destruct (compared_points_ok seg (Htwo seg Hseg)) as (p0 & p1 & Hc).
      apply (classify_total _ _ _ _ Hc). }
    rewrite Hw. cbn [bind]. do 2 eexists. split; [reflexivity|].
    apply Forall_forall. intros s Hs.
    apply in_map_iff in Hs as ([seg w] & <- & Hin).
    apply filter_In in Hin as [Hin _]. apply in_combine_l in Hin.
    rewrite Forall_forall in Htwo. apply Htwo. exact Hin.
Qed.

Lemma split_ray_path_total_witness :
  Ellipticipy.split_ray_path (Sample.arrival_with "P" (Some [])) Toy.planet
  = Raise IndexError
  /\ exists paths waves,
       Ellipticipy.split_ray_path (Toy.down_and_up 0.6) Toy.planet
       = Ok (paths, waves)
       /\ Forall (fun s => (2 <= List.length s)%nat) paths.
Proof.
  split.
  - apply (proj1 (split_ray_path_total (Sample.arrival_with "P" (Some []))
                    Toy.planet [] eq_refl)).
    reflexivity.
  - apply (proj2 (split_ray_path_total (Toy.down_and_up 0.6) Toy.planet
                    [Toy.point 0.6 0 0; Toy.point 0.6 1 0.3;
                     Toy.point 0.6 2 0] eq_refl)).
    discriminate.
Defined.

(** ** Boundary points where the ray runs level *)

Lemma level_interaction pt0 pt1 pt2 :
  (pt_depth pt0 = pt_depth pt1 /\ pt_depth pt1 <> pt_depth pt2)
  \/ (pt_depth pt0 <> pt_depth pt1 /\ pt_depth pt1 = pt_depth pt2) ->
  Ellipticity.interaction_of
    (Ellipticity.direction_of (pt_depth pt0) (pt_depth pt1))
    (Ellipticity.direction_of (pt_depth pt1) (pt_depth pt2))
  = Ellipticity.DiffType.
Proof.
  unfold Ellipticity.direction_of.
  intros [[E N] | [N E]].
  - rewrite (Rlt_bool_false (pt_depth pt0)) by lra.
    rewrite (Req_bool_true (pt_depth pt0)) by lra.
    rewrite (Req_bool_false (pt_depth pt1)) by lra.
    destruct (Rlt_bool (pt_depth pt1) (pt_depth pt2)); reflexivity.
  - rewrite (Rlt_bool_false (pt_depth pt1)) by lra.
    rewrite (Req_bool_true (pt_depth pt1)) by lra.
    rewrite (Req_bool_false (pt_depth pt0)) by lra.
    destruct (Rlt_bool (pt_depth pt0) (pt_depth pt1)); reflexivity.
Qed.

Lemma assigned_eva_level arrival model pts wave_paths d i pt0 pt1 pt2 :
  Ellipticity.dep i <> 0 -> Ellipticity.ind i <> 0%Z ->
  py_index pts (Ellipticity.ind i - 1) = Ok pt0 ->
  py_index pts (Ellipticity.ind i) = Ok pt1 ->
  py_index pts (Ellipticity.ind i + 1) = Ok pt2 ->
  (pt_depth pt0 = pt_depth pt1 /\ pt_depth pt1 <> pt_depth pt2)
  \/ (pt_depth pt0 <> pt_depth pt1 /\ pt_depth pt1 = pt_depth pt2) ->
  forall e,
    Ellipticity.assigned_eva arrival model pts wave_paths d i <> Ok (Some e).
Proof.
  intros Hdep Hind H0 H1 H2 Hlevel e.
  unfold Ellipticity.assigned_eva. cbv zeta.
  rewrite (Req_bool_false (Ellipticity.dep i)) by lra.
  replace (Ellipticity.ind i =? 0)%Z with false
    by (symmetry; apply Z.eqb_neq; exact Hind).
  cbn [negb andb]. rewrite H0, H1, H2. cbn [bind].
  rewrite (level_interaction pt0 pt1 pt2 Hlevel).
  destruct (py_index wave_paths (Z.of_nat d - 1)) as [w_pre|];
    cbn [bind]; [|discriminate].
  destruct (py_index w_pre (-1)) as [ph_pre|]; cbn [bind]; [|discriminate].
  destruct (py_index wave_paths (Z.of_nat d)) as [w_post|];
    cbn [bind]; [|discriminate].
  destruct (py_index w_post 0) as [ph_post|]; cbn [bind]; discriminate.
Qed.

(** X25.  At a boundary that the ray reaches on the level on exactly one
    side (the neighbouring point on that side has the depth of the
    boundary), none of the branches of [discontinuity_coefficients]
    assigns the quantity evaluated there.  If it was never assigned, the
    entry cannot be computed (NameError once the look-ups succeed: the
    quantity is read inside a list comprehension); otherwise the value
    left by the previous boundary is used again. *)
Theorem level_interaction_keeps_eva (arrival : Arrival) (model : TauModel)
    (pts : list PathPoint) (wave_paths : list (list ascii)) (d : nat)
    (i : Ellipticity.idisc) (pt0 pt1 pt2 : PathPoint) :
  Ellipticity.dep i <> 0 -> Ellipticity.ind i <> 0%Z ->
  py_index pts (Ellipticity.ind i - 1) = Ok pt0 ->
  py_index pts (Ellipticity.ind i) = Ok pt1 ->
  py_index pts (Ellipticity.ind i + 1) = Ok pt2 ->
  (pt_depth pt0 = pt_depth pt1 /\ pt_depth pt1 <> pt_depth pt2)
  \/ (pt_depth pt0 <> pt_depth pt1 /\ pt_depth pt1 = pt_depth pt2) ->
  (forall r,
     Ellipticity.idisc_sigma arrival model pts wave_paths None d i <> Ok r)
  /\ (forall eps,
        Ellipticity.get_epsilon model (Ellipticity.r i) = Ok eps ->
        Ellipticity.assigned_eva arrival model pts wave_paths d i = Ok None ->
        Ellipticity.idisc_sigma arrival model pts wave_paths None d i
        = Raise NameError)
  /\ (forall e0 eva' sigma,
        Ellipticity.idisc_sigma arrival model pts wave_paths (Some e0) d i
        = Ok (eva', sigma) ->
        eva' = Some e0
        /\ exists extra, sigma = map (fun x => np_mul (Fin x) e0) extra).
Proof.
  intros Hdep Hind H0 H1 H2 Hlevel.
  pose proof (assigned_eva_level arrival model pts wave_paths d i pt0 pt1 pt2
                Hdep Hind H0 H1 H2 Hlevel) as Hnone.
  split; [|split].
  - intros r H. unfold Ellipticity.idisc_sigma in H.
    apply bind_Ok in H as (eps & _ & H).
    apply bind_Ok in H as (lambda & _ & H).
    apply bind_Ok in H as (new & Hnew & H).
    destruct new as [e|]; [apply (Hnone e Hnew) | discriminate].
  - intros eps Heps Heva. unfold Ellipticity.idisc_sigma.
    rewrite Heps. cbn [bind mapM].
    rewrite (alp2_same 0), (alp2_same 1), (alp2_same 2).
    destruct (alp2_closed (Ellipticity.dist i)) as (E0 & E1 & E2).
    rewrite E0, E1, E2. cbn [bind]. rewrite Heva. reflexivity.
  - intros e0 eva' sigma H. unfold Ellipticity.idisc_sigma in H.
    apply bind_Ok in H as (eps & _ & H).
    apply bind_Ok in H as (lambda & _ & H).
    apply bind_Ok in H as (new & Hnew & H).
    destruct new as [e|]; [elim (Hnone e Hnew)|].
    apply Ok_inj in H. injection H as <- <-. split; [reflexivity|].
    eexists. reflexivity.
Qed.

Lemma level_interaction_keeps_eva_witness :
  (forall r,
     Ellipticity.idisc_sigma (Toy.diffracted 0.3) Toy.cored_planet
       [Toy.point 0.3 0 0; Toy.point 0.3 1 0.5; Toy.point 0.3 2 0.5;
        Toy.point 0.3 3 0]
       [["p"; "p"]; ["p"; "p"]; ["p"; "p"]]%char None 1
       {| Ellipticity.ind := 1; Ellipticity.order := 1;
          Ellipticity.dep := 500; Ellipticity.r := 500;
          Ellipticity.dist := 0; Ellipticity.p := 0.3 |} <> Ok r)
  /\ Ellipticity.idisc_sigma (Toy.diffracted 0.3) Toy.cored_planet
       [Toy.point 0.3 0 0; Toy.point 0.3 1 0.5; Toy.point 0.3 2 0.5;
        Toy.point 0.3 3 0]
       [["p"; "p"]; ["p"; "p"]; ["p"; "p"]]%char None 1
       {| Ellipticity.ind := 1; Ellipticity.order := 1;
          Ellipticity.dep := 500; Ellipticity.r := 500;
          Ellipticity.dist := 0; Ellipticity.p := 0.3 |}
     = Raise NameError.
Proof.
  destruct (level_interaction_keeps_eva (Toy.diffracted 0.3) Toy.cored_planet
              [Toy.point 0.3 0 0; Toy.point 0.3 1 0.5; Toy.point 0.3 2 0.5;
               Toy.point 0.3 3 0]
              [["p"; "p"]; ["p"; "p"]; ["p"; "p"]]%char 1%nat
              {| Ellipticity.ind := 1; Ellipticity.order := 1;
                 Ellipticity.dep := 500; Ellipticity.r := 500;
                 Ellipticity.dist := 0; Ellipticity.p := 0.3 |}
              (Toy.point 0.3 0 0) (Toy.point 0.3 1 0.5) (Toy.point 0.3 2 0.5))
    as (HA & HB & _).
  - cbn. lra.
  - cbn. lia.
  - reflexivity.
  - reflexivity.
  - reflexivity.
  - right. cbn. lra.
  - split; [exact HA|].
    apply (HB 0).
    + unfold Ellipticity.get_epsilon, searchsorted_left. cbn.
      decide_R. cbn. autorewrite with pyidx. cbn.
      rewrite Rlt_bool_false.
      2:{ unfold Rabs. repeat destruct Rcase_abs; lra. }
      reflexivity.
    + unfold Ellipticity.assigned_eva. cbn. decide_R. cbn.
      autorewrite with pyidx. cbn.
      unfold Ellipticity.direction_of. cbn. decide_R. cbn.
      autorewrite with pyidx. cbn. reflexivity.
Defined.

(** ** Looking up the profile that [model_epsilon] stored *)

Lemma even_samples_sorted (c : R) (n s : nat) :
  0 <= c ->
  Forall (fun d => 0 <= d)
         (pairwise Rminus (map (fun i => INR i * c) (seq s n))).
Proof.
  intros Hc. revert s. induction n as [|[|n] IH]; intros s;
    cbn [seq map pairwise]; try constructor.
  - rewrite S_INR. lra.
  - apply (IH (S s)).
Qed.

Lemma sample_radii_sorted model dr r :
  0 < dr -> 0 <= radius_of_planet model * 1e3 ->
  Ellipticity.sample_radii model dr = Ok r ->
  Forall (fun d => 0 <= d) (pairwise Rminus r).
Proof.
  intros Hdr Ha. unfold Ellipticity.sample_radii, linspace0.
  set (a := radius_of_planet model * 1e3) in *.
  rewrite (Req_bool_false dr 0) by lra.
  destruct (1 + py_int (a / dr) <? 0)%Z eqn:E0; [discriminate|].
  destruct (1 + py_int (a / dr) =? 1)%Z eqn:E1.
  - intros H. apply Ok_inj in H. subst r. constructor.
  - intros H. apply Ok_inj in H. subst r.
    apply Z.ltb_ge in E0. apply Z.eqb_neq in E1.
    destruct (Z.eq_dec (py_int (a / dr)) (-1)) as [Em | Em].
    + rewrite Em. cbn. constructor.
    + apply even_samples_sorted.
      apply Rmult_le_pos; [exact Ha|].
      apply Rlt_le, Rinv_0_lt_compat. apply IZR_lt. lia.
Qed.

(** X26.  For positive density, length of day and grid step (not larger
    than the planet), [Ellipticity.model_epsilon] succeeds, and on the
    model it returns [Ellipticity.get_epsilon] succeeds at every radius,
    with a positive value. *)
Theorem stored_profile_lookup (model : TauModel) (lod : R) (taper : bool)
    (dr : R) :
  0 < lod -> 0 < dr -> dr <= radius_of_planet model * 1e3 ->
  (forall depth, 0 < evaluate_above model depth Dens) ->
  0 < evaluate_below model 0.0 Dens ->
  exists model',
    Ellipticity.model_epsilon model lod taper dr = Ok model'
    /\ forall radius,
         exists e, Ellipticity.get_epsilon model' radius = Ok e /\ 0 < e.
Proof.
  intros Hlod Hdr Ha Habove Hbelow.
  destruct (radial_profile_structure model lod taper dr Hlod Hdr Ha
              Habove Hbelow)
    as (tail & epsilona & e_last & Hr & Hne & Htail & Hea & Hel & Hm).
  cbv zeta in Hm.
  destruct (radial_profile model lod taper dr Hlod Hdr Ha Habove Hbelow)
    as (r & M & eta_a & eps & Hr' & _ & _ & Hm' & _ & _ & _ & _ & _ & Hlen).
  rewrite Hr in Hr'. apply Ok_inj in Hr'. subst r.
  rewrite Hm in Hm'. apply Ok_inj in Hm'.
  apply (f_equal epsilon) in Hm'. cbn [epsilon set_radial_epsilon] in Hm'.
  apply (f_equal (fun o => match o with Some l => l | None => [] end)) in Hm'.
  cbv beta iota in Hm'.
  eexists. split; [exact Hm|]. intros radius.
  set (body := map (fun e => epsilona * e / e_last) _) in *.
  assert (Hbody : Forall (fun e => 0 < e) (hd 0 body :: body)).
  { assert (Hb : Forall (fun e => 0 < e) body).
    { apply Forall_forall. intros e He. unfold body in He.
      apply in_map_iff in He as (x & <- & Hx).
      apply in_map_iff in Hx as (y & <- & _).
      apply Rdiv_lt_0_compat; [|exact Hel].
      apply Rmult_lt_0_compat; [exact Hea | apply exp_pos]. }
    assert (Hnb : body <> [])
      by (unfold body, cumtrapz_initial; discriminate).
    constructor; [|exact Hb].
    destruct body as [|b0 rest]; [congruence|]. inversion Hb; assumption. }
  destruct (nearest_sample (set_radial_epsilon model (0 :: tail)
                              (hd 0 body :: body))
              radius (0 :: tail) (hd 0 body :: body))
    as (i & Hi & Hget & _).
  - reflexivity.
  - reflexivity.
  - discriminate.
  - rewrite Hm'. exact Hlen.
  - apply (sample_radii_sorted model dr); [exact Hdr | lra | exact Hr].
  - eexists. split; [exact Hget|].
    rewrite Forall_forall in Hbody. apply Hbody. apply nth_In.
    rewrite Hm', Hlen. exact Hi.
Qed.

Lemma stored_profile_lookup_witness :
  exists model',
    Ellipticity.model_epsilon Toy.planet EARTH_LOD true 100 = Ok model'
    /\ forall radius,
         exists e, Ellipticity.get_epsilon model' radius = Ok e /\ 0 < e.
Proof.
  apply (stored_profile_lookup Toy.planet EARTH_LOD true 100).
  - unfold EARTH_LOD. lra.
  - lra.
  - cbn. lra.
  - intros depth. cbn. lra.
  - cbn. lra.
Defined.

(** ** The model name in the message of [PhaseError] *)

Lemma prefix_empty (s : string) : String.prefix "" s = true.
Proof. destruct s; reflexivity. Qed.

Lemma contains_char_absent (c : ascii) (s : string) :
  ~ In c (list_ascii_of_string s) ->
  contains (String c EmptyString) s = false.
Proof.
  induction s as [|h s IH]; intros H; cbn [contains String.prefix].
  - reflexivity.
  - destruct (ascii_dec c h) as [-> | Hne].
    + elim H. cbn. left. reflexivity.
    + cbn [orb]. apply IH. intros Hin. apply H. cbn. right. exact Hin.
Qed.

Lemma contains_char_found (c : ascii) (pre rest : string) :
  contains (String c EmptyString) (pre ++ String c rest) = true.
Proof.
  induction pre as [|h pre IH]; cbn [String.append contains String.prefix].
  - destruct (ascii_dec c c); [|congruence]. rewrite prefix_empty.
    reflexivity.
  - rewrite IH. apply orb_true_r.
Qed.

Lemma str_index_char (c : ascii) (pre rest : string) :
  ~ In c (list_ascii_of_string pre) ->
  str_index (String c EmptyString) (pre ++ String c rest)
  = Z.of_nat (String.length pre).
Proof.
  induction pre as [|h pre IH]; intros H;
    cbn [String.append str_index String.prefix String.length].
  - destruct (ascii_dec c c); [|congruence]. rewrite prefix_empty.
    reflexivity.
  - destruct (ascii_dec c h) as [-> | Hne].
    + elim H. cbn. left. reflexivity.
    + rewrite IH by (intros Hin; apply H; cbn; right; exact Hin). lia.
Qed.

Lemma substring_all (m : nat) (s : string) :
  (String.length s <= m)%nat -> String.substring 0 m s = s.
Proof.
  revert m. induction s as [|h s IH]; intros m Hm.
  - destruct m; reflexivity.
  - destruct m as [|m]; [cbn in Hm; lia|]. cbn [String.substring].
    rewrite IH by (cbn in Hm; lia). reflexivity.
Qed.

Lemma substring_after (pre rest : string) (c : ascii) (m : nat) :
  String.substring (String.length pre + 1) m (pre ++ String c rest)
  = String.substring 0 m rest.
Proof.
  induction pre as [|h pre IH]; cbn [String.length String.append Nat.add].
  - cbn [String.substring]. reflexivity.
  - cbn [String.substring]. exact IH.
Qed.

Lemma substring_before (mid rest : string) :
  String.substring 0 (String.length mid) (mid ++ rest) = mid.
Proof.
  induction mid as [|h mid IH]; cbn [String.length String.append].
  - destruct rest; reflexivity.
  - cbn [String.substring]. rewrite IH. reflexivity.
Qed.

Lemma length_append (a b : string) :
  String.length (a ++ b) = (String.length a + String.length b)%nat.
Proof.
  induction a as [|h a IH]; cbn [String.append String.length];
    [reflexivity|].
  rewrite IH. reflexivity.
Qed.

(** X27.  The model name that [get_taup_arrival] puts in its PhaseError is
    the text between the first two single quotes of the model's printed
    name: it is the whole name when there is no quote, and what follows
    the first quote when there is no second one. *)
Theorem model_name_between_quotes (pre mid post : string) :
  ~ In "'"%char (list_ascii_of_string pre) ->
  ~ In "'"%char (list_ascii_of_string mid) ->
  Ellipticity.vel_model_of_name pre = pre
  /\ Ellipticity.vel_model_of_name (pre ++ String "'" mid) = mid
  /\ Ellipticity.vel_model_of_name
       (pre ++ String "'" (mid ++ String "'" post)) = mid.
Proof.
  intros Hpre Hmid. unfold Ellipticity.vel_model_of_name.
  split; [|split].
  - rewrite (contains_char_absent _ _ Hpre). reflexivity.
  - rewrite contains_char_found, (str_index_char _ _ _ Hpre), Nat2Z.id.
    rewrite substring_after.
    assert (Hx : (String.length mid
                  <= String.length (pre ++ String "'" mid))%nat)
      by (rewrite length_append; cbn [String.length]; lia).
    rewrite (substring_all _ mid Hx).
    rewrite (contains_char_absent _ _ Hmid). reflexivity.
  - rewrite contains_char_found, (str_index_char _ _ _ Hpre), Nat2Z.id.
    rewrite substring_after.
    assert (Hx : (String.length (mid ++ String "'" post)
                  <= String.length
                       (pre ++ String "'" (mid ++ String "'" post)))%nat)
      by (rewrite (length_append pre); cbn [String.length]; lia).
    rewrite (substring_all _ (mid ++ String "'" post) Hx).
    rewrite contains_char_found, (str_index_char _ _ _ Hmid), Nat2Z.id.
    apply substring_before.
Qed.

Lemma model_name_between_quotes_witness :
  Ellipticity.vel_model_of_name "b" = "b"%string
  /\ Ellipticity.vel_model_of_name "b'prem" = "prem"%string
  /\ Ellipticity.vel_model_of_name "b'prem'" = "prem"%string.
Proof.
  apply (model_name_between_quotes "b" "prem" "").
  - cbn. intros [H | []]. discriminate.
  - cbn. intros [H | [H | [H | [H | []]]]]; discriminate.
Defined.

(** ** The classifier in a fluid *)

Lemma delay_without_velocity model p d0 d1 w :
  (if Rle_bool d0 d1 then evaluate_below model d0 w
   else evaluate_above model d0 w) <= 0 ->
  Ellipticipy.expected_delay_time p d0 d1 w model = 0.
Proof.
  intros Hv. unfold Ellipticipy.expected_delay_time.
  destruct (Rle_bool d0 d1); rewrite Rlt_bool_false by lra; lra.
Qed.

Lemma unit_error x : Rabs (x - 1) < 1 <-> 0 < x < 2.
Proof.
  split.
  - intros H. apply Rabs_def2 in H. lra.
  - intros H. apply Rabs_def1; lra.
Qed.

(** X28.  Where the S velocity on the starting side of a leg is not
    positive (a fluid), the predicted S delay is zero, so a leg between
    two distinct depths inside the planet, with positive P velocities and
    a nonzero observed delay, is labelled p exactly when the predicted
    P delay lies strictly between zero and twice the observed one, and s
    otherwise. *)
Theorem fluid_leg_classification (path : list PathPoint) (model : TauModel)
    (point0 point1 : PathPoint) :
  Ellipticipy.compared_points path = Ok (point0, point1) ->
  pt_depth point0 <> pt_depth point1 ->
  pt_depth point0 < radius_of_planet model ->
  pt_depth point1 < radius_of_planet model ->
  (forall pt, In pt [point0; point1] ->
     0 < evaluate_above model (pt_depth pt) PVel
     /\ 0 < evaluate_below model (pt_depth pt) PVel) ->
  (if Rle_bool (pt_depth point0) (pt_depth point1)
   then evaluate_below model (pt_depth point0) SVel
   else evaluate_above model (pt_depth point0) SVel) <= 0 ->
  let observed := pt_time point1 - pt_time point0
                  - pt_p point0 * Rabs (pt_dist point0 - pt_dist point1) in
  let delay_p := Ellipticipy.expected_delay_time (pt_p point0)
                   (pt_depth point0) (pt_depth point1) PVel model in
  observed <> 0 ->
  Ellipticipy.expected_delay_time (pt_p point0) (pt_depth point0)
    (pt_depth point1) SVel model = 0
  /\ (Ellipticipy.classify_path path model = Ok Ellipticipy.LP
      <-> 0 < delay_p / observed < 2)
  /\ (Ellipticipy.classify_path path model = Ok Ellipticipy.LS
      <-> ~ 0 < delay_p / observed < 2).
Proof.
  intros Hc Hd _ _ _ Hfluid observed delay_p Hobs.
  pose proof (delay_without_velocity model (pt_p point0) (pt_depth point0)
                (pt_depth point1) SVel Hfluid) as Hs.
  split; [exact Hs|].
  destruct (classify_wave path model point0 point1 Hc Hd) as [HP HS].
  cbv zeta in HP, HS. rewrite Hs in HP, HS.
  fold observed in HP, HS. fold delay_p in HP, HS.
  assert (Hone : Rabs (0 / observed - 1) = 1).
  { replace (0 / observed - 1) with (0 - 1) by (unfold Rdiv; ring).
    rewrite Rabs_minus_sym. replace (1 - 0) with 1 by ring. apply Rabs_R1. }
  rewrite Hone in HP, HS.
  split.
  - rewrite HP. apply unit_error.
  - rewrite HS. split; intros H Hx; apply H; apply unit_error; exact Hx.
Qed.

Lemma fluid_leg_classification_witness :
  Ellipticipy.expected_delay_time 0 0.1 0 SVel Sample.fluid_planet = 0
  /\ Ellipticipy.classify_path [Toy.point 0 0 0.1; Toy.point 0 1 0]
       Sample.fluid_planet = Ok Ellipticipy.LP.
Proof.
  assert (Hc : Ellipticipy.compared_points
                 [Toy.point 0 0 0.1; Toy.point 0 1 0]
               = Ok (Toy.point 0 0 0.1, Toy.point 0 1 0)).
  { unfold Ellipticipy.compared_points. eval_R. reflexivity. }
  destruct (fluid_leg_classification [Toy.point 0 0 0.1; Toy.point 0 1 0]
              Sample.fluid_planet (Toy.point 0 0 0.1) (Toy.point 0 1 0) Hc)
    as (H0 & HP & _).
  - cbn. lra.
  - cbn. lra.
  - cbn. lra.
  - intros pt _. cbn. lra.
  - cbn. destruct (Rle_bool 0.1 0); lra.
  - cbn. rewrite Rminus_diag, Rabs_R0. lra.
  - split; [exact H0|]. apply HP. cbn [Toy.point pt_p pt_time pt_dist pt_depth].
    unfold Ellipticipy.expected_delay_time.
    rewrite (Rle_bool_false 0.1 0) by lra.
    cbn [Sample.fluid_planet evaluate_above evaluate_below radius_of_planet].
    rewrite Rlt_bool_true by lra. rewrite Req_bool_true by lra.
    rewrite Rminus_diag, Rabs_R0.
    replace (1 - 0 - (1 - 0.1)) with 0.1 by lra.
    rewrite (Rabs_right 0.1) by lra. lra.
Defined.
